(** * next-typesafe-url TypeScript plugin: route detection and route-to-file resolution

    A shallow embedding of [packages/typescript-plugin/src/resolver.ts] and
    [packages/typescript-plugin/src/detector.ts], together with the part of
    Node's POSIX [path.join] and of the TypeScript syntax tree that the two
    files rely on, and of [config.ts] and [plugin.ts], which put the two to
    work behind the language service.

    JavaScript strings are modelled by [string], source positions by [Z],
    [null]/[undefined] by [None].  The host object [typescript.sys] is a
    record of oracles; a call that may throw returns an [attempt].  The
    recursion of [searchDir] follows the file system, so the model bounds
    the depth of its call stack by a fuel argument and says [OutOfFuel]
    when the bound is hit. *)

From Stdlib Require Import String Ascii List Bool ZArith Lia Arith.
Import ListNotations.

Local Open Scope list_scope.
Local Open Scope string_scope.

(* ================================================================== *)
(** ** String helpers standing for the JavaScript built-ins used *)
(* ================================================================== *)

Module Js.

(** [s.split(sep)] for a separator that is a set of single characters:
    the pieces between separators, in order; the empty string splits to
    one empty piece. *)
Fixpoint splitOn (isSep : ascii -> bool) (s : string) : list string :=
  match s with
  | EmptyString => [EmptyString]
  | String c rest =>
      if isSep c then EmptyString :: splitOn isSep rest
      else match splitOn isSep rest with
           | piece :: pieces => String c piece :: pieces
           | [] => [String c EmptyString]
           end
  end.

(** [Boolean(s)] for a string: the empty string is falsy. *)
Definition truthy (s : string) : bool :=
  match s with
  | EmptyString => false
  | String _ _ => true
  end.

(** [s.slice(1)]. *)
Definition slice1 (s : string) : string :=
  match s with
  | EmptyString => EmptyString
  | String _ rest => rest
  end.

(** [s.startsWith(p)]. *)
Fixpoint startsWith (p s : string) : bool :=
  match p, s with
  | EmptyString, _ => true
  | String a p', String b s' => Ascii.eqb a b && startsWith p' s'
  | String _ _, EmptyString => false
  end.

(** [s.endsWith("/")]-style test on the last character. *)
Fixpoint lastIs (c : ascii) (s : string) : bool :=
  match s with
  | EmptyString => false
  | String d EmptyString => Ascii.eqb c d
  | String _ rest => lastIs c rest
  end.

(** No character of [s] is a separator. *)
Fixpoint sepFree (isSep : ascii -> bool) (s : string) : bool :=
  match s with
  | EmptyString => true
  | String c rest => negb (isSep c) && sepFree isSep rest
  end.

(** [pieces.join(sep)]. *)
Fixpoint joinWith (sep : string) (pieces : list string) : string :=
  match pieces with
  | [] => EmptyString
  | [p] => p
  | p :: rest => p ++ sep ++ joinWith sep rest
  end.

(** [s.slice(from, to)] for [0 <= from <= to]. *)
Definition slice (s : string) (from to : Z) : string :=
  String.substring (Z.to_nat from) (Z.to_nat (to - from)) s.

(** Whether [needle] occurs somewhere in [s]. *)
Fixpoint includes (needle s : string) : bool :=
  startsWith needle s ||
  match s with
  | EmptyString => false
  | String _ rest => includes needle rest
  end.

End Js.

(* ================================================================== *)
(** ** Node's [path.join] (POSIX flavour) *)
(* ================================================================== *)

(** After [posix.join], [posix.normalize] and [normalizeString] of Node's
    lib/path.js.  Node scans the characters; here the path is cut at the
    slashes first and the components are processed one by one, which gives
    the same kept components. *)
Module Path.

Definition isSlash (c : ascii) : bool := Ascii.eqb c "/"%char.

(** One step of [normalizeString]: the effect of a finished component on
    the components kept so far (most recent first). *)
Definition step (allowAboveRoot : bool) (kept : list string) (comp : string)
  : list string :=
  if String.eqb comp "" || String.eqb comp "." then kept
  else if String.eqb comp ".." then
    match kept with
    | [] => if allowAboveRoot then [".."] else []
    | top :: below =>
        if String.eqb top ".."
        then (if allowAboveRoot then ".." :: kept else kept)
        else below
    end
  else comp :: kept.

(** [normalizeString(path, allowAboveRoot, "/", isPosixPathSeparator)]:
    the kept components, in path order. *)
Definition normalizeString (path : string) (allowAboveRoot : bool) : list string :=
  rev (fold_left (step allowAboveRoot) (Js.splitOn isSlash path) []).

(** The last lines of [posix.normalize]: the result once the kept
    components are known. *)
Definition assemble (isAbsolute trailingSeparator : bool) (comps : list string)
  : string :=
  let res := Js.joinWith "/" comps in
  if String.eqb res "" then
    if isAbsolute then "/" else if trailingSeparator then "./" else "."
  else
    let res' := if trailingSeparator then res ++ "/" else res in
    if isAbsolute then "/" ++ res' else res'.

(** [posix.normalize(path)]. *)
Definition normalize (path : string) : string :=
  if String.eqb path "" then "."
  else
    let isAbsolute := Js.startsWith "/" path in
    let trailingSeparator := Js.lastIs "/"%char path in
    assemble isAbsolute trailingSeparator (normalizeString path (negb isAbsolute)).

(** [posix.join(...args)]: the non-empty arguments glued with ["/"], then
    normalised; ["."] when nothing is left. *)
Definition join (args : list string) : string :=
  match filter Js.truthy args with
  | [] => "."
  | parts => normalize (Js.joinWith "/" parts)
  end.

(** The directory reached by joining the segments one at a time, as
    [searchDir] does on its direct branch. *)
Definition descend (dir : string) (segments : list string) : string :=
  fold_left (fun dir segment => join [dir; segment]) segments dir.

(** A component that [normalizeString] keeps as a name. *)
Definition isName (comp : string) : bool :=
  negb (String.eqb comp "") && negb (String.eqb comp ".")
  && negb (String.eqb comp "..") && Js.sepFree isSlash comp.

(** The shape of the components [normalizeString] keeps (most recent
    first): names, above a run of [..] that only a relative path may hold. *)
Inductive resolved (allowAboveRoot : bool) : list string -> Prop :=
| resolved_nil : resolved allowAboveRoot []
| resolved_name comp kept :
    isName comp = true -> resolved allowAboveRoot kept ->
    resolved allowAboveRoot (comp :: kept)
| resolved_up kept :
    allowAboveRoot = true -> Forall (eq "..") kept ->
    resolved allowAboveRoot (".." :: kept).

End Path.

(* ================================================================== *)
(** ** Host interface: [typescript.sys] and the plugin configuration *)
(* ================================================================== *)

(** How the evaluation of a JavaScript expression ends.  [OutOfFuel] is not
    a JavaScript outcome: it marks a recursion cut off by the fuel bound of
    the model. *)
Inductive completion (A : Type) : Type :=
| Normal (value : A)
| Throws
| OutOfFuel.
Arguments Normal {A} value.
Arguments Throws {A}.
Arguments OutOfFuel {A}.

(** What a host call that may fail gives back. *)
Inductive attempt (A : Type) : Type :=
| Returned (value : A)
| Raised.
Arguments Returned {A} value.
Arguments Raised {A}.

(** The three queries of [typescript.sys] the resolver uses.
    [readDirectory dir] stands for the call
    [readDirectory(dir, undefined, undefined, ["*/"])], which may throw. *)
Record System : Type := {
  fileExists : string -> bool;
  directoryExists : string -> bool;
  readDirectory : string -> attempt (list string)
}.

(** [ResolvedConfig] of types.ts. *)
Record ResolvedConfig : Type := {
  appDir : string;
  routeTypeFileName : string;
  debug : bool
}.

(** [RouteResolution] of types.ts. *)
Record RouteResolution : Type := {
  filePath : string;
  exists_ : bool
}.

(** [DEFAULT_CONFIG] of config.ts. *)
Definition DEFAULT_CONFIG : ResolvedConfig :=
  {| appDir := "src/app"; routeTypeFileName := "routeType"; debug := false |}.

(* ================================================================== *)
(** ** resolver.ts *)
(* ================================================================== *)

Module Resolver.

(** [route.slice(1).split("/").filter(Boolean)], and [[]] for ["/"]. *)
Definition parseRouteSegments (route : string) : list string :=
  if String.eqb route "/" then []
  else filter Js.truthy (Js.splitOn Path.isSlash (Js.slice1 route)).

(** [seg.replace(/%5F/g, "_")]: every match of [%5F], scanning from the
    left, is replaced by an underscore. *)
Fixpoint replace_5F (seg : string) : string :=
  match seg with
  | String c1 (String c2 (String c3 rest) as tail) =>
      if Ascii.eqb c1 "%" && Ascii.eqb c2 "5" && Ascii.eqb c3 "F"
      then String "_" (replace_5F rest)
      else String c1 (replace_5F tail)
  | String c tail => String c (replace_5F tail)
  | EmptyString => EmptyString
  end.

(** [segments.map((seg) => seg.replace(/%5F/g, "_"))]. *)
Definition escapedSegments (segments : list string) : list string :=
  map replace_5F segments.

Definition buildPossiblePaths (typescript : System) (segments : list string)
    (projectPath : string) (config : ResolvedConfig) : list string :=
  let appDirPath := Path.join [projectPath; appDir config] in
  let escaped := escapedSegments segments in
  let routeDir :=
    if (0 <? length escaped)%nat
    then Path.join (appDirPath :: escaped)
    else appDirPath in
  [ Path.join [routeDir; routeTypeFileName config ++ ".ts"];
    Path.join [routeDir; routeTypeFileName config ++ ".tsx"] ].

Definition resolveRouteToFile (typescript : System) (route projectPath : string)
    (config : ResolvedConfig) : option RouteResolution :=
  let segments := parseRouteSegments route in
  let possiblePaths := buildPossiblePaths typescript segments projectPath config in
  match find (fileExists typescript) possiblePaths with
  | Some path => Some {| filePath := path; exists_ := true |}
  | None =>
      match possiblePaths with
      | first :: _ => Some {| filePath := first; exists_ := false |}
      | [] => None
      end
  end.

(** The separators of [entry.split(/[/\\]/)]: slash and backslash. *)
Definition isSeparator (c : ascii) : bool :=
  Ascii.eqb c "/"%char || Ascii.eqb c "\"%char.

(** [parts[parts.length - 1] || parts[parts.length - 2]] of an entry split
    at the separators; [None] when the result is falsy (the [continue]). *)
Definition dirNameOf (entry : string) : option string :=
  match rev (Js.splitOn isSeparator entry) with
  | last :: before =>
      if Js.truthy last then Some last
      else match before with
           | prev :: _ => if Js.truthy prev then Some prev else None
           | [] => None
           end
  | [] => None
  end.

(** [/^\([^)]+\)$/.test(dirName)]. *)
Fixpoint closesGroup (interior : string) : bool :=
  match interior with
  | EmptyString => false
  | String c rest =>
      if Ascii.eqb c ")" then negb (Js.truthy rest) else closesGroup rest
  end.

Definition isRouteGroup (dirName : string) : bool :=
  match dirName with
  | String c interior =>
      Ascii.eqb c "(" && negb (Js.startsWith ")" interior) && closesGroup interior
  | EmptyString => false
  end.

(** The [for (const ext of ["ts", "tsx"])] loop of the base case. *)
Fixpoint firstExisting (typescript : System) (currentDir : string)
    (config : ResolvedConfig) (exts : list string) : option string :=
  match exts with
  | [] => None
  | ext :: more =>
      let path := Path.join [currentDir; routeTypeFileName config ++ "." ++ ext] in
      if fileExists typescript path then Some path
      else firstExisting typescript currentDir config more
  end.

(** [if (result) return result;]: a result that is a non-empty string. *)
Definition found (result : option string) : bool :=
  match result with
  | Some path => Js.truthy path
  | None => false
  end.

Section SearchDir.
Variable typescript : System.
Variable config : ResolvedConfig.
(** The recursive call, one unit of fuel down. *)
Variable recur : string -> list string -> completion (option string).

(** The [for (const entry of entries)] loop inside the [try] block. *)
Fixpoint groupLoop (currentDir : string) (remainingSegments : list string)
    (entries : list string) : completion (option string) :=
  match entries with
  | [] => Normal None
  | entry :: more =>
      match dirNameOf entry with
      | None => groupLoop currentDir remainingSegments more
      | Some dirName =>
          if isRouteGroup dirName then
            match recur (Path.join [currentDir; dirName]) remainingSegments with
            | Normal result =>
                if found result then Normal result
                else groupLoop currentDir remainingSegments more
            | Throws => Throws
            | OutOfFuel => OutOfFuel
            end
          else groupLoop currentDir remainingSegments more
      end
  end.

(** [try { ... } catch { }] around the listing and the loop, followed by
    the final [return null]. *)
Definition groupSearch (currentDir : string) (remainingSegments : list string)
  : completion (option string) :=
  match readDirectory typescript currentDir with
  | Returned entries =>
      match groupLoop currentDir remainingSegments entries with
      | Normal result => Normal result
      | Throws => Normal None
      | OutOfFuel => OutOfFuel
      end
  | Raised => Normal None
  end.

Definition searchBody (currentDir : string) (remainingSegments : list string)
  : completion (option string) :=
  match remainingSegments with
  | [] => Normal (firstExisting typescript currentDir config ["ts"; "tsx"])
  | nextSegment :: rest =>
      if negb (Js.truthy nextSegment) then Normal None
      else
        let directPath := Path.join [currentDir; nextSegment] in
        if directoryExists typescript directPath then
          match recur directPath rest with
          | Normal result =>
              if found result then Normal result
              else groupSearch currentDir remainingSegments
          | Throws => Throws
          | OutOfFuel => OutOfFuel
          end
        else groupSearch currentDir remainingSegments
  end.
End SearchDir.

(** [searchDir], with the depth of the call stack bounded by [fuel]. *)
Fixpoint searchDir (fuel : nat) (typescript : System) (currentDir : string)
    (remainingSegments : list string) (config : ResolvedConfig)
  : completion (option string) :=
  match fuel with
  | O => OutOfFuel
  | S fuel' =>
      searchBody typescript config
        (fun dir segments => searchDir fuel' typescript dir segments config)
        currentDir remainingSegments
  end.

Definition findRouteTypeWithGroups (fuel : nat) (typescript : System)
    (route projectPath : string) (config : ResolvedConfig)
  : completion (option string) :=
  let appDirPath := Path.join [projectPath; appDir config] in
  let segments := parseRouteSegments route in
  let escaped := escapedSegments segments in
  searchDir fuel typescript appDirPath escaped config.

End Resolver.

(* ================================================================== *)
(** ** The part of the TypeScript syntax tree the detector looks at *)
(* ================================================================== *)

(** [node.getStart(sourceFile)] and [node.getEnd()]. *)
Record TextRange : Type := { rangeStart : Z; rangeEnd : Z }.

(** [ts.Identifier]: its range and its [text]. *)
Record Identifier : Type := { idRange : TextRange; idText : string }.

Set Warnings "-register-all".

(** Syntax nodes, by the kinds the detector tells apart; every other kind
    is an [OtherNode] with its children in [forEachChild] order. *)
Inductive Node : Type :=
| StringLiteral (range : TextRange) (text : string)
| IdentifierNode (id : Identifier)
| PropertyAssignment (range : TextRange) (name : Node) (initializer : Node)
| ShorthandPropertyAssignment (range : TextRange) (name : Identifier)
    (objectAssignmentInitializer : option Node)
| CallExpression (range : TextRange) (expression : Node) (arguments : list Node)
| PropertyAccessExpression (range : TextRange) (expression : Node) (name : Identifier)
| OtherNode (range : TextRange) (children : list Node).

(** A parsed source unit: its text and its root node. *)
Record SourceFile : Type := { sourceText : string; sourceRoot : Node }.

(** [ts.TextSpan]. *)
Record TextSpan : Type := { spanStart : Z; spanLength : Z }.

(** [RouteStringInfo] of types.ts. *)
Record RouteStringInfo : Type := {
  route : string;
  start : Z;
  end_ : Z;
  span : TextSpan
}.

Definition rangeOf (node : Node) : TextRange :=
  match node with
  | StringLiteral range _ => range
  | IdentifierNode id => idRange id
  | PropertyAssignment range _ _ => range
  | ShorthandPropertyAssignment range _ _ => range
  | CallExpression range _ _ => range
  | PropertyAccessExpression range _ _ => range
  | OtherNode range _ => range
  end.

Definition getStart (node : Node) : Z := rangeStart (rangeOf node).
Definition getEnd (node : Node) : Z := rangeEnd (rangeOf node).

(** The children of a node in the order [forEachChild] visits them. *)
Definition childrenOf (node : Node) : list Node :=
  match node with
  | StringLiteral _ _ => []
  | IdentifierNode _ => []
  | PropertyAssignment _ name initializer => [name; initializer]
  | ShorthandPropertyAssignment _ name None => [IdentifierNode name]
  | ShorthandPropertyAssignment _ name (Some initializer) =>
      [IdentifierNode name; initializer]
  | CallExpression _ expression arguments => expression :: arguments
  | PropertyAccessExpression _ expression name => [expression; IdentifierNode name]
  | OtherNode _ children => children
  end.


(* ================================================================== *)
(** ** detector.ts *)
(* ================================================================== *)

Module Detector.

Definition contains (position : Z) (node : Node) : bool :=
  (getStart node <=? position)%Z && (position <? getEnd node)%Z.

Definition orElse {A : Type} (first second : option A) : option A :=
  match first with
  | Some _ => first
  | None => second
  end.

(** [forEachChild] over a list of child nodes: the first result the
    callback gives. *)
Definition firstResult {A : Type} (cbNode : Node -> option A)
  : list Node -> option A :=
  fix visit (nodes : list Node) : option A :=
    match nodes with
    | [] => None
    | child :: more => orElse (cbNode child) (visit more)
    end.

(** The inner function [find] of [findTokenAtPosition].  A found node is
    returned with its chain of parents, nearest first, which stands for the
    [parent] links of the tree.  The [match] is [forEachChild(node, find)],
    kind by kind. *)
Fixpoint find (position : Z) (parents : list Node) (node : Node) {struct node}
  : option (Node * list Node) :=
  if contains position node then
    let chain := node :: parents in
    let visit := find position chain in
    let leaf := fun child =>
      if contains position child then Some (child, chain) else None in
    let childResult :=
      match node with
      | StringLiteral _ _ => None
      | IdentifierNode _ => None
      | PropertyAssignment _ name initializer =>
          orElse (visit name) (visit initializer)
      | ShorthandPropertyAssignment _ name initializer =>
          orElse (leaf (IdentifierNode name))
                 (match initializer with
                  | Some value => visit value
                  | None => None
                  end)
      | CallExpression _ expression arguments =>
          orElse (visit expression) (firstResult visit arguments)
      | PropertyAccessExpression _ expression name =>
          orElse (visit expression) (leaf (IdentifierNode name))
      | OtherNode _ children => firstResult visit children
      end in
    orElse childResult (Some (node, parents))
  else None.

Definition findTokenAtPosition (sourceFile : SourceFile) (position : Z)
  : option (Node * list Node) :=
  find position [] (sourceRoot sourceFile).


(** [isRoutePropertyValue], given [node.parent] (no parent at the root). *)
Definition isRoutePropertyValue (parent : option Node) : bool :=
  match parent with
  | Some (PropertyAssignment _ (IdentifierNode propertyName) _) =>
      String.eqb (idText propertyName) "route"
  | Some (ShorthandPropertyAssignment _ name _) =>
      String.eqb (idText name) "route"
  | _ => false
  end.

(** The test made on each node of the upward walk of [isWithinPathCall]. *)
Definition isPathCall (current : Node) : bool :=
  match current with
  | CallExpression _ (IdentifierNode callee) _ => String.eqb (idText callee) "$path"
  | CallExpression _ (PropertyAccessExpression _ _ name) _ =>
      String.eqb (idText name) "$path"
  | _ => false
  end.

(** [isWithinPathCall]: the [while (current)] loop over the node and then
    its parents. *)
Fixpoint isWithinPathCall (node : Node) (parents : list Node) : bool :=
  if isPathCall node then true
  else match parents with
       | [] => false
       | parent :: above => isWithinPathCall parent above
       end.

Definition detectRouteString (sourceFile : SourceFile) (position : Z)
  : option RouteStringInfo :=
  match findTokenAtPosition sourceFile position with
  | None => None
  | Some (token, parents) =>
      match token with
      | StringLiteral _ routeValue =>
          if negb (isRoutePropertyValue (hd_error parents)) then None
          else if negb (isWithinPathCall token parents) then None
          else if negb (Js.startsWith "/" routeValue) then None
          else Some {| route := routeValue;
                       start := getStart token;
                       end_ := getEnd token;
                       span := {| spanStart := getStart token;
                                  spanLength := getEnd token - getStart token |} |}
      | _ => None
      end
  end.

End Detector.

(* ================================================================== *)
(** ** config.ts *)
(* ================================================================== *)

(** [PluginConfig] of types.ts: every field may be left out. *)
Module PluginConfig.
Record t : Type := {
  appDir : option string;
  routeTypeFileName : option string;
  debug : option bool
}.
End PluginConfig.

Module Config.

(** [value ?? fallback]. *)
Definition nullish {A : Type} (value : option A) (fallback : A) : A :=
  match value with
  | Some given => given
  | None => fallback
  end.

(** [pluginConfig?.field]. *)
Definition optional {A : Type} (pluginConfig : option PluginConfig.t)
    (field : PluginConfig.t -> option A) : option A :=
  match pluginConfig with
  | Some given => field given
  | None => None
  end.

Definition resolveConfig (pluginConfig : option PluginConfig.t) : ResolvedConfig :=
  {| appDir :=
       nullish (optional pluginConfig PluginConfig.appDir) (appDir DEFAULT_CONFIG);
     routeTypeFileName :=
       nullish (optional pluginConfig PluginConfig.routeTypeFileName)
         (routeTypeFileName DEFAULT_CONFIG);
     debug := nullish (optional pluginConfig PluginConfig.debug) (debug DEFAULT_CONFIG) |}.

(** The [for (const possiblePath of possiblePaths)] loop of [detectAppDir]. *)
Fixpoint firstDirectory (typescript : System) (projectPath : string)
    (possiblePaths : list string) : option string :=
  match possiblePaths with
  | [] => None
  | possiblePath :: more =>
      let fullPath := Path.join [projectPath; possiblePath] in
      if directoryExists typescript fullPath then Some possiblePath
      else firstDirectory typescript projectPath more
  end.

Definition detectAppDir (typescript : System) (projectPath : string) : option string :=
  firstDirectory typescript projectPath ["src/app"; "app"].

End Config.

(* ================================================================== *)
(** ** plugin.ts *)
(* ================================================================== *)

Module Plugin.

(** [ts.ScriptElementKind], by the two members the plugin writes. *)
Inductive ScriptElementKind : Type :=
| constElement
| moduleElement
| otherElement (text : string).

(** [ts.DefinitionInfo], by the fields the plugin fills in. *)
Record DefinitionInfo : Type := {
  fileName : string;
  textSpan : TextSpan;
  kind : ScriptElementKind;
  name : string;
  containerName : string;
  containerKind : ScriptElementKind
}.

(** [ts.DefinitionInfoAndBoundSpan]; [boundSpan] is its [textSpan]. *)
Record DefinitionInfoAndBoundSpan : Type := {
  definitions : list DefinitionInfo;
  boundSpan : TextSpan
}.

(** What [findRouteExportPosition] reads of a modifier: whether its kind is
    [SyntaxKind.ExportKeyword]. *)
Inductive ModifierKind : Type :=
| ExportKeyword
| OtherKeyword.

(** [declaration.name]: an identifier or a binding pattern. *)
Inductive BindingName : Type :=
| BindingIdentifier (id : Identifier)
| BindingPattern.

(** The top-level children of a file, by the kinds [findRouteExportPosition]
    tells apart: a variable statement with its modifiers (none when
    [node.modifiers] is undefined) and the names of its declarations, or
    anything else. *)
Inductive Statement : Type :=
| VariableStatement (modifiers : option (list ModifierKind))
    (declarations : list BindingName)
| OtherStatement.

(** [ts.Program]: [getSourceFile] as the detector reads its result, a syntax
    tree, and as [findRouteExportPosition] reads it, a list of top-level
    statements. *)
Record Program : Type := {
  getSourceFile : string -> option SourceFile;
  getStatements : string -> option (list Statement)
}.

(** [ts.LanguageService], by the two members the plugin calls, as they
    answer when a request is made; [getDefinitionAndBoundSpan] may raise. *)
Record LanguageService : Type := {
  getProgram : option Program;
  getDefinitionAndBoundSpan :
    string -> Z -> attempt (option DefinitionInfoAndBoundSpan)
}.

(** [ts.server.PluginCreateInfo]: [info.config], the value of
    [info.project.getCurrentDirectory()] and [info.languageService]. *)
Record PluginCreateInfo : Type := {
  config : option PluginConfig.t;
  getCurrentDirectory : string;
  languageService : LanguageService
}.

(** [node.modifiers?.some((m) => m.kind === ExportKeyword)]. *)
Definition hasExport (modifiers : option (list ModifierKind)) : bool :=
  match modifiers with
  | Some given =>
      existsb (fun m => match m with ExportKeyword => true | OtherKeyword => false end)
        given
  | None => false
  end.

(** The [for (const declaration of ...)] loop: [position] after it. *)
Definition declarationLoop (position : Z) (declarations : list BindingName) : Z :=
  fold_left
    (fun position declaration =>
       match declaration with
       | BindingIdentifier id =>
           if String.eqb (idText id) "Route" then getStart (IdentifierNode id)
           else position
       | BindingPattern => position
       end)
    declarations position.

(** The callback of [forEachChild(sourceFile, ...)]: [position] after one
    top-level child.  The callback returns nothing, so every child is
    visited. *)
Definition visitStatement (position : Z) (node : Statement) : Z :=
  match node with
  | VariableStatement modifiers declarations =>
      if hasExport modifiers then declarationLoop position declarations
      else position
  | OtherStatement => position
  end.

Definition findRouteExportPosition (program : Program) (filePath : string) : Z :=
  match getStatements program filePath with
  | None => 0%Z
  | Some statements => fold_left visitStatement statements 0%Z
  end.

(** [!resolution?.exists]. *)
Definition notExisting (resolution : option RouteResolution) : bool :=
  match resolution with
  | Some given => negb (exists_ given)
  | None => true
  end.

(** [getRouteDefinition], with [fuel] bounding the depth of the grouping
    search.  The calls of the logger are left out: they hand a line to the
    host's log and give nothing back. *)
Definition getRouteDefinition (fuel : nat) (typescript : System)
    (info : PluginCreateInfo) (config : ResolvedConfig)
    (fileName : string) (position : Z)
  : completion (option DefinitionInfoAndBoundSpan) :=
  let projectPath := getCurrentDirectory info in
  match getProgram (languageService info) with
  | None => Normal None
  | Some program =>
      match getSourceFile program fileName with
      | None => Normal None
      | Some sourceFile =>
          match Detector.detectRouteString sourceFile position with
          | None => Normal None
          | Some routeInfo =>
              let direct :=
                Resolver.resolveRouteToFile typescript (route routeInfo) projectPath
                  config in
              let searched :=
                if notExisting direct then
                  match Resolver.findRouteTypeWithGroups fuel typescript
                          (route routeInfo) projectPath config with
                  | Normal (Some groupPath) =>
                      if Js.truthy groupPath
                      then Normal (Some {| filePath := groupPath; exists_ := true |})
                      else Normal direct
                  | Normal None => Normal direct
                  | Throws => Throws
                  | OutOfFuel => OutOfFuel
                  end
                else Normal direct in
              match searched with
              | Normal resolution =>
                  if notExisting resolution then Normal None
                  else
                    match resolution with
                    | Some target =>
                        let targetPosition :=
                          findRouteExportPosition program (filePath target) in
                        let definition :=
                          {| fileName := filePath target;
                             textSpan := {| spanStart := targetPosition;
                                            spanLength := 0 |};
                             kind := constElement;
                             name := "Route";
                             containerName := "";
                             containerKind := moduleElement |} in
                        Normal (Some {| definitions := [definition];
                                        boundSpan := span routeInfo |})
                    | None => Normal None
                    end
              | Throws => Throws
              | OutOfFuel => OutOfFuel
              end
          end
      end
  end.

(** [proxy.getDefinitionAndBoundSpan] of [createLanguageServiceProxy]: the
    route definition when there is one, and the original service's answer
    otherwise, also when the route detection raised. *)
Definition proxyGetDefinitionAndBoundSpan (fuel : nat) (typescript : System)
    (info : PluginCreateInfo) (config : ResolvedConfig)
    (fileName : string) (position : Z)
  : completion (option DefinitionInfoAndBoundSpan) :=
  let original :=
    match getDefinitionAndBoundSpan (languageService info) fileName position with
    | Returned result => Normal result
    | Raised => Throws
    end in
  match getRouteDefinition fuel typescript info config fileName position with
  | Normal (Some routeDefinition) => Normal (Some routeDefinition)
  | Normal None => original
  | Throws => original
  | OutOfFuel => OutOfFuel
  end.

(** [!(info.config)?.appDir]: no configuration, no [appDir] in it, or an
    empty one. *)
Definition appDirUnset (pluginConfig : option PluginConfig.t) : bool :=
  match Config.optional pluginConfig PluginConfig.appDir with
  | Some given => negb (Js.truthy given)
  | None => true
  end.

(** The [config] that [create] hands to [createLanguageServiceProxy]: the
    resolved configuration, with [appDir] replaced by a detected directory
    when none is configured. *)
Definition createConfig (typescript : System) (info : PluginCreateInfo)
  : ResolvedConfig :=
  let config := Config.resolveConfig (Plugin.config info) in
  let projectPath := getCurrentDirectory info in
  if appDirUnset (Plugin.config info) then
    match Config.detectAppDir typescript projectPath with
    | Some detected =>
        if Js.truthy detected
        then {| appDir := detected;
                routeTypeFileName := routeTypeFileName config;
                debug := debug config |}
        else config
    | None => config
    end
  else config.

End Plugin.

(** The names the entries of a listing stand for. *)
Definition namesOf (entries : list string) : list string :=
  flat_map (fun entry => match Resolver.dirNameOf entry with
                         | Some name => [name]
                         | None => []
                         end) entries.

(* ================================================================== *)
(** ** The search as the specification words it *)
(* ================================================================== *)

Module Spec.

(** A name fully wrapped in a single pair of parentheses, with a non-empty
    interior. *)
Definition wrappedInParentheses (name : string) : Prop :=
  exists interior,
    name = "(" ++ interior ++ ")" /\ interior <> "" /\
    Js.includes ")" interior = false.

(** The subdirectory names a listing of [dir] reports, in listing order;
    none when the listing fails. *)
Definition listedNames (sys : System) (dir : string) : list string :=
  match readDirectory sys dir with
  | Returned entries => namesOf entries
  | Raised => []
  end.

(** The definition file with extension [ext] inside [dir]. *)
Definition definitionFile (config : ResolvedConfig) (dir ext : string) : string :=
  Path.join [dir; routeTypeFileName config ++ "." ++ ext].

Section DepthFirst.
Variable sys : System.
Variable config : ResolvedConfig.

(** [depthFirst dir segments result]: the depth-first search from [dir]
    for [segments] ends with [result].  [firstGroup dir segments names
    result]: trying the grouping directories among [names], in order, ends
    with [result]. *)
Inductive depthFirst : string -> list string -> option string -> Prop :=
| base_ts dir :
    fileExists sys (definitionFile config dir "ts") = true ->
    depthFirst dir [] (Some (definitionFile config dir "ts"))
| base_tsx dir :
    fileExists sys (definitionFile config dir "ts") = false ->
    fileExists sys (definitionFile config dir "tsx") = true ->
    depthFirst dir [] (Some (definitionFile config dir "tsx"))
| base_none dir :
    fileExists sys (definitionFile config dir "ts") = false ->
    fileExists sys (definitionFile config dir "tsx") = false ->
    depthFirst dir [] None
| direct_hit dir head rest path :
    directoryExists sys (Path.join [dir; head]) = true ->
    depthFirst (Path.join [dir; head]) rest (Some path) ->
    depthFirst dir (head :: rest) (Some path)
| direct_absent dir head rest result :
    directoryExists sys (Path.join [dir; head]) = false ->
    firstGroup dir (head :: rest) (listedNames sys dir) result ->
    depthFirst dir (head :: rest) result
| direct_miss dir head rest result :
    directoryExists sys (Path.join [dir; head]) = true ->
    depthFirst (Path.join [dir; head]) rest None ->
    firstGroup dir (head :: rest) (listedNames sys dir) result ->
    depthFirst dir (head :: rest) result
with firstGroup : string -> list string -> list string -> option string -> Prop :=
| groups_done dir segments :
    firstGroup dir segments [] None
| group_skip dir segments name names result :
    ~ wrappedInParentheses name ->
    firstGroup dir segments names result ->
    firstGroup dir segments (name :: names) result
| group_hit dir segments name names path :
    wrappedInParentheses name ->
    depthFirst (Path.join [dir; name]) segments (Some path) ->
    firstGroup dir segments (name :: names) (Some path)
| group_miss dir segments name names result :
    wrappedInParentheses name ->
    depthFirst (Path.join [dir; name]) segments None ->
    firstGroup dir segments names result ->
    firstGroup dir segments (name :: names) result.
End DepthFirst.

Scheme depthFirst_mut := Minimality for depthFirst Sort Prop
  with firstGroup_mut := Minimality for firstGroup Sort Prop.

End Spec.

(* ================================================================== *)
(** ** Cycle-free directory trees *)
(* ================================================================== *)

(** [name] is a grouping directory that the listing of [dir] reports. *)
Definition groupChild (sys : System) (dir name : string) : Prop :=
  exists entries entry,
    readDirectory sys dir = Returned entries /\ In entry entries /\
    Resolver.dirNameOf entry = Some name /\ Resolver.isRouteGroup name = true.

(** The grouping directories nest to a depth of at most [bound]: [rank]
    gives every directory a height that a listed grouping subdirectory
    strictly lowers. *)
Definition groupsNestWithin (sys : System) (rank : string -> nat) (bound : nat)
  : Prop :=
  (forall dir, (rank dir <= bound)%nat) /\
  (forall dir name, groupChild sys dir name ->
     (rank (Path.join [dir; name]) < rank dir)%nat).

(** [sys] with every failing listing replaced by an empty listing. *)
Definition withEmptyListings (sys : System) : System :=
  {| fileExists := fileExists sys;
     directoryExists := directoryExists sys;
     readDirectory := fun dir =>
       match readDirectory sys dir with
       | Returned entries => Returned entries
       | Raised => Returned []
       end |}.

(** The [entry] loop of [searchDir] run over directory names. *)
Fixpoint loopNames (recur : string -> list string -> completion (option string))
    (dir : string) (segments names : list string) : completion (option string) :=
  match names with
  | [] => Normal None
  | name :: more =>
      if Resolver.isRouteGroup name then
        match recur (Path.join [dir; name]) segments with
        | Normal result =>
            if Resolver.found result then Normal result
            else loopNames recur dir segments more
        | Throws => Throws
        | OutOfFuel => OutOfFuel
        end
      else loopNames recur dir segments more
  end.

(** One directory entered by the search: by consuming a route segment, or
    as a grouping directory. *)
Inductive hop : Type :=
| Direct (segment : string)
| Group (name : string).

Definition hopName (h : hop) : string :=
  match h with
  | Direct segment => segment
  | Group name => name
  end.

Definition isGroupHop (h : hop) : bool :=
  match h with
  | Direct _ => false
  | Group _ => true
  end.

(** The directory reached from [dir] by entering the hops one by one. *)
Definition follow (dir : string) (hops : list hop) : string :=
  fold_left (fun dir h => Path.join [dir; hopName h]) hops dir.

(** The route segments the hops account for. *)
Definition consumed (hops : list hop) : list string :=
  flat_map (fun h => match h with
                     | Direct segment => [segment]
                     | Group _ => []
                     end) hops.

(** The directories the direct descent from [dir] walks through, one per
    segment. *)
Fixpoint directDirs (dir : string) (segments : list string) : list string :=
  match segments with
  | [] => []
  | segment :: rest =>
      let next := Path.join [dir; segment] in
      next :: directDirs next rest
  end.

(** The directory [resolveRouteToFile] builds its candidates in. *)
Definition routeDirOf (route projectPath : string) (config : ResolvedConfig)
  : string :=
  let appDirPath := Path.join [projectPath; appDir config] in
  let escaped := Resolver.escapedSegments (Resolver.parseRouteSegments route) in
  if (0 <? length escaped)%nat then Path.join (appDirPath :: escaped) else appDirPath.

(** [path] is the definition file reached from [dir] by hops that consume
    exactly [segments]. *)
Definition reaches (sys : System) (config : ResolvedConfig) (dir : string)
    (segments : list string) (path : string) : Prop :=
  exists hops ext,
    (ext = "ts" \/ ext = "tsx") /\
    path = Spec.definitionFile config (follow dir hops) ext /\
    consumed hops = segments /\
    Forall (fun h => isGroupHop h = true ->
                     Resolver.isRouteGroup (hopName h) = true) hops /\
    fileExists sys path = true.

(** The grouping directories are told apart by name: the path is the
    definition file under the app directory followed by [dirs], and the
    directories whose name is not a grouping name are exactly [segments]. *)
Definition decomposesByName (config : ResolvedConfig) (appDirPath path : string)
    (segments : list string) : Prop :=
  exists dirs ext,
    (ext = "ts" \/ ext = "tsx") /\
    path = Spec.definitionFile config (Path.descend appDirPath dirs) ext /\
    filter (fun name => negb (Resolver.isRouteGroup name)) dirs = segments.

(** Every path the grouping search returns for [route] reads that way. *)
Definition segmentsAreUngroupedDirectories (sys : System)
    (route projectPath : string) (config : ResolvedConfig) : Prop :=
  forall fuel path,
    Resolver.findRouteTypeWithGroups fuel sys route projectPath config
    = Normal (Some path) ->
    decomposesByName config (Path.join [projectPath; appDir config]) path
      (Resolver.escapedSegments (Resolver.parseRouteSegments route)).

(** The [filePath] of the direct resolution is the same whatever the file
    system holds. *)
Definition filePathIgnoresFileSystem (route projectPath : string)
    (config : ResolvedConfig) : Prop :=
  forall sys sys',
    option_map filePath (Resolver.resolveRouteToFile sys route projectPath config)
    = option_map filePath (Resolver.resolveRouteToFile sys' route projectPath config).

(** [dir] is an ancestor directory of [file]: a path that followed by a
    slash starts the path of [file], the root for an absolute [file], or
    the current directory for a relative one. *)
Definition isAncestorOf (dir file : string) : bool :=
  Js.truthy dir &&
  (Js.startsWith (dir ++ "/") file
   || (String.eqb dir "/" && Js.startsWith "/" file)
   || (String.eqb dir "." && negb (Js.startsWith "/" file))).

(** The ancestor directories of every existing file are reported as
    existing. *)
Definition ancestorsExist (sys : System) : Prop :=
  forall file dir,
    fileExists sys file = true ->
    isAncestorOf dir file = true ->
    directoryExists sys dir = true.

(** On such a file system, a direct resolution that finds an existing file
    is also what the grouping search returns. *)
Definition searchRefinesDirectResolution (sys : System)
    (route projectPath : string) (config : ResolvedConfig) : Prop :=
  ancestorsExist sys ->
  forall path,
    Resolver.resolveRouteToFile sys route projectPath config
    = Some {| filePath := path; exists_ := true |} ->
    exists fuel,
      Resolver.findRouteTypeWithGroups fuel sys route projectPath config
      = Normal (Some path).

(** The literal is the value that [parent] binds to a property called
    [route]: as the initialiser of [route: value], or as the value of a
    shorthand binding named [route]. *)
Definition boundToRoute (parent literal : Node) : Prop :=
  (exists range name,
     parent = PropertyAssignment range (IdentifierNode name) literal /\
     idText name = "route")
  \/ (exists range name,
        parent = ShorthandPropertyAssignment range name (Some literal) /\
        idText name = "route").

(** The name of the property a binding node binds, when it has one that is
    written as an identifier or a string. *)
Definition propertyNameOf (parent : Node) : option string :=
  match parent with
  | PropertyAssignment _ (IdentifierNode name) _ => Some (idText name)
  | PropertyAssignment _ (StringLiteral _ text) _ => Some text
  | ShorthandPropertyAssignment _ name _ => Some (idText name)
  | _ => None
  end.

(* ================================================================== *)
(** ** Notions used in the proofs *)
(* ================================================================== *)

(** A match of [%5F] cannot straddle the seam before a character that is
    neither [5] nor [F]. *)
Definition seam (s : string) : bool :=
  match s with
  | EmptyString => true
  | String c _ => negb (Ascii.eqb c "5") && negb (Ascii.eqb c "F")
  end.

(** What a segment that is a name or [.] adds to the components
    [path.join] keeps. *)
Definition keptOf (segment : string) : list string :=
  if String.eqb segment "." then [] else [segment].

(** A decoded segment that [path.join] keeps or drops without popping:
    non-empty, without a slash, and not [..]. *)
Definition staysBelow (segment : string) : bool :=
  Js.truthy segment && Js.sepFree Path.isSlash segment
  && negb (String.eqb segment "..").

(** All the strings that start [s], the shortest first. *)
Fixpoint prefixes (s : string) : list string :=
  EmptyString ::
  match s with
  | EmptyString => []
  | String c rest => map (String c) (prefixes rest)
  end.

(** [g] agrees with [f] wherever [f] has fuel enough to answer. *)
Definition extends (f g : string -> list string -> completion (option string))
  : Prop :=
  forall dir segments, f dir segments = OutOfFuel \/ f dir segments = g dir segments.

(** [f] answers or runs out of fuel, but lets no exception out. *)
Definition neverThrows (f : string -> list string -> completion (option string))
  : Prop :=
  forall dir segments, f dir segments <> Throws.

(** [find] answers with the node it was given, or with a child of the
    nearest parent in the chain it returns. *)
Definition childOfParent (token : Node) (chain : list Node) : Prop :=
  exists parent above, chain = parent :: above /\ In token (childrenOf parent).

(* ================================================================== *)
(** ** Further notions: segments, listings, tokens and definitions *)
(* ================================================================== *)

(** The pieces of a route that count: the non-empty ones between slashes. *)
Definition pieces (s : string) : list string :=
  filter Js.truthy (Js.splitOn Path.isSlash s).

(** A listing entry that names a grouping directory. *)
Definition namesGroup (entry : string) : bool :=
  match Resolver.dirNameOf entry with
  | Some dirName => Resolver.isRouteGroup dirName
  | None => false
  end.

(** [sys] with every listing cut down to the entries that name a grouping
    directory. *)
Definition withGroupEntriesOnly (sys : System) : System :=
  {| fileExists := fileExists sys;
     directoryExists := directoryExists sys;
     readDirectory := fun dir =>
       match readDirectory sys dir with
       | Returned entries => Returned (filter namesGroup entries)
       | Raised => Raised
       end |}.

(** No listing of [sys] reports a grouping directory. *)
Definition noGroupListed (sys : System) : Prop :=
  forall dir,
    forallb (fun name => negb (Resolver.isRouteGroup name)) (Spec.listedNames sys dir)
    = true.

(** A path component that can be extended below a directory: non-empty and
    without a slash. *)
Definition isComponent (s : string) : bool :=
  Js.truthy s && Js.sepFree Path.isSlash s.

(** The directory [dir] names, whether or not it is written with a trailing
    slash: [path.join(dir, ".")]. *)
Definition directoryOf (dir : string) : string := Path.join [dir; "."].

(** The child at which [forEachChild(node, find)] stops: the first child
    that contains the position. *)
Definition firstChildAt (position : Z) (node : Node) : option Node :=
  List.find (Detector.contains position) (childrenOf node).

(** [chain], nearest parent first, leads down to [token] through the first
    child containing the position at every level. *)
Fixpoint descendsTo (position : Z) (token : Node) (chain : list Node) : Prop :=
  match chain with
  | [] => True
  | parent :: above =>
      firstChildAt position parent = Some token /\ descendsTo position parent above
  end.

(** The range of [inner] lies inside the range of [outer]. *)
Definition within (inner outer : Node) : bool :=
  (getStart outer <=? getStart inner)%Z && (getEnd inner <=? getEnd outer)%Z.

(** The ranges of two nodes do not overlap. *)
Definition apart (a b : Node) : bool :=
  (getEnd a <=? getStart b)%Z || (getEnd b <=? getStart a)%Z.

Fixpoint pairwiseApart (nodes : list Node) : bool :=
  match nodes with
  | [] => true
  | node :: more => forallb (apart node) more && pairwiseApart more
  end.

(** The children of [node] lie inside its range and do not overlap. *)
Definition tidy (node : Node) : bool :=
  forallb (fun child => within child node) (childrenOf node)
  && pairwiseApart (childrenOf node).

(** Every node of the tree is tidy, as in a tree that a parser built. *)
Fixpoint tidyTree (node : Node) : bool :=
  tidy node &&
  match node with
  | StringLiteral _ _ => true
  | IdentifierNode _ => true
  | PropertyAssignment _ name initializer => tidyTree name && tidyTree initializer
  | ShorthandPropertyAssignment _ _ (Some value) => tidyTree value
  | ShorthandPropertyAssignment _ _ None => true
  | CallExpression _ expression arguments =>
      tidyTree expression && forallb tidyTree arguments
  | PropertyAccessExpression _ expression _ => tidyTree expression
  | OtherNode _ children => forallb tidyTree children
  end.

(** A declaration that names [Route]. *)
Definition namesRoute (declaration : Plugin.BindingName) : bool :=
  match declaration with
  | Plugin.BindingIdentifier id => String.eqb (idText id) "Route"
  | Plugin.BindingPattern => false
  end.

(** A top-level statement that exports a variable named [Route]. *)
Definition exportsRoute (node : Plugin.Statement) : bool :=
  match node with
  | Plugin.VariableStatement modifiers declarations =>
      Plugin.hasExport modifiers && existsb namesRoute declarations
  | Plugin.OtherStatement => false
  end.

(** The definition the plugin answers with for the file [target]. *)
Definition routeDefinitionAt (program : Plugin.Program) (routeInfo : RouteStringInfo)
    (target : string) : Plugin.DefinitionInfoAndBoundSpan :=
  {| Plugin.definitions :=
       [ {| Plugin.fileName := target;
            Plugin.textSpan :=
              {| spanStart := Plugin.findRouteExportPosition program target;
                 spanLength := 0 |};
            Plugin.kind := Plugin.constElement;
            Plugin.name := "Route";
            Plugin.containerName := "";
            Plugin.containerKind := Plugin.moduleElement |} ];
     Plugin.boundSpan := span routeInfo |}.

(** The answer of the original language service, as a completion. *)
Definition originalAnswer (info : Plugin.PluginCreateInfo) (fileName : string)
    (position : Z) : completion (option Plugin.DefinitionInfoAndBoundSpan) :=
  match Plugin.getDefinitionAndBoundSpan (Plugin.languageService info)
          fileName position with
  | Returned result => Normal result
  | Raised => Throws
  end.

(** The route string, if any, that the detector finds at a position of a
    file of the program. *)
Definition routeStringAt (info : Plugin.PluginCreateInfo) (fileName : string)
    (position : Z) : option (Plugin.Program * RouteStringInfo) :=
  match Plugin.getProgram (Plugin.languageService info) with
  | Some program =>
      match Plugin.getSourceFile program fileName with
      | Some sourceFile =>
          match Detector.detectRouteString sourceFile position with
          | Some routeInfo => Some (program, routeInfo)
          | None => None
          end
      | None => None
      end
  | None => None
  end.

(** Below no directory of [sys] is there a subdirectory named [head], and
    every listing starts with a grouping directory: a tree of grouping
    directories without end. *)
Definition endlessGroups (sys : System) (head : string) : Prop :=
  (forall dir, directoryExists sys (Path.join [dir; head]) = false)
  /\ (forall dir, exists entry more name,
        readDirectory sys dir = Returned (entry :: more)
        /\ Resolver.dirNameOf entry = Some name
        /\ Resolver.isRouteGroup name = true).

(** [searchDir] on an engine that allows [limit] nested calls of it: the
    call that would nest deeper raises (the engine's [RangeError]), and the
    error takes the way of any other exception through the body. *)
Fixpoint searchDirOnStack (limit : nat) (typescript : System) (currentDir : string)
    (remainingSegments : list string) (config : ResolvedConfig)
  : completion (option string) :=
  match limit with
  | O => Throws
  | S limit' =>
      Resolver.searchBody typescript config
        (fun dir segments => searchDirOnStack limit' typescript dir segments config)
        currentDir remainingSegments
  end.

(* ================================================================== *)
(** ** Scenarios *)
(* ================================================================== *)

Module Scenario.

Definition among (paths : list string) (path : string) : bool :=
  existsb (String.eqb path) paths.

(** resolver.test.ts, "finds route inside route group". *)
Definition authLogin : System :=
  {| fileExists := among ["/project/src/app/(auth)/login/routeType.ts"];
     directoryExists := fun path => negb (String.eqb path "/project/src/app/login");
     readDirectory := fun _ => Returned ["(auth)/"] |}.

(** resolver.test.ts, "returns null when route not found". *)
Definition nothingExists : System :=
  {| fileExists := fun _ => false;
     directoryExists := fun _ => false;
     readDirectory := fun _ => Returned [] |}.

(** resolver.test.ts, "finds .tsx file as fallback". *)
Definition onlyTsx : System :=
  {| fileExists := among ["/project/src/app/users/routeType.tsx"];
     directoryExists := among ["/"; "/project"; "/project/src"; "/project/src/app";
                                "/project/src/app/users"];
     readDirectory := fun _ => Returned [] |}.

(** A project whose grouping directory [(a)] is named in the route. *)
Definition groupInRoute : System :=
  {| fileExists := among ["/project/src/app/(a)/x/routeType.ts"];
     directoryExists := among ["/project/src/app"; "/project/src/app/(a)";
                                "/project/src/app/(a)/x"];
     readDirectory := fun dir =>
       if String.eqb dir "/project/src/app" then Returned ["(a)/"] else Returned [] |}.

(** A project whose only file is the root definition file
    [src/app/routeType.ts]; there is no directory [src/app/a]. *)
Definition rootOnly : System :=
  {| fileExists := among ["/project/src/app/routeType.ts"];
     directoryExists := among ["/"; "/project"; "/project/src"; "/project/src/app"];
     readDirectory := fun _ => Returned [] |}.

(** Two grouping directories, the first of which cannot be listed. *)
Definition unreadableGroup : System :=
  {| fileExists := among ["/project/src/app/(shop)/cart/routeType.ts"];
     directoryExists := among ["/project/src/app"; "/project/src/app/(auth)";
                                "/project/src/app/(shop)";
                                "/project/src/app/(shop)/cart"];
     readDirectory := fun dir =>
       if String.eqb dir "/project/src/app" then Returned ["(auth)/"; "(shop)/"]
       else if String.eqb dir "/project/src/app/(auth)" then Raised
       else Returned [] |}.

Definition unreadableGroupRank (dir : string) : nat :=
  if String.eqb dir "/project/src/app" then 1 else 0.

(** A directory spelt with a lower-case escape. *)
Definition lowercaseEscape : System :=
  {| fileExists := among ["/project/src/app/%5finternal/routeType.ts"];
     directoryExists := among ["/project/src/app"; "/project/src/app/%5finternal"];
     readDirectory := fun _ => Returned [] |}.

End Scenario.

Module Example.
(** The double-quote character. *)
Definition quote : ascii := "034"%char.

Definition range (from to : Z) : TextRange := {| rangeStart := from; rangeEnd := to |}.
Definition ident (from to : Z) (text : string) : Identifier :=
  {| idRange := range from to; idText := text |}.

(** The source unit [$path({ route: "/users/[id]" })] of detector.test.ts,
    with the literal at offsets 15 to 28. *)
Definition pathCallText : string :=
  "$path({ route: " ++ String quote ("/users/[id]" ++ String quote " })").

Definition pathCallLiteral : Node := StringLiteral (range 15 28) "/users/[id]".

Definition pathCallFile : SourceFile :=
  {| sourceText := pathCallText;
     sourceRoot :=
       OtherNode (range 0 31)
         [OtherNode (range 0 31)
            [CallExpression (range 0 31) (IdentifierNode (ident 0 5 "$path"))
               [OtherNode (range 6 30)
                  [PropertyAssignment (range 8 28)
                     (IdentifierNode (ident 8 13 "route")) pathCallLiteral]]]] |}.

(** [$path({ route: "/users", name: "/other" })]: a second property whose
    value looks like a route. *)
Definition otherPropertyFile : SourceFile :=
  {| sourceText :=
       "$path({ route: " ++ String quote ("/users" ++ String quote (", name: "
         ++ String quote ("/other" ++ String quote " })")));
     sourceRoot :=
       OtherNode (range 0 42)
         [OtherNode (range 0 42)
            [CallExpression (range 0 42) (IdentifierNode (ident 0 5 "$path"))
               [OtherNode (range 6 41)
                  [PropertyAssignment (range 8 23)
                     (IdentifierNode (ident 8 13 "route"))
                     (StringLiteral (range 15 23) "/users");
                   PropertyAssignment (range 25 39)
                     (IdentifierNode (ident 25 29 "name"))
                     (StringLiteral (range 31 39) "/other")]]]] |}.
End Example.

(** The fixture basic-app with a source file holding the [$path] call of
    detector.test.ts, and a tree of grouping directories without end. *)
Module Fixture.

(** The fixture basic-app: [src/app/users/[id]/routeType.ts] under the
    project directory. *)
Definition basicApp : System :=
  {| fileExists := Scenario.among ["/project/src/app/users/[id]/routeType.ts"];
     directoryExists := Scenario.among ["/project/src"; "/project/src/app";
                                        "/project/src/app/users";
                                        "/project/src/app/users/[id]"];
     readDirectory := fun _ => Returned [] |}.

(** The top-level statements of the fixture's [routeType.ts]: an import,
    [export const Route = ...] with the name at offset 39, and a type
    alias. *)
Definition routeTypeStatements : list Plugin.Statement :=
  [ Plugin.OtherStatement;
    Plugin.VariableStatement (Some [Plugin.ExportKeyword])
      [Plugin.BindingIdentifier (Example.ident 39 44 "Route")];
    Plugin.OtherStatement ].

Definition program : Plugin.Program :=
  {| Plugin.getSourceFile := fun fileName =>
       if String.eqb fileName "/project/src/example.ts"
       then Some Example.pathCallFile else None;
     Plugin.getStatements := fun fileName =>
       if String.eqb fileName "/project/src/app/users/[id]/routeType.ts"
       then Some routeTypeStatements else None |}.

(** A host whose own service finds no definition anywhere. *)
Definition info (pluginConfig : option PluginConfig.t) : Plugin.PluginCreateInfo :=
  {| Plugin.config := pluginConfig;
     Plugin.getCurrentDirectory := "/project";
     Plugin.languageService :=
       {| Plugin.getProgram := Some program;
          Plugin.getDefinitionAndBoundSpan := fun _ _ => Returned None |} |}.

(** Every directory lists a grouping directory [(loop)], as under a link
    that leads back to its parent.  The search never asks whether a
    grouping directory exists. *)
Definition selfListing : System :=
  {| fileExists := fun _ => false;
     directoryExists := fun _ => false;
     readDirectory := fun _ => Returned ["(loop)/"] |}.

(** A project with a directory spelt with an underscore and, inside it, one
    spelt with a lower-case escape. *)
Definition mixedEscapes : System :=
  {| fileExists := Scenario.among ["/project/src/app/_a/%5fb/routeType.ts"];
     directoryExists := Scenario.among ["/project/src/app"; "/project/src/app/_a";
                                        "/project/src/app/_a/%5fb"];
     readDirectory := fun _ => Returned [] |}.

End Fixture.

(* ================================================================== *)
(** ** Facts about the string helpers *)
(* ================================================================== *)

Module JsFacts.
Import Js.

Lemma truthy_true (s : string) : truthy s = true <-> s <> "".
Proof. destruct s; simpl; split; intros; congruence. Qed.

Lemma truthy_false (s : string) : truthy s = false <-> s = "".
Proof. destruct s; simpl; split; intros; congruence. Qed.

Lemma append_empty_r (s : string) : s ++ "" = s.
Proof. induction s; simpl; congruence. Qed.

Lemma append_assoc (a b c : string) : (a ++ b) ++ c = a ++ b ++ c.
Proof. induction a; simpl; congruence. Qed.

Lemma truthy_append_l (a b : string) : truthy a = true -> truthy (a ++ b) = true.
Proof. destruct a; simpl; congruence. Qed.

Lemma truthy_append_r (a b : string) : truthy b = true -> truthy (a ++ b) = true.
Proof. destruct a; simpl; auto. Qed.

Lemma splitOn_not_nil isSep s : splitOn isSep s <> [].
Proof.
  destruct s as [|c rest]; simpl; [discriminate|].
  destruct (isSep c); [discriminate|].
  destruct (splitOn isSep rest); discriminate.
Qed.

Lemma splitOn_cons_sep isSep c rest :
  isSep c = true -> splitOn isSep (String c rest) = "" :: splitOn isSep rest.
Proof. intros H; simpl; now rewrite H. Qed.

Lemma splitOn_sepFree isSep s : sepFree isSep s = true -> splitOn isSep s = [s].
Proof.
  induction s as [|c rest IH]; simpl; [reflexivity|].
  intros H; apply andb_true_iff in H as [Hc Hr].
  apply negb_true_iff in Hc; rewrite Hc, (IH Hr); reflexivity.
Qed.

Lemma splitOn_pieces_sepFree isSep s :
  Forall (fun piece => sepFree isSep piece = true) (splitOn isSep s).
Proof.
  induction s as [|c rest IH]; simpl.
  - repeat constructor.
  - destruct (isSep c) eqn:Hc.
    + constructor; [reflexivity | exact IH].
    + destruct (splitOn isSep rest) as [|piece pieces].
      * repeat constructor; simpl; now rewrite Hc.
      * inversion IH; subst; constructor; [simpl; now rewrite Hc | assumption].
Qed.

(** Splitting distributes over a separator in the middle. *)
Lemma splitOn_app isSep a c b :
  isSep c = true ->
  splitOn isSep (a ++ String c b) = (splitOn isSep a ++ splitOn isSep b)%list.
Proof.
  intros Hc; induction a as [|d a IH]; simpl.
  - now rewrite Hc.
  - destruct (isSep d); [now rewrite IH|].
    rewrite IH.
    destruct (splitOn isSep a) as [|piece pieces] eqn:E; [|reflexivity].
    now apply splitOn_not_nil in E.
Qed.

Lemma splitOn_joinWith isSep c pieces :
  isSep c = true -> pieces <> [] ->
  Forall (fun piece => sepFree isSep piece = true) pieces ->
  splitOn isSep (joinWith (String c "") pieces) = pieces.
Proof.
  intros Hc; induction pieces as [|p rest IH]; [congruence|].
  intros _ Hall; inversion Hall as [|? ? Hp Hrest]; subst.
  destruct rest as [|q rest'].
  - simpl; now apply splitOn_sepFree.
  - change (joinWith (String c "") (p :: q :: rest'))
      with (p ++ String c (joinWith (String c "") (q :: rest'))).
    rewrite splitOn_app by assumption.
    rewrite splitOn_sepFree by assumption.
    rewrite IH by (assumption || discriminate); reflexivity.
Qed.

Lemma lastIs_append c a d b : lastIs c (a ++ String d b) = lastIs c (String d b).
Proof.
  induction a as [|e a IH]; [reflexivity|].
  change (String e a ++ String d b) with (String e (a ++ String d b)).
  destruct a; simpl in *; exact IH.
Qed.

Lemma joinWith_truthy sep pieces :
  pieces <> [] -> Forall (fun p => truthy p = true) pieces ->
  truthy (joinWith sep pieces) = true.
Proof.
  destruct pieces as [|p rest]; [congruence|]; intros _ H.
  inversion H; subst. destruct rest; simpl; auto using truthy_append_l.
Qed.

Lemma startsWith_app_l p q s :
  startsWith (p ++ q) s = true -> startsWith p s = true.
Proof.
  revert s. induction p as [|a p IH]; intros s; [reflexivity|].
  destruct s as [|b s]; [discriminate|]. cbn [append startsWith].
  intros H. apply andb_true_iff in H as [Hab H]. rewrite Hab. now apply IH.
Qed.

Lemma startsWith_prefixes p s : startsWith p s = true -> In p (prefixes s).
Proof.
  revert s. induction p as [|a p IH]; intros s; [destruct s; now left|].
  destruct s as [|b s]; [discriminate|]. cbn [startsWith prefixes].
  intros H. apply andb_true_iff in H as [Hab H]. apply Ascii.eqb_eq in Hab. subst b.
  right. apply in_map. now apply IH.
Qed.

Lemma joinWith_snoc sep pieces s :
  pieces <> [] ->
  joinWith sep (pieces ++ [s]) = joinWith sep pieces ++ sep ++ s.
Proof.
  induction pieces as [|p rest IH]; [congruence|]; intros _.
  destruct rest as [|q rest'].
  - reflexivity.
  - change (joinWith sep ((p :: q :: rest') ++ [s]))
      with (p ++ sep ++ joinWith sep ((q :: rest') ++ [s])).
    rewrite IH by discriminate.
    change (joinWith sep (p :: q :: rest')) with (p ++ sep ++ joinWith sep (q :: rest')).
    now rewrite !append_assoc.
Qed.

End JsFacts.

(* ================================================================== *)
(** ** Facts about [path.join] *)
(* ================================================================== *)

Module PathFacts.
Import Js Path JsFacts.

Lemma isName_inv comp :
  isName comp = true ->
  comp <> "" /\ comp <> "." /\ comp <> ".." /\ sepFree isSlash comp = true.
Proof.
  unfold isName; intros H.
  repeat (apply andb_true_iff in H as [H ?]).
  rewrite !negb_true_iff in *.
  repeat split; try assumption; intros ->; discriminate.
Qed.

Lemma step_name allow kept comp :
  isName comp = true -> step allow kept comp = comp :: kept.
Proof.
  intros H; apply isName_inv in H as (H1 & H2 & H3 & _).
  unfold step.
  apply String.eqb_neq in H1, H2, H3. now rewrite H1, H2, H3.
Qed.

Lemma dots_resolved kept :
  Forall (eq "..") kept -> resolved true kept.
Proof.
  destruct 1 as [|c kept <- Hrest]; [constructor|].
  now apply resolved_up.
Qed.

Lemma resolved_tail allow top below :
  resolved allow (top :: below) -> resolved allow below.
Proof.
  inversion 1 as [|? ? _ Hbelow|? Ha Hd]; subst; [assumption|].
  now apply dots_resolved.
Qed.

Lemma step_resolved allow kept comp :
  sepFree isSlash comp = true ->
  resolved allow kept -> resolved allow (step allow kept comp).
Proof.
  intros Hfree Hres; unfold step.
  destruct (String.eqb comp "") eqn:E1; [assumption|].
  destruct (String.eqb comp ".") eqn:E2; [assumption|]; simpl.
  destruct (String.eqb comp "..") eqn:E3.
  - destruct kept as [|top below].
    + destruct allow eqn:Ha; [|constructor].
      now apply resolved_up.
    + destruct (String.eqb top "..") eqn:E4.
      * apply String.eqb_eq in E4; subst top.
        destruct allow eqn:Ha; [|assumption].
        apply resolved_up; [reflexivity|].
        inversion Hres as [|? ? Hn|? ? Hd]; subst; [discriminate Hn|].
        now constructor.
      * eapply resolved_tail; eassumption.
  - apply resolved_name; [|assumption].
    unfold isName; now rewrite E1, E2, E3, Hfree.
Qed.

Lemma fold_step_resolved allow comps kept :
  Forall (fun c => sepFree isSlash c = true) comps ->
  resolved allow kept -> resolved allow (fold_left (step allow) comps kept).
Proof.
  intros Hall; revert kept.
  induction Hall as [|c comps Hc _ IH]; intros kept Hres; simpl; [assumption|].
  apply IH; now apply step_resolved.
Qed.

Lemma resolved_components allow kept :
  resolved allow kept ->
  Forall (fun c => truthy c = true /\ sepFree isSlash c = true) kept.
Proof.
  induction 1 as [|c kept Hn _ IH|kept _ Hd].
  - constructor.
  - constructor; [|assumption].
    apply isName_inv in Hn as (H1 & _ & _ & H4); split; [now apply truthy_true | assumption].
  - constructor; [now split|].
    eapply Forall_impl; [|exact Hd]. intros ? <-; now split.
Qed.

Lemma step_up_dots kept :
  Forall (eq "..") kept -> step true kept ".." = ".." :: kept.
Proof. destruct 1 as [|c kept <- _]; reflexivity. Qed.

Lemma replay_dots kept :
  Forall (eq "..") kept -> fold_left (step true) (rev kept) [] = kept.
Proof.
  induction 1 as [|c kept <- Hd IH]; simpl; [reflexivity|].
  rewrite fold_left_app; simpl. rewrite IH. now apply step_up_dots.
Qed.

(** Replaying kept components reproduces them. *)
Lemma replay_resolved allow kept :
  resolved allow kept -> fold_left (step allow) (rev kept) [] = kept.
Proof.
  induction 1 as [|c kept Hn _ IH|kept Ha Hd]; simpl.
  - reflexivity.
  - rewrite fold_left_app; simpl. rewrite IH. now apply step_name.
  - subst allow. rewrite fold_left_app; simpl.
    rewrite replay_dots by assumption. now apply step_up_dots.
Qed.

Lemma fold_step_skip allow comps kept :
  fold_left (step allow) ("" :: comps) kept = fold_left (step allow) comps kept.
Proof. reflexivity. Qed.

Lemma fold_step_skip_end allow comps kept :
  fold_left (step allow) (comps ++ [""]) kept = fold_left (step allow) comps kept.
Proof. rewrite fold_left_app; reflexivity. Qed.

Lemma normalizeString_resolved path allow :
  resolved allow (rev (normalizeString path allow)).
Proof.
  unfold normalizeString; rewrite rev_involutive.
  apply fold_step_resolved; [apply splitOn_pieces_sepFree | constructor].
Qed.

Lemma joinWith_slash_first comps :
  Forall (fun c => truthy c = true /\ sepFree isSlash c = true) comps ->
  startsWith "/" (joinWith "/" comps) = false.
Proof.
  destruct 1 as [|c comps [Ht Hf] _]; [reflexivity|].
  destruct c as [|a c]; [discriminate|].
  simpl in Hf. apply andb_true_iff in Hf as [Ha _].
  unfold isSlash in Ha. apply negb_true_iff in Ha.
  rewrite Ascii.eqb_sym in Ha.
  destruct comps; cbn [joinWith append startsWith]; now rewrite Ha.
Qed.

Lemma normalize_assemble path :
  path <> "" ->
  normalize path =
  assemble (startsWith "/" path) (lastIs "/"%char path)
    (normalizeString path (negb (startsWith "/" path))).
Proof.
  intros H; unfold normalize.
  apply String.eqb_neq in H; now rewrite H.
Qed.

Lemma eqb_empty_truthy s : String.eqb s "" = negb (truthy s).
Proof. destruct s; reflexivity. Qed.

Lemma assemble_truthy isAbsolute trailingSeparator comps :
  truthy (assemble isAbsolute trailingSeparator comps) = true.
Proof.
  unfold assemble. rewrite eqb_empty_truthy.
  destruct (truthy (joinWith "/" comps)) eqn:E; simpl.
  - destruct isAbsolute, trailingSeparator; simpl; auto using truthy_append_l.
  - destruct isAbsolute, trailingSeparator; reflexivity.
Qed.

Lemma normalize_truthy path : truthy (normalize path) = true.
Proof.
  destruct (String.eqb path "") eqn:E.
  - unfold normalize; now rewrite E.
  - apply String.eqb_neq in E. rewrite normalize_assemble by assumption.
    apply assemble_truthy.
Qed.

Lemma join_truthy args : truthy (join args) = true.
Proof.
  unfold join. destruct (filter truthy args); [reflexivity | apply normalize_truthy].
Qed.

Lemma startsWith_append p a b :
  truthy a = true -> startsWith (String p "") (a ++ b) = startsWith (String p "") a.
Proof. destruct a; [discriminate|]; intros _; simpl. now rewrite !andb_true_r. Qed.

Lemma normalize_startsWith path :
  path <> "" -> startsWith "/" (normalize path) = startsWith "/" path.
Proof.
  intros H; rewrite normalize_assemble by assumption.
  set (abs := startsWith "/" path).
  pose proof (resolved_components _ _ (normalizeString_resolved path (negb abs))) as Hc.
  apply Forall_rev in Hc; rewrite rev_involutive in Hc.
  pose proof (joinWith_slash_first _ Hc) as Hfirst.
  unfold assemble. rewrite eqb_empty_truthy.
  destruct (truthy (joinWith "/" (normalizeString path (negb abs)))) eqn:E;
    cbn [negb].
  - destruct abs; [reflexivity|].
    destruct (lastIs "/"%char path); [|assumption].
    now rewrite startsWith_append.
  - destruct abs; [reflexivity|]. now destruct (lastIs "/"%char path).
Qed.

Lemma assemble_components isAbsolute trailingSeparator allow kept :
  resolved allow kept ->
  fold_left (step allow)
    (splitOn isSlash (assemble isAbsolute trailingSeparator (rev kept))) [] = kept.
Proof.
  intros Hres.
  pose proof (replay_resolved _ _ Hres) as Hreplay.
  pose proof (resolved_components _ _ Hres) as Hc.
  apply Forall_rev in Hc.
  unfold assemble. rewrite eqb_empty_truthy.
  destruct (rev kept) as [|c comps] eqn:E.
  - apply (f_equal (@rev string)) in E; rewrite rev_involutive in E; simpl in E.
    subst kept. destruct isAbsolute, trailingSeparator; reflexivity.
  - rewrite joinWith_truthy;
      [| discriminate | eapply Forall_impl; [|exact Hc]; now intros ? [? _]].
    cbn [negb].
    assert (Hfree : Forall (fun c => sepFree isSlash c = true) (c :: comps))
      by (eapply Forall_impl; [|exact Hc]; now intros ? [_ ?]).
    assert (Hsplit : splitOn isSlash (joinWith "/" (c :: comps)) = c :: comps)
      by (apply splitOn_joinWith; [reflexivity | discriminate | assumption]).
    assert (Hsplit' : splitOn isSlash (joinWith "/" (c :: comps) ++ "/")
                      = ((c :: comps) ++ [""])%list)
      by (rewrite splitOn_app by reflexivity; now rewrite Hsplit).
    destruct isAbsolute, trailingSeparator;
      try (change ("/" ++ ?x) with (String "/"%char x);
           rewrite splitOn_cons_sep by reflexivity; rewrite fold_step_skip);
      rewrite ?Hsplit', ?Hsplit, ?fold_step_skip_end; exact Hreplay.
Qed.

Lemma normalize_components path :
  path <> "" ->
  let allow := negb (startsWith "/" path) in
  fold_left (step allow) (splitOn isSlash (normalize path)) [] =
  fold_left (step allow) (splitOn isSlash path) [].
Proof.
  intros H allow; rewrite normalize_assemble by assumption. fold allow.
  unfold normalizeString.
  apply assemble_components.
  apply fold_step_resolved; [apply splitOn_pieces_sepFree | constructor].
Qed.

(** Normalising a prefix first does not change the result of normalising
    the whole. *)
Lemma normalize_absorb path more :
  path <> "" ->
  normalize (normalize path ++ "/" ++ more) = normalize (path ++ "/" ++ more).
Proof.
  intros H.
  assert (Ht : truthy path = true) by now apply truthy_true.
  pose proof (normalize_truthy path) as Hn.
  rewrite (normalize_assemble (normalize path ++ "/" ++ more))
    by (apply truthy_true; now apply truthy_append_l).
  rewrite (normalize_assemble (path ++ "/" ++ more))
    by (apply truthy_true; now apply truthy_append_l).
  rewrite !startsWith_append by assumption.
  rewrite normalize_startsWith by assumption.
  change ("/" ++ more) with (String "/"%char more).
  rewrite !lastIs_append.
  unfold normalizeString.
  rewrite !splitOn_app by reflexivity.
  rewrite !fold_left_app.
  now rewrite normalize_components.
Qed.

Lemma join_pair dir name :
  truthy dir = true -> truthy name = true ->
  join [dir; name] = normalize (dir ++ "/" ++ name).
Proof. intros Hd Hn; unfold join; simpl. now rewrite Hd, Hn. Qed.

(** Joining one more component onto an already joined path is the same as
    joining everything at once. *)
Lemma join_snoc first others name :
  truthy first = true -> truthy name = true ->
  join [join (first :: others); name] = join ((first :: others) ++ [name]).
Proof.
  intros Hf Hn.
  rewrite join_pair by (apply join_truthy || assumption).
  unfold join. rewrite filter_app. simpl filter. rewrite Hf, Hn.
  set (parts := first :: filter truthy others).
  assert (Hparts : Forall (fun p => truthy p = true) parts).
  { constructor; [assumption|]. apply Forall_forall; intros p Hp.
    now apply filter_In in Hp. }
  assert (Hj : joinWith "/" parts <> "")
    by (apply truthy_true, joinWith_truthy; [discriminate | assumption]).
  change ((first :: filter truthy others) ++ [name])%list with (parts ++ [name])%list.
  rewrite normalize_absorb by assumption.
  rewrite <- joinWith_snoc by discriminate.
  destruct (parts ++ [name])%list eqn:E; [|reflexivity].
  now apply app_eq_nil in E as [_ ?].
Qed.

Lemma descend_snoc dir segments segment :
  descend dir (segments ++ [segment]) = join [descend dir segments; segment].
Proof. unfold descend; now rewrite fold_left_app. Qed.

Lemma descend_join dir segments :
  truthy dir = true -> Forall (fun s => truthy s = true) segments ->
  segments <> [] -> descend dir segments = join (dir :: segments).
Proof.
  intros Hd. induction segments as [|segment segments IH] using rev_ind; [congruence|].
  intros Hall _. apply Forall_app in Hall as [Hall Hs].
  inversion Hs; subst.
  rewrite descend_snoc.
  destruct segments as [|s0 segments'].
  - reflexivity.
  - rewrite IH by (assumption || discriminate).
    now rewrite join_snoc.
Qed.

Lemma sepFree_append isSep a b :
  sepFree isSep (a ++ b) = sepFree isSep a && sepFree isSep b.
Proof.
  induction a as [|c a IH]; [reflexivity|]. cbn [append sepFree].
  now rewrite IH, andb_assoc.
Qed.

Lemma lastIs_sepFree c s :
  truthy s = true -> sepFree isSlash s = true -> lastIs "/"%char (String c s) = false.
Proof.
  revert c. induction s as [|d s IH]; intros c; [discriminate|].
  intros _ Hfree. cbn [sepFree] in Hfree. apply andb_true_iff in Hfree as [Hd Hfree].
  destruct s as [|e s].
  - cbn [lastIs]. unfold isSlash in Hd. apply negb_true_iff in Hd.
    now rewrite Ascii.eqb_sym.
  - change (lastIs "/"%char (String c (String d (String e s))))
      with (lastIs "/"%char (String d (String e s))).
    now apply IH.
Qed.

Lemma assemble_startsWith isAbsolute trailingSeparator comps :
  Forall (fun c => truthy c = true /\ sepFree isSlash c = true) comps ->
  startsWith "/" (assemble isAbsolute trailingSeparator comps) = isAbsolute.
Proof.
  intros Hc. pose proof (joinWith_slash_first _ Hc) as Hfirst.
  unfold assemble. rewrite eqb_empty_truthy.
  destruct (truthy (joinWith "/" comps)) eqn:E; cbn [negb].
  - destruct isAbsolute; [reflexivity|].
    destruct trailingSeparator; [|assumption].
    now rewrite startsWith_append.
  - destruct isAbsolute; [reflexivity|]. now destruct trailingSeparator.
Qed.

(** A segment that is a name, or the dot. *)
Lemma step_keptOf allow kept segment :
  truthy segment = true -> sepFree isSlash segment = true ->
  String.eqb segment ".." = false ->
  step allow kept segment = (rev (keptOf segment) ++ kept)%list.
Proof.
  intros Ht Hfree Hup. unfold step, keptOf.
  rewrite eqb_empty_truthy, Ht. cbn [negb orb].
  destruct (String.eqb segment "."); [reflexivity|]. now rewrite Hup.
Qed.

Lemma join_assemble_segment isAbsolute trailingSeparator comps segment :
  resolved (negb isAbsolute) (rev comps) ->
  truthy segment = true -> sepFree isSlash segment = true ->
  String.eqb segment ".." = false ->
  join [assemble isAbsolute trailingSeparator comps; segment]
  = assemble isAbsolute false (comps ++ keptOf segment).
Proof.
  intros Hres Ht Hfree Hup.
  pose proof (resolved_components _ _ Hres) as Hc.
  apply Forall_rev in Hc. rewrite rev_involutive in Hc.
  pose proof (assemble_truthy isAbsolute trailingSeparator comps) as Hdir.
  pose proof (assemble_startsWith isAbsolute trailingSeparator comps Hc) as Habs.
  assert (Hkept : fold_left (step (negb isAbsolute))
                    (splitOn isSlash (assemble isAbsolute trailingSeparator comps)) []
                  = rev comps).
  { pose proof (assemble_components isAbsolute trailingSeparator _ _ Hres) as H.
    now rewrite rev_involutive in H. }
  rewrite join_pair by assumption.
  rewrite normalize_assemble by (apply truthy_true; now apply truthy_append_l).
  rewrite !startsWith_append by assumption. rewrite !Habs.
  change ("/" ++ segment) with (String "/"%char segment).
  rewrite lastIs_append, lastIs_sepFree by assumption.
  f_equal. unfold normalizeString.
  rewrite splitOn_app by reflexivity. rewrite fold_left_app, Hkept.
  rewrite (splitOn_sepFree _ segment) by assumption. cbn [fold_left].
  rewrite step_keptOf by assumption.
  now rewrite rev_app_distr, !rev_involutive.
Qed.

Lemma staysBelow_inv segment :
  staysBelow segment = true ->
  truthy segment = true /\ sepFree isSlash segment = true /\
  String.eqb segment ".." = false.
Proof.
  unfold staysBelow. intros H.
  apply andb_true_iff in H as [H Hup]. apply andb_true_iff in H as [Ht Hfree].
  apply negb_true_iff in Hup. auto.
Qed.

Lemma join_assemble_staysBelow isAbsolute trailingSeparator comps segment :
  resolved (negb isAbsolute) (rev comps) -> staysBelow segment = true ->
  join [assemble isAbsolute trailingSeparator comps; segment]
  = assemble isAbsolute false (comps ++ keptOf segment).
Proof.
  intros Hres Hs. apply staysBelow_inv in Hs as (Ht & Hfree & Hup).
  now apply join_assemble_segment.
Qed.

Lemma resolved_keptOf allow comps segment :
  resolved allow (rev comps) -> staysBelow segment = true ->
  resolved allow (rev (comps ++ keptOf segment)).
Proof.
  intros Hres Hs. apply staysBelow_inv in Hs as (Ht & Hfree & Hup).
  unfold keptOf. destruct (String.eqb segment ".") eqn:Hdot.
  - now rewrite app_nil_r.
  - rewrite rev_app_distr. cbn [rev app]. apply resolved_name; [|assumption].
    unfold isName. rewrite eqb_empty_truthy, Ht, Hdot, Hup, Hfree. reflexivity.
Qed.

Lemma resolved_kept_all allow segments :
  forall comps,
    resolved allow (rev comps) -> forallb staysBelow segments = true ->
    resolved allow (rev (comps ++ flat_map keptOf segments)).
Proof.
  induction segments as [|segment rest IH]; intros comps Hres Hall.
  - cbn [flat_map]. now rewrite app_nil_r.
  - cbn [forallb] in Hall. apply andb_true_iff in Hall as [Hs Hall].
    cbn [flat_map]. rewrite app_assoc. apply IH; [|assumption].
    now apply resolved_keptOf.
Qed.

(** Descending through segments that stay below keeps the normal form of
    the directory. *)
Lemma descend_assemble isAbsolute segments :
  forall trailingSeparator comps,
    resolved (negb isAbsolute) (rev comps) ->
    forallb staysBelow segments = true -> segments <> [] ->
    descend (assemble isAbsolute trailingSeparator comps) segments
    = assemble isAbsolute false (comps ++ flat_map keptOf segments).
Proof.
  induction segments as [|segment rest IH]; intros tr comps Hres Hall Hne;
    [congruence|].
  cbn [forallb] in Hall. apply andb_true_iff in Hall as [Hs Hall].
  change (descend (assemble isAbsolute tr comps) (segment :: rest))
    with (descend (join [assemble isAbsolute tr comps; segment]) rest).
  rewrite join_assemble_staysBelow by assumption.
  cbn [flat_map]. rewrite app_assoc.
  destruct rest as [|next rest'].
  - cbn [flat_map]. now rewrite app_nil_r.
  - apply IH; [now apply resolved_keptOf | assumption | discriminate].
Qed.

(** Every result of [join] is in normal form. *)
Lemma join_normal_form args :
  exists isAbsolute trailingSeparator comps,
    join args = assemble isAbsolute trailingSeparator comps /\
    resolved (negb isAbsolute) (rev comps).
Proof.
  unfold join. destruct (filter truthy args) as [|part parts] eqn:E.
  - exists false, false, []. split; [reflexivity | constructor].
  - assert (Hne : joinWith "/" (part :: parts) <> "").
    { apply truthy_true, joinWith_truthy; [discriminate|].
      rewrite <- E. apply Forall_forall. intros p Hp. now apply filter_In in Hp. }
    rewrite normalize_assemble by assumption.
    eexists _, _, _. split; [reflexivity | apply normalizeString_resolved].
Qed.

Lemma assemble_joinWith isAbsolute comps :
  comps <> [] -> Forall (fun c => truthy c = true) comps ->
  assemble isAbsolute false comps
  = (if isAbsolute then "/" else "") ++ joinWith "/" comps.
Proof.
  intros Hne Hall. unfold assemble.
  rewrite eqb_empty_truthy, joinWith_truthy by assumption.
  now destruct isAbsolute.
Qed.

Lemma joinWith_app sep front back :
  front <> [] -> back <> [] ->
  joinWith sep (front ++ back) = joinWith sep front ++ sep ++ joinWith sep back.
Proof.
  induction front as [|a front IH]; [congruence|]. intros _ Hback.
  destruct front as [|a' front'].
  - destruct back as [|b back']; [congruence | reflexivity].
  - change (joinWith sep ((a :: a' :: front') ++ back))
      with (a ++ sep ++ joinWith sep ((a' :: front') ++ back)).
    rewrite IH by (discriminate || assumption).
    change (joinWith sep (a :: a' :: front'))
      with (a ++ sep ++ joinWith sep (a' :: front')).
    now rewrite !append_assoc.
Qed.

Lemma startsWith_self_app p s : startsWith p (p ++ s) = true.
Proof.
  induction p as [|c p IH]; [reflexivity|]. cbn [append startsWith].
  now rewrite Ascii.eqb_refl.
Qed.

(** In normal form, a directory is an ancestor of whatever lies below. *)
Lemma assemble_isAncestorOf isAbsolute front back :
  back <> [] ->
  Forall (fun c => truthy c = true /\ sepFree isSlash c = true) (front ++ back) ->
  isAncestorOf (assemble isAbsolute false front)
               (assemble isAbsolute false (front ++ back)) = true.
Proof.
  intros Hback Hall.
  assert (Htruthy : Forall (fun c => truthy c = true) (front ++ back))
    by (eapply Forall_impl; [|exact Hall]; now intros ? [? _]).
  assert (Hne : (front ++ back)%list <> [])
    by (intros E; apply app_eq_nil in E as [_ E]; contradiction).
  unfold isAncestorOf. rewrite assemble_truthy. cbn [andb].
  destruct front as [|c front'].
  - change ([] ++ back)%list with back in *.
    rewrite (assemble_joinWith isAbsolute back Hback Htruthy).
    pose proof (joinWith_slash_first _ Hall) as Hfirst.
    destruct isAbsolute.
    + apply orb_true_iff. left. apply orb_true_iff. right. reflexivity.
    + apply orb_true_iff. right. cbn [append]. now rewrite Hfirst.
  - apply orb_true_iff. left. apply orb_true_iff. left.
    pose proof (proj1 (proj1 (Forall_app _ _ _) Htruthy)) as Hfront.
    rewrite (assemble_joinWith isAbsolute (c :: front'))
      by (discriminate || assumption).
    rewrite (assemble_joinWith isAbsolute ((c :: front') ++ back) Hne Htruthy).
    rewrite joinWith_app by (discriminate || assumption).
    rewrite <- !append_assoc. apply startsWith_self_app.
Qed.

End PathFacts.

(* ================================================================== *)
(** ** Facts about the resolver *)
(* ================================================================== *)

Module ResolverFacts.
Import Js Path Resolver JsFacts PathFacts.

(** *** Segments *)

Lemma parseRouteSegments_truthy route :
  Forall (fun s => truthy s = true) (parseRouteSegments route).
Proof.
  unfold parseRouteSegments. destruct (String.eqb route "/"); [constructor|].
  apply Forall_forall; intros s Hs. now apply filter_In in Hs.
Qed.

Lemma replace_5F_step c1 c2 c3 rest :
  replace_5F (String c1 (String c2 (String c3 rest))) =
  if Ascii.eqb c1 "%" && Ascii.eqb c2 "5" && Ascii.eqb c3 "F"
  then String "_" (replace_5F rest)
  else String c1 (replace_5F (String c2 (String c3 rest))).
Proof. reflexivity. Qed.

Lemma replace_5F_truthy seg : truthy seg = true -> truthy (replace_5F seg) = true.
Proof.
  destruct seg as [|c1 [|c2 [|c3 rest]]]; try reflexivity; [discriminate|].
  intros _. rewrite replace_5F_step.
  now destruct (Ascii.eqb c1 "%" && Ascii.eqb c2 "5" && Ascii.eqb c3 "F").
Qed.

Lemma escapedSegments_truthy segments :
  Forall (fun s => truthy s = true) segments ->
  Forall (fun s => truthy s = true) (escapedSegments segments).
Proof.
  unfold escapedSegments; intros H. apply Forall_map.
  eapply Forall_impl; [|exact H]. intros; now apply replace_5F_truthy.
Qed.

Lemma replace_5F_append_bounded n a s :
  (String.length a <= n)%nat -> seam s = true ->
  replace_5F (a ++ s) = replace_5F a ++ replace_5F s.
Proof.
  revert a. induction n as [|n IH]; intros a Hlen Hseam.
  - destruct a; [reflexivity | simpl in Hlen; lia].
  - destruct a as [|c1 [|c2 [|c3 rest]]].
    + reflexivity.
    + (* one character before the seam *)
      destruct s as [|d1 [|d2 s']]; try reflexivity.
      cbn [append]. rewrite replace_5F_step.
      simpl in Hseam. apply andb_true_iff in Hseam as [H5 _].
      apply negb_true_iff in H5. rewrite H5, andb_false_r. reflexivity.
    + (* two characters before the seam *)
      assert (Hone : replace_5F (String c2 "" ++ s)
                     = replace_5F (String c2 "") ++ replace_5F s)
        by (apply IH; [simpl in *; lia | assumption]).
      destruct s as [|d1 s']; [reflexivity|].
      cbn [append] in *. rewrite replace_5F_step.
      simpl in Hseam. apply andb_true_iff in Hseam as [_ HF].
      apply negb_true_iff in HF. rewrite HF, andb_false_r.
      now rewrite Hone.
    + cbn [append]. rewrite !replace_5F_step.
      destruct (Ascii.eqb c1 "%" && Ascii.eqb c2 "5" && Ascii.eqb c3 "F").
      * cbn [append]. f_equal. apply IH; [simpl in *; lia | assumption].
      * cbn [append]. f_equal.
        apply (IH (String c2 (String c3 rest))); [simpl in *; lia | assumption].
Qed.

Lemma replace_5F_append a s :
  seam s = true -> replace_5F (a ++ s) = replace_5F a ++ replace_5F s.
Proof. now apply (replace_5F_append_bounded (String.length a)). Qed.

(** Every occurrence of [%5F] becomes an underscore. *)
Lemma replace_5F_occurrence a b :
  replace_5F (a ++ "%5F" ++ b) = replace_5F a ++ "_" ++ replace_5F b.
Proof. now rewrite replace_5F_append. Qed.

Lemma replace_5F_other c s :
  Ascii.eqb c "%" = false -> replace_5F (String c s) = String c (replace_5F s).
Proof.
  intros H. destruct s as [|c2 [|c3 rest]]; try reflexivity.
  rewrite replace_5F_step, H. reflexivity.
Qed.

(** A lower-case [%5f] is kept as it is. *)
Lemma replace_5F_lowercase a b :
  replace_5F (a ++ "%5f" ++ b) = replace_5F a ++ "%5f" ++ replace_5F b.
Proof.
  rewrite replace_5F_append by reflexivity. f_equal.
  change ("%5f" ++ b) with (String "%" (String "5" (String "f" b))).
  rewrite replace_5F_step. cbn [Ascii.eqb Bool.eqb andb].
  now rewrite !replace_5F_other by reflexivity.
Qed.

(** What [replace_5F] does at the front of a non-empty string. *)
Lemma replace_5F_head c t :
  (exists rest, String c t = "%5F" ++ rest /\
                replace_5F (String c t) = String "_" (replace_5F rest))
  \/ (startsWith "%5F" (String c t) = false /\
      replace_5F (String c t) = String c (replace_5F t)).
Proof.
  destruct t as [|c2 [|c3 rest]].
  - right; split; [|reflexivity]. cbn. now rewrite andb_false_r.
  - right; split; [|reflexivity]. cbn. now rewrite !andb_false_r.
  - rewrite replace_5F_step.
    cbn [startsWith]. rewrite andb_true_r.
    rewrite (Ascii.eqb_sym "%" c), (Ascii.eqb_sym "5" c2), (Ascii.eqb_sym "F" c3).
    rewrite andb_assoc.
    destruct (Ascii.eqb c "%" && Ascii.eqb c2 "5" && Ascii.eqb c3 "F") eqn:E.
    + left. exists rest. split; [|reflexivity].
      apply andb_true_iff in E as [E E3]. apply andb_true_iff in E as [E1 E2].
      apply Ascii.eqb_eq in E1, E2, E3. now subst.
    + right. now split.
Qed.

Lemma replace_5F_no_match_at_front seg : startsWith "%5F" (replace_5F seg) = false.
Proof.
  destruct seg as [|c1 t1]; [reflexivity|].
  destruct (replace_5F_head c1 t1) as [(rest & _ & ->)|[Hno ->]]; [reflexivity|].
  cbn [startsWith].
  destruct (Ascii.eqb "%" c1) eqn:E1; [cbn [andb]|reflexivity].
  destruct t1 as [|c2 t2]; [reflexivity|].
  destruct (replace_5F_head c2 t2) as [(rest & _ & ->)|[_ ->]]; [reflexivity|].
  cbn [startsWith].
  destruct (Ascii.eqb "5" c2) eqn:E2; [cbn [andb]|reflexivity].
  destruct t2 as [|c3 t3]; [reflexivity|].
  destruct (replace_5F_head c3 t3) as [(rest & _ & ->)|[_ ->]]; [reflexivity|].
  cbn [startsWith] in *. rewrite E1, E2 in Hno. cbn [andb] in Hno.
  rewrite andb_true_r in *. exact Hno.
Qed.

(** After decoding, no [%5F] is left. *)
Lemma replace_5F_complete_bounded n seg :
  (String.length seg <= n)%nat -> includes "%5F" (replace_5F seg) = false.
Proof.
  revert seg. induction n as [|n IH]; intros seg Hlen.
  - destruct seg; [reflexivity | simpl in Hlen; lia].
  - destruct seg as [|c t]; [reflexivity|].
    pose proof (replace_5F_no_match_at_front (String c t)) as Hfront.
    destruct (replace_5F_head c t) as [(rest & Heq & Hrep)|[_ Hrep]];
      rewrite Hrep in *; cbn [includes]; rewrite Hfront; cbn [orb].
    + apply IH. rewrite Heq in Hlen. simpl in Hlen. lia.
    + apply IH. simpl in Hlen. lia.
Qed.

Lemma replace_5F_complete seg : includes "%5F" (replace_5F seg) = false.
Proof. now apply (replace_5F_complete_bounded (String.length seg)). Qed.

(** A segment without [%5F] is left untouched. *)
Lemma replace_5F_verbatim seg :
  includes "%5F" seg = false -> replace_5F seg = seg.
Proof.
  induction seg as [|c t IH]; [reflexivity|].
  cbn [includes]. intros H. apply orb_false_iff in H as [Hfront Hrest].
  destruct (replace_5F_head c t) as [(rest & Heq & _)|[_ ->]].
  - rewrite Heq in Hfront. discriminate Hfront.
  - now rewrite IH.
Qed.

(** *** The grouping pattern *)

Lemma closesGroup_inv s :
  closesGroup s = true ->
  exists interior, s = interior ++ ")" /\ includes ")" interior = false.
Proof.
  induction s as [|c rest IH]; [discriminate|]. cbn [closesGroup].
  destruct (Ascii.eqb c ")") eqn:E.
  - intros H. apply negb_true_iff, truthy_false in H. subst rest.
    apply Ascii.eqb_eq in E. subst c. now exists "".
  - intros H. destruct (IH H) as (interior & -> & Hno).
    exists (String c interior). split; [reflexivity|].
    cbn [includes startsWith]. rewrite Ascii.eqb_sym, E. exact Hno.
Qed.

Lemma closesGroup_intro interior :
  includes ")" interior = false -> closesGroup (interior ++ ")") = true.
Proof.
  induction interior as [|c rest IH]; [reflexivity|].
  cbn [includes startsWith append closesGroup]. rewrite andb_true_r.
  intros H. apply orb_false_iff in H as [Hc Hrest].
  rewrite Ascii.eqb_sym, Hc. now apply IH.
Qed.

Lemma isRouteGroup_spec name :
  isRouteGroup name = true <-> Spec.wrappedInParentheses name.
Proof.
  split.
  - destruct name as [|c s]; [discriminate|]. cbn [isRouteGroup].
    intros H. apply andb_true_iff in H as [H Hclose].
    apply andb_true_iff in H as [Hopen Hfirst].
    apply Ascii.eqb_eq in Hopen. subst c.
    destruct (closesGroup_inv _ Hclose) as (interior & -> & Hno).
    exists interior. repeat split; [|assumption].
    intros ->. discriminate Hfirst.
  - intros (interior & -> & Hne & Hno).
    cbn [append isRouteGroup]. rewrite Ascii.eqb_refl. cbn [andb].
    rewrite closesGroup_intro by assumption. rewrite andb_true_r.
    destruct interior as [|c rest]; [congruence|].
    cbn [includes startsWith] in Hno. apply orb_false_iff in Hno as [Hc _].
    cbn [append startsWith]. now rewrite Hc.
Qed.

Lemma isRouteGroup_false name :
  isRouteGroup name = false <-> ~ Spec.wrappedInParentheses name.
Proof.
  rewrite <- isRouteGroup_spec. destruct (isRouteGroup name); split; congruence.
Qed.

(** *** Fuel *)

Lemma groupLoop_extends f g dir segments entries :
  extends f g ->
  groupLoop f dir segments entries = OutOfFuel \/
  groupLoop f dir segments entries = groupLoop g dir segments entries.
Proof.
  intros Hfg. induction entries as [|entry more IH]; cbn [groupLoop]; [now right|].
  destruct (dirNameOf entry) as [dirName|]; [|exact IH].
  destruct (isRouteGroup dirName); [|exact IH].
  destruct (Hfg (Path.join [dir; dirName]) segments) as [-> | ->]; [now left|].
  destruct (g (Path.join [dir; dirName]) segments) as [result| |]; auto.
  destruct (found result); auto.
Qed.

Lemma groupSearch_extends sys f g dir segments :
  extends f g ->
  groupSearch sys f dir segments = OutOfFuel \/
  groupSearch sys f dir segments = groupSearch sys g dir segments.
Proof.
  intros Hfg. unfold groupSearch.
  destruct (readDirectory sys dir) as [entries|]; [|now right].
  destruct (groupLoop_extends f g dir segments entries Hfg) as [-> | ->]; auto.
Qed.

Lemma searchBody_extends sys config f g :
  extends f g -> extends (searchBody sys config f) (searchBody sys config g).
Proof.
  intros Hfg dir segments. unfold searchBody.
  destruct segments as [|nextSegment rest]; [now right|].
  destruct (negb (truthy nextSegment)); [now right|].
  pose proof (groupSearch_extends sys f g dir (nextSegment :: rest) Hfg) as Hgroups.
  destruct (directoryExists sys (Path.join [dir; nextSegment])); [|exact Hgroups].
  destruct (Hfg (Path.join [dir; nextSegment]) rest) as [-> | ->]; [now left|].
  destruct (g (Path.join [dir; nextSegment]) rest) as [result| |]; auto.
  destruct (found result); auto.
Qed.

Lemma searchDir_extends sys config fuel :
  extends (fun dir segments => searchDir fuel sys dir segments config)
          (fun dir segments => searchDir (S fuel) sys dir segments config).
Proof.
  induction fuel as [|fuel IH]; [intros dir segments; now left|].
  intros dir segments.
  exact (searchBody_extends sys config _ _ IH dir segments).
Qed.

(** More fuel never changes a result. *)
Lemma searchDir_more_fuel sys config fuel fuel' dir segments result :
  (fuel <= fuel')%nat ->
  searchDir fuel sys dir segments config = Normal result ->
  searchDir fuel' sys dir segments config = Normal result.
Proof.
  induction 1 as [|fuel' _ IH]; [trivial|].
  intros H. specialize (IH H).
  destruct (searchDir_extends sys config fuel' dir segments) as [E|E]; congruence.
Qed.

Lemma searchDir_deterministic sys config fuel fuel' dir segments r r' :
  searchDir fuel sys dir segments config = Normal r ->
  searchDir fuel' sys dir segments config = Normal r' -> r = r'.
Proof.
  intros H H'.
  apply (searchDir_more_fuel _ _ _ (Nat.max fuel fuel')) in H; [|lia].
  apply (searchDir_more_fuel _ _ _ (Nat.max fuel fuel')) in H'; [|lia].
  congruence.
Qed.

(** *** Exceptions *)

Lemma groupSearch_never_throws sys f dir segments :
  groupSearch sys f dir segments <> Throws.
Proof.
  unfold groupSearch. destruct (readDirectory sys dir) as [entries|]; [|discriminate].
  destruct (groupLoop f dir segments entries); discriminate.
Qed.

Lemma searchBody_never_throws sys config f :
  neverThrows f -> neverThrows (searchBody sys config f).
Proof.
  intros Hf dir segments. unfold searchBody.
  destruct segments as [|nextSegment rest]; [discriminate|].
  destruct (negb (truthy nextSegment)); [discriminate|].
  destruct (directoryExists sys (Path.join [dir; nextSegment]));
    [|apply groupSearch_never_throws].
  specialize (Hf (Path.join [dir; nextSegment]) rest).
  destruct (f (Path.join [dir; nextSegment]) rest) as [result| |];
    [|congruence|discriminate].
  destruct (found result); [discriminate | apply groupSearch_never_throws].
Qed.

Lemma searchDir_never_throws sys config fuel dir segments :
  searchDir fuel sys dir segments config <> Throws.
Proof.
  revert dir segments. induction fuel as [|fuel IH]; intros dir segments.
  - discriminate.
  - exact (searchBody_never_throws sys config _ IH dir segments).
Qed.

(** *** A failing listing counts as an empty one *)

Lemma groupSearch_empty_listing sys f dir segments :
  groupSearch (withEmptyListings sys) f dir segments = groupSearch sys f dir segments.
Proof.
  unfold groupSearch, withEmptyListings; cbn [readDirectory].
  now destruct (readDirectory sys dir).
Qed.

Lemma searchBody_empty_listing sys config f g dir segments :
  (forall d s, f d s = g d s) ->
  searchBody (withEmptyListings sys) config f dir segments
  = searchBody sys config g dir segments.
Proof.
  intros Hfg. unfold searchBody.
  destruct segments as [|nextSegment rest]; [reflexivity|].
  rewrite groupSearch_empty_listing. cbn [directoryExists withEmptyListings].
  rewrite Hfg.
  assert (Hloop : groupSearch sys f dir (nextSegment :: rest)
                  = groupSearch sys g dir (nextSegment :: rest)).
  { unfold groupSearch. destruct (readDirectory sys dir) as [entries|]; [|reflexivity].
    assert (Hl : groupLoop f dir (nextSegment :: rest) entries
                 = groupLoop g dir (nextSegment :: rest) entries).
    { induction entries as [|entry more IH]; cbn [groupLoop]; [reflexivity|].
      destruct (dirNameOf entry) as [dirName|]; [|exact IH].
      destruct (isRouteGroup dirName); [|exact IH].
      rewrite Hfg, IH. reflexivity. }
    now rewrite Hl. }
  now rewrite Hloop.
Qed.

Lemma searchDir_empty_listing sys config fuel dir segments :
  searchDir fuel (withEmptyListings sys) dir segments config
  = searchDir fuel sys dir segments config.
Proof.
  revert dir segments. induction fuel as [|fuel IH]; intros dir segments.
  - reflexivity.
  - exact (searchBody_empty_listing sys config _ _ dir segments IH).
Qed.

(** *** The loop over entries is a loop over names *)

Lemma groupLoop_names f dir segments entries :
  groupLoop f dir segments entries = loopNames f dir segments (namesOf entries).
Proof.
  induction entries as [|entry more IH]; [reflexivity|].
  cbn [groupLoop namesOf flat_map]. fold (namesOf more).
  destruct (dirNameOf entry) as [dirName|]; [|exact IH].
  cbn [app loopNames]. now rewrite IH.
Qed.




(** *** Results are usable paths *)

Lemma firstExisting_truthy sys dir config exts path :
  firstExisting sys dir config exts = Some path -> truthy path = true.
Proof.
  induction exts as [|ext more IH]; [discriminate|]. cbn [firstExisting].
  destruct (fileExists sys _); [|exact IH].
  intros [= <-]. apply join_truthy.
Qed.

Lemma firstExisting_two sys dir config :
  firstExisting sys dir config ["ts"; "tsx"] =
  if fileExists sys (Spec.definitionFile config dir "ts")
  then Some (Spec.definitionFile config dir "ts")
  else if fileExists sys (Spec.definitionFile config dir "tsx")
       then Some (Spec.definitionFile config dir "tsx")
       else None.
Proof. reflexivity. Qed.

Lemma loopNames_found f dir segments names path :
  loopNames f dir segments names = Normal (Some path) -> truthy path = true.
Proof.
  induction names as [|name more IH]; [discriminate|]. cbn [loopNames].
  destruct (isRouteGroup name); [|exact IH].
  destruct (f (Path.join [dir; name]) segments) as [result| |]; try discriminate.
  destruct (found result) eqn:E; [|exact IH].
  intros [= ->]. exact E.
Qed.

Lemma groupSearch_found sys f dir segments path :
  groupSearch sys f dir segments = Normal (Some path) -> truthy path = true.
Proof.
  unfold groupSearch. destruct (readDirectory sys dir) as [entries|]; [|discriminate].
  rewrite groupLoop_names.
  destruct (loopNames f dir segments (namesOf entries)) as [result| |] eqn:E;
    try discriminate.
  intros [= ->]. eapply loopNames_found; eassumption.
Qed.

Lemma searchDir_found sys config fuel dir segments path :
  searchDir fuel sys dir segments config = Normal (Some path) ->
  truthy path = true.
Proof.
  destruct fuel as [|fuel]; [discriminate|]. cbn [searchDir]. unfold searchBody.
  destruct segments as [|nextSegment rest].
  - intros H. apply (firstExisting_truthy sys dir config ["ts"; "tsx"]).
    injection H as H. exact H.
  - destruct (negb (truthy nextSegment)); [discriminate|].
    destruct (directoryExists sys _); [|apply groupSearch_found].
    destruct (searchDir fuel sys _ rest config) as [result| |]; try discriminate.
    destruct (found result) eqn:E; [|apply groupSearch_found].
    intros [= ->]. exact E.
Qed.

Lemma searchDir_not_found sys config fuel dir segments result :
  searchDir fuel sys dir segments config = Normal result ->
  found result = false -> result = None.
Proof.
  destruct result as [path|]; [|reflexivity].
  intros H. apply searchDir_found in H. cbn [found]. congruence.
Qed.

(** *** Termination on cycle-free trees *)

Lemma searchDir_total sys rank bound config :
  groupsNestWithin sys rank bound ->
  forall fuel dir segments,
    (length segments * S bound + rank dir < fuel)%nat ->
    exists result, searchDir fuel sys dir segments config = Normal result.
Proof.
  intros [Hbound Hdown]. induction fuel as [|fuel IH]; intros dir segments Hfuel; [lia|].
  cbn [searchDir]. unfold searchBody.
  destruct segments as [|nextSegment rest]; [eauto|].
  destruct (negb (truthy nextSegment)); [eauto|].
  assert (Hgroups : exists result,
            groupSearch sys (fun d s => searchDir fuel sys d s config)
              dir (nextSegment :: rest) = Normal result).
  { unfold groupSearch.
    destruct (readDirectory sys dir) as [entries|] eqn:Hread; [|eauto].
    assert (Hloop : forall listed,
              (forall entry, In entry listed -> In entry entries) ->
              exists result,
                groupLoop (fun d s => searchDir fuel sys d s config)
                  dir (nextSegment :: rest) listed = Normal result).
    { induction listed as [|entry more IHl]; intros Hsub; cbn [groupLoop]; [eauto|].
      assert (Hmore : forall e, In e more -> In e entries)
        by (intros; apply Hsub; now right).
      destruct (dirNameOf entry) as [dirName|] eqn:Hname; [|auto].
      destruct (isRouteGroup dirName) eqn:Hgroup; [|auto].
      assert (Hlt : (rank (Path.join [dir; dirName]) < rank dir)%nat).
      { apply Hdown. exists entries, entry. repeat split; auto. apply Hsub; now left. }
      destruct (IH (Path.join [dir; dirName]) (nextSegment :: rest)) as [result ->];
        [cbn [length] in *; lia|].
      destruct (found result); eauto. }
    destruct (Hloop entries (fun _ H => H)) as [result ->]. eauto. }
  destruct (directoryExists sys _); [|exact Hgroups].
  destruct (IH (Path.join [dir; nextSegment]) rest) as [result ->].
  { pose proof (Hbound (Path.join [dir; nextSegment])). cbn [length] in Hfuel. lia. }
  destruct (found result); eauto.
Qed.

Lemma groupSearch_names sys f dir segments :
  groupSearch sys f dir segments =
  match loopNames f dir segments (Spec.listedNames sys dir) with
  | Normal result => Normal result
  | Throws => Normal None
  | OutOfFuel => OutOfFuel
  end.
Proof.
  unfold groupSearch, Spec.listedNames.
  destruct (readDirectory sys dir) as [entries|]; [|reflexivity].
  now rewrite groupLoop_names.
Qed.

Lemma loopNames_never_throws f dir segments names :
  neverThrows f -> loopNames f dir segments names <> Throws.
Proof.
  intros Hf. induction names as [|name more IH]; cbn [loopNames]; [discriminate|].
  destruct (isRouteGroup name); [|exact IH].
  specialize (Hf (Path.join [dir; name]) segments).
  destruct (f (Path.join [dir; name]) segments) as [result| |];
    [|congruence|discriminate].
  destruct (found result); [discriminate | exact IH].
Qed.

Lemma found_some_inv result :
  found result = true -> exists path, result = Some path.
Proof. destruct result; [eauto | discriminate]. Qed.

(** *** The code follows the depth-first search of the specification *)

Lemma searchDir_sound sys config fuel :
  forall dir segments result,
    Forall (fun s => truthy s = true) segments ->
    searchDir fuel sys dir segments config = Normal result ->
    Spec.depthFirst sys config dir segments result.
Proof.
  induction fuel as [|fuel IH]; intros dir segments result Hsegs; [discriminate|].
  cbn [searchDir]. unfold searchBody.
  destruct segments as [|head rest].
  - rewrite firstExisting_two.
    destruct (fileExists sys (Spec.definitionFile config dir "ts")) eqn:Ets.
    { intros [= <-]. now constructor. }
    destruct (fileExists sys (Spec.definitionFile config dir "tsx")) eqn:Etsx;
      intros [= <-]; now constructor.
  - inversion Hsegs as [|? ? Hhead Hrest]; subst. rewrite Hhead. cbn [negb].
    assert (Hloop : forall names r,
              loopNames (fun d s => searchDir fuel sys d s config)
                dir (head :: rest) names = Normal r ->
              Spec.firstGroup sys config dir (head :: rest) names r).
    { induction names as [|name more IHn]; intros r; cbn [loopNames].
      - intros [= <-]. constructor.
      - destruct (isRouteGroup name) eqn:Hgroup.
        + destruct (searchDir fuel sys (Path.join [dir; name]) (head :: rest) config)
            as [sub| |] eqn:Hsub; try discriminate.
          destruct (found sub) eqn:Hfound.
          * intros [= <-]. destruct (found_some_inv _ Hfound) as [path ->].
            apply Spec.group_hit; [now apply isRouteGroup_spec | now apply IH].
          * intros Hmore.
            pose proof (searchDir_not_found _ _ _ _ _ _ Hsub Hfound); subst sub.
            apply Spec.group_miss;
              [now apply isRouteGroup_spec | now apply IH | now apply IHn].
        + intros Hmore. apply Spec.group_skip; [now apply isRouteGroup_false | auto]. }
    assert (Hgroups : forall r,
              groupSearch sys (fun d s => searchDir fuel sys d s config)
                dir (head :: rest) = Normal r ->
              Spec.firstGroup sys config dir (head :: rest)
                (Spec.listedNames sys dir) r).
    { intros r. rewrite groupSearch_names.
      destruct (loopNames _ dir (head :: rest) (Spec.listedNames sys dir))
        as [sub| |] eqn:E; try discriminate.
      - intros [= <-]. now apply Hloop.
      - exfalso. revert E. apply loopNames_never_throws.
        intros d s. apply searchDir_never_throws. }
    destruct (directoryExists sys (Path.join [dir; head])) eqn:Hdir.
    + destruct (searchDir fuel sys (Path.join [dir; head]) rest config)
        as [sub| |] eqn:Hsub; try discriminate.
      destruct (found sub) eqn:Hfound.
      * intros [= <-]. destruct (found_some_inv _ Hfound) as [path ->].
        apply Spec.direct_hit; [assumption | now apply IH].
      * intros Hg.
        pose proof (searchDir_not_found _ _ _ _ _ _ Hsub Hfound); subst sub.
        apply Spec.direct_miss; [assumption | now apply IH | now apply Hgroups].
    + intros Hg. apply Spec.direct_absent; [assumption | now apply Hgroups].
Qed.


(** *** Shape of a returned path *)

Lemma reaches_hop sys config dir h segments path :
  (isGroupHop h = true -> isRouteGroup (hopName h) = true) ->
  reaches sys config (Path.join [dir; hopName h]) segments path ->
  reaches sys config dir (consumed [h] ++ segments)%list path.
Proof.
  intros Hh (hops & ext & Hext & Hpath & Hcons & Hall & Hfile).
  exists (h :: hops), ext. repeat split; try assumption.
  - unfold consumed in *. cbn [flat_map]. rewrite app_nil_r. now rewrite Hcons.
  - now constructor.
Qed.

Lemma depthFirst_reaches sys config dir segments result :
  Spec.depthFirst sys config dir segments result ->
  forall path, result = Some path -> reaches sys config dir segments path.
Proof.
  revert dir segments result.
  apply (Spec.depthFirst_mut sys config
    (fun dir segments result =>
       forall path, result = Some path -> reaches sys config dir segments path)
    (fun dir segments names result =>
       forall path, result = Some path -> reaches sys config dir segments path)).
  - intros dir Hts path [= <-]. exists [], "ts". repeat split; auto.
  - intros dir _ Htsx path [= <-]. exists [], "tsx". repeat split; auto.
  - intros; discriminate.
  - intros dir head rest path _ _ IH p [= <-].
    apply (reaches_hop sys config dir (Direct head) rest path); [discriminate|].
    now apply IH.
  - intros dir head rest result _ _ IH path ->. now apply IH.
  - intros dir head rest result _ _ _ _ IH path ->. now apply IH.
  - intros; discriminate.
  - intros dir segments name names result _ _ IH path ->. now apply IH.
  - intros dir segments name names path Hyes _ IH p [= <-].
    apply (reaches_hop sys config dir (Group name) segments path).
    + intros _. now apply isRouteGroup_spec.
    + now apply IH.
  - intros dir segments name names result _ _ _ _ IH path ->. now apply IH.
Qed.

Lemma consumed_length hops :
  length (consumed hops) = (length hops - length (filter isGroupHop hops))%nat.
Proof.
  induction hops as [|[segment|name] hops IH]; [reflexivity| |].
  - unfold consumed in *. cbn [flat_map filter isGroupHop app length]. rewrite IH.
    pose proof (filter_length_le isGroupHop hops). lia.
  - unfold consumed in *. cbn [flat_map filter isGroupHop app length]. rewrite IH.
    reflexivity.
Qed.

Lemma follow_descend hops :
  forall dir, follow dir hops = descend dir (map hopName hops).
Proof.
  induction hops as [|h hops IH]; intros dir; [reflexivity|].
  exact (IH (join [dir; hopName h])).
Qed.

(** When no consumed segment carries a grouping name, the hops that
    consumed a segment are told from the grouping hops by name. *)
Lemma hops_by_name hops :
  Forall (fun h => isGroupHop h = true -> isRouteGroup (hopName h) = true) hops ->
  forallb (fun segment => negb (isRouteGroup segment)) (consumed hops) = true ->
  filter (fun name => negb (isRouteGroup name)) (map hopName hops) = consumed hops.
Proof.
  unfold consumed.
  induction 1 as [|[segment|name] hops Hh _ IH]; [reflexivity| |];
    cbn [flat_map map filter hopName app forallb].
  - intros H. apply andb_true_iff in H as [Hs H]. rewrite Hs. now rewrite IH.
  - intros H. pose proof (Hh eq_refl) as Hg. cbn [hopName] in Hg.
    rewrite Hg. cbn [negb]. now apply IH.
Qed.

(** *** Direct descent *)

Lemma directDirs_descend dir segments :
  forall target, In target (directDirs dir segments) ->
  exists k, (0 < k <= length segments)%nat /\ target = descend dir (firstn k segments).
Proof.
  revert dir. induction segments as [|segment rest IH]; intros dir target; [intros []|].
  cbn [directDirs]. intros [<-|Hin].
  - exists 1%nat. cbn [length]. split; [lia | reflexivity].
  - destruct (IH _ _ Hin) as (k & Hk & ->). exists (S k). cbn [length].
    split; [lia | reflexivity].
Qed.

Lemma searchDir_direct sys config segments :
  forall dir fuel path,
    Forall (fun s => truthy s = true) segments ->
    (length segments < fuel)%nat ->
    forallb (directoryExists sys) (directDirs dir segments) = true ->
    firstExisting sys (descend dir segments) config ["ts"; "tsx"] = Some path ->
    searchDir fuel sys dir segments config = Normal (Some path).
Proof.
  induction segments as [|segment rest IH]; intros dir fuel path Hsegs Hfuel Hdirs Hfile.
  - destruct fuel as [|fuel]; [cbn [length] in Hfuel; lia|].
    cbn [searchDir searchBody]. now rewrite <- Hfile.
  - destruct fuel as [|fuel]; [cbn [length] in Hfuel; lia|].
    inversion Hsegs as [|? ? Hseg Hrest]; subst.
    cbn [directDirs forallb] in Hdirs. apply andb_true_iff in Hdirs as [Hdir Hdirs].
    cbn [searchDir]. unfold searchBody. rewrite Hseg, Hdir. cbn [negb].
    rewrite (IH (Path.join [dir; segment]) fuel path); try assumption.
    + cbn [found]. now rewrite (firstExisting_truthy _ _ _ _ _ Hfile).
    + cbn [length] in Hfuel. lia.
Qed.

(** *** [resolveRouteToFile] *)

Lemma buildPossiblePaths_eq sys route projectPath config :
  buildPossiblePaths sys (parseRouteSegments route) projectPath config =
  [ Spec.definitionFile config (routeDirOf route projectPath config) "ts";
    Spec.definitionFile config (routeDirOf route projectPath config) "tsx" ].
Proof. reflexivity. Qed.

Lemma resolveRouteToFile_eq sys route projectPath config :
  let ts := Spec.definitionFile config (routeDirOf route projectPath config) "ts" in
  let tsx := Spec.definitionFile config (routeDirOf route projectPath config) "tsx" in
  resolveRouteToFile sys route projectPath config =
  Some (if fileExists sys ts then {| filePath := ts; exists_ := true |}
        else if fileExists sys tsx then {| filePath := tsx; exists_ := true |}
        else {| filePath := ts; exists_ := false |}).
Proof.
  intros ts tsx. unfold resolveRouteToFile. rewrite buildPossiblePaths_eq.
  fold ts tsx. cbn [find].
  destruct (fileExists sys ts); [reflexivity|].
  destruct (fileExists sys tsx); reflexivity.
Qed.

Lemma routeDirOf_descend route projectPath config :
  routeDirOf route projectPath config =
  descend (Path.join [projectPath; appDir config])
    (escapedSegments (parseRouteSegments route)).
Proof.
  unfold routeDirOf.
  pose proof (escapedSegments_truthy _ (parseRouteSegments_truthy route)) as Hsegs.
  destruct (escapedSegments (parseRouteSegments route)) as [|segment rest] eqn:E.
  - reflexivity.
  - cbn [length Nat.ltb Nat.leb].
    rewrite descend_join; [reflexivity | apply join_truthy | assumption | discriminate].
Qed.

Lemma replace_5F_sepFree_bounded n seg :
  (String.length seg <= n)%nat ->
  sepFree isSlash seg = true -> sepFree isSlash (replace_5F seg) = true.
Proof.
  revert seg. induction n as [|n IH]; intros seg Hlen Hfree.
  - destruct seg; [reflexivity | simpl in Hlen; lia].
  - destruct seg as [|c t]; [reflexivity|].
    destruct (replace_5F_head c t) as [(rest & Heq & ->)|[_ ->]].
    + rewrite Heq in Hlen, Hfree. cbn [sepFree]. apply IH.
      * simpl in Hlen. lia.
      * cbn in Hfree. exact Hfree.
    + cbn [sepFree] in *. apply andb_true_iff in Hfree as [Hc Ht].
      rewrite Hc. apply IH; [simpl in Hlen; lia | assumption].
Qed.

Lemma replace_5F_sepFree seg :
  sepFree isSlash seg = true -> sepFree isSlash (replace_5F seg) = true.
Proof. now apply (replace_5F_sepFree_bounded (String.length seg)). Qed.

Lemma route_segments_sepFree route :
  Forall (fun s => sepFree isSlash s = true)
    (escapedSegments (parseRouteSegments route)).
Proof.
  unfold escapedSegments. apply Forall_map.
  unfold parseRouteSegments. destruct (String.eqb route "/"); [constructor|].
  apply Forall_forall. intros s Hs. apply filter_In in Hs as [Hs _].
  apply replace_5F_sepFree.
  pose proof (splitOn_pieces_sepFree isSlash (slice1 route)) as Hall.
  rewrite Forall_forall in Hall. now apply Hall.
Qed.

Lemma route_segments_staysBelow route :
  forallb (fun s => negb (String.eqb s ".."))
    (escapedSegments (parseRouteSegments route)) = true ->
  forallb staysBelow (escapedSegments (parseRouteSegments route)) = true.
Proof.
  intros Hup. apply forallb_forall. intros s Hs.
  rewrite forallb_forall in Hup.
  pose proof (escapedSegments_truthy _ (parseRouteSegments_truthy route)) as Ht.
  pose proof (route_segments_sepFree route) as Hf.
  rewrite Forall_forall in Ht, Hf.
  unfold staysBelow. now rewrite Ht, Hf, Hup.
Qed.

Lemma length_append a b : String.length (a ++ b) = (String.length a + String.length b)%nat.
Proof. induction a as [|c a IH]; [reflexivity|]. cbn. now rewrite IH. Qed.

(** The name of a definition file stays below and is kept as it is. *)
Lemma definition_name_staysBelow name ext :
  sepFree isSlash name = true -> ext = "ts" \/ ext = "tsx" ->
  staysBelow (name ++ "." ++ ext) = true /\
  keptOf (name ++ "." ++ ext) = [name ++ "." ++ ext].
Proof.
  intros Hfree Hext.
  assert (Hlen : (3 <= String.length (name ++ "." ++ ext))%nat)
    by (rewrite length_append; destruct Hext as [-> | ->]; cbn; lia).
  assert (Hdot : String.eqb (name ++ "." ++ ext) "." = false)
    by (apply String.eqb_neq; intros E; rewrite E in Hlen; cbn in Hlen; lia).
  assert (Hup : String.eqb (name ++ "." ++ ext) ".." = false)
    by (apply String.eqb_neq; intros E; rewrite E in Hlen; cbn in Hlen; lia).
  split.
  - unfold staysBelow. rewrite Hup, sepFree_append, Hfree.
    rewrite truthy_append_r by (destruct Hext as [-> | ->]; reflexivity).
    destruct Hext as [-> | ->]; reflexivity.
  - unfold keptOf. now rewrite Hdot.
Qed.

(** On a file system that reports the ancestors of its files, the
    directories of the direct descent to an existing definition file
    exist. *)
Lemma directDirs_exist sys config dirArgs segments ext :
  ancestorsExist sys ->
  forallb staysBelow segments = true ->
  sepFree isSlash (routeTypeFileName config) = true ->
  ext = "ts" \/ ext = "tsx" ->
  fileExists sys (Spec.definitionFile config (descend (join dirArgs) segments) ext)
  = true ->
  forallb (directoryExists sys) (directDirs (join dirArgs) segments) = true.
Proof.
  intros Hanc Hsegs Hname Hext Hfile.
  destruct (join_normal_form dirArgs) as (abs & tr & comps & Hdir & Hres).
  destruct (definition_name_staysBelow _ _ Hname Hext) as [Hstays Hkept].
  set (file := routeTypeFileName config ++ "." ++ ext) in *.
  assert (Hall : resolved (negb abs) (rev (comps ++ flat_map keptOf segments)))
    by now apply resolved_kept_all.
  assert (Hpath : Spec.definitionFile config (descend (join dirArgs) segments) ext
                  = assemble abs false ((comps ++ flat_map keptOf segments) ++ [file])).
  { unfold Spec.definitionFile. fold file. rewrite Hdir.
    destruct segments as [|segment rest].
    - cbn [descend fold_left flat_map]. rewrite app_nil_r.
      rewrite join_assemble_staysBelow by assumption. now rewrite Hkept.
    - rewrite descend_assemble by (assumption || discriminate).
      rewrite join_assemble_staysBelow by assumption. now rewrite Hkept. }
  assert (Hcomps : Forall (fun c => truthy c = true /\ sepFree isSlash c = true)
                     ((comps ++ flat_map keptOf segments) ++ [file])).
  { pose proof (resolved_keptOf _ _ file Hall Hstays) as Hfull.
    rewrite Hkept in Hfull. apply resolved_components in Hfull.
    apply Forall_rev in Hfull. now rewrite rev_involutive in Hfull. }
  apply forallb_forall. intros target Hin.
  destruct (directDirs_descend _ _ _ Hin) as (k & Hk & ->).
  apply (Hanc _ _ Hfile). rewrite Hpath, Hdir.
  assert (Hfirst : firstn k segments <> [])
    by (destruct segments; [cbn in Hk; lia | destruct k; [lia | discriminate]]).
  assert (Hprefix : forallb staysBelow (firstn k segments) = true).
  { apply forallb_forall. intros s Hs. rewrite forallb_forall in Hsegs.
    apply Hsegs. rewrite <- (firstn_skipn k segments).
    apply in_or_app. now left. }
  rewrite descend_assemble by assumption.
  rewrite <- (firstn_skipn k segments) at 2.
  rewrite flat_map_app, (app_assoc comps), <- (app_assoc (comps ++ _)).
  apply assemble_isAncestorOf.
  - intros E. apply app_eq_nil in E as [_ E]. discriminate.
  - rewrite (app_assoc (comps ++ _)), <- (app_assoc comps), <- flat_map_app.
    now rewrite firstn_skipn.
Qed.

End ResolverFacts.

(* ================================================================== *)
(** ** Facts about the detector *)
(* ================================================================== *)

Module DetectorFacts.
Import Detector JsFacts.

(** Structural induction on syntax trees, through the lists of children. *)
Lemma Node_induction (P : Node -> Prop) :
  (forall range text, P (StringLiteral range text)) ->
  (forall id, P (IdentifierNode id)) ->
  (forall range name initializer,
      P name -> P initializer -> P (PropertyAssignment range name initializer)) ->
  (forall range name initializer,
      (forall value, initializer = Some value -> P value) ->
      P (ShorthandPropertyAssignment range name initializer)) ->
  (forall range expression arguments,
      P expression -> Forall P arguments ->
      P (CallExpression range expression arguments)) ->
  (forall range expression name,
      P expression -> P (PropertyAccessExpression range expression name)) ->
  (forall range children, Forall P children -> P (OtherNode range children)) ->
  forall node, P node.
Proof.
  intros HString HIdent HAssign HShort HCall HAccess HOther.
  fix IH 1. intros [range text|id|range name initializer|range name initializer
                    |range expression arguments|range expression name|range children].
  - apply HString.
  - apply HIdent.
  - apply HAssign; apply IH.
  - apply HShort. destruct initializer as [value|]; intros v [= <-]. apply IH.
  - apply HCall; [apply IH|].
    induction arguments as [|argument more IHl]; constructor; [apply IH | exact IHl].
  - apply HAccess; apply IH.
  - apply HOther.
    induction children as [|child more IHl]; constructor; [apply IH | exact IHl].
Qed.

Lemma orElse_some {A} (first second : option A) result :
  orElse first second = Some result -> first = Some result \/ second = Some result.
Proof. destruct first; cbn; auto. Qed.

Lemma firstResult_some {A} (cbNode : Node -> option A) nodes result :
  firstResult cbNode nodes = Some result ->
  exists child, In child nodes /\ cbNode child = Some result.
Proof.
  induction nodes as [|child more IH]; [discriminate|]. cbn [firstResult].
  intros H. apply orElse_some in H as [H|H].
  - exists child. split; [now left | exact H].
  - destruct (IH H) as (c & Hin & Hc). exists c. split; [now right | exact Hc].
Qed.

Lemma find_origin position node :
  forall parents token chain,
    find position parents node = Some (token, chain) ->
    (token = node /\ chain = parents) \/ childOfParent token chain.
Proof.
  induction node as [range text|id|range name initializer IHn IHi
                    |range name initializer IHi
                    |range expression arguments IHe IHa
                    |range expression name IHe|range children IHc]
    using Node_induction; intros parents token chain; cbn [find];
    (destruct (contains position _) eqn:Hin; [|discriminate]); intros H;
    (apply orElse_some in H as [H|H]; [|injection H as <- <-; now left]);
    right.
  - discriminate.
  - discriminate.
  - apply orElse_some in H as [H|H];
      [destruct (IHn _ _ _ H) as [[-> ->]|Hc] | destruct (IHi _ _ _ H) as [[-> ->]|Hc]];
      try exact Hc; eexists _, _; (split; [reflexivity|]); cbn; auto.
  - apply orElse_some in H as [H|H].
    + destruct (contains position (IdentifierNode name)); [|discriminate].
      injection H as <- <-. eexists _, _. split; [reflexivity|].
      destruct initializer; cbn; auto.
    + destruct initializer as [value|]; [|discriminate].
      destruct (IHi value eq_refl _ _ _ H) as [[-> ->]|Hc]; [|exact Hc].
      eexists _, _. split; [reflexivity|]. cbn; auto.
  - apply orElse_some in H as [H|H].
    + destruct (IHe _ _ _ H) as [[-> ->]|Hc]; [|exact Hc].
      eexists _, _. split; [reflexivity|]. cbn; auto.
    + apply firstResult_some in H as (child & Hchild & H).
      rewrite Forall_forall in IHa.
      destruct (IHa child Hchild _ _ _ H) as [[-> ->]|Hc]; [|exact Hc].
      eexists _, _. split; [reflexivity|]. cbn; auto.
  - apply orElse_some in H as [H|H].
    + destruct (IHe _ _ _ H) as [[-> ->]|Hc]; [|exact Hc].
      eexists _, _. split; [reflexivity|]. cbn; auto.
    + destruct (contains position (IdentifierNode name)); [|discriminate].
      injection H as <- <-. eexists _, _. split; [reflexivity|]. cbn; auto.
  - apply firstResult_some in H as (child & Hchild & H).
    rewrite Forall_forall in IHc.
    destruct (IHc child Hchild _ _ _ H) as [[-> ->]|Hc]; [|exact Hc].
    eexists _, _. split; [reflexivity|]. cbn; auto.
Qed.

Lemma detect_inv sourceFile position info :
  detectRouteString sourceFile position = Some info ->
  exists range text parents,
    findTokenAtPosition sourceFile position = Some (StringLiteral range text, parents) /\
    isRoutePropertyValue (hd_error parents) = true /\
    isWithinPathCall (StringLiteral range text) parents = true /\
    Js.startsWith "/" text = true /\
    info = {| route := text;
              start := rangeStart range;
              end_ := rangeEnd range;
              span := {| spanStart := rangeStart range;
                         spanLength := rangeEnd range - rangeStart range |} |}.
Proof.
  unfold detectRouteString.
  destruct (findTokenAtPosition sourceFile position) as [[token parents]|];
    [|discriminate].
  destruct token as [range text| | | | | |]; try discriminate.
  destruct (isRoutePropertyValue (hd_error parents)) eqn:Hprop; [|discriminate].
  destruct (isWithinPathCall _ parents) eqn:Hcall; [|discriminate].
  destruct (Js.startsWith "/" text) eqn:Hslash; [|discriminate].
  cbn [negb]. intros [= <-]. exists range, text, parents. now repeat split.
Qed.

Lemma isRoutePropertyValue_bound parent range text :
  isRoutePropertyValue (Some parent) = true ->
  In (StringLiteral range text) (childrenOf parent) ->
  boundToRoute parent (StringLiteral range text).
Proof.
  destruct parent as [| |r name initializer|r name initializer| | |];
    try discriminate; cbn [isRoutePropertyValue].
  - destruct name as [|id| | | | |]; try discriminate.
    intros Hname Hin. apply String.eqb_eq in Hname.
    cbn [childrenOf In] in Hin. destruct Hin as [H|[H|[]]]; [discriminate|].
    subst initializer. left. now exists r, id.
  - intros Hname Hin. apply String.eqb_eq in Hname.
    destruct initializer as [value|]; cbn [childrenOf In] in Hin.
    + destruct Hin as [H|[H|[]]]; [discriminate|]. subst value.
      right. now exists r, name.
    + destruct Hin as [H|[]]. discriminate.
Qed.

Lemma isRoutePropertyValue_other parent name :
  propertyNameOf parent = Some name -> name <> "route" ->
  isRoutePropertyValue (Some parent) = false.
Proof.
  destruct parent as [| |r key initializer|r key initializer| | |];
    try discriminate; cbn [propertyNameOf isRoutePropertyValue].
  - destruct key as [range text|id| | | | |]; try discriminate.
    + reflexivity.
    + intros [= <-] Hne. now apply String.eqb_neq.
  - intros [= <-] Hne. now apply String.eqb_neq.
Qed.

End DetectorFacts.

(* ================================================================== *)
(** ** The tests of the repository, replayed on the model *)
(* ================================================================== *)

Module Tests.
Import Resolver Detector.

(** resolver.test.ts: the mocks are [typescript.sys] with [fileExists]
    answering by [path.includes(...)] or [path === ...]. *)
Example resolves_root_route :
  resolveRouteToFile
    {| fileExists := Js.includes "src/app/routeType.ts";
       directoryExists := fun _ => false; readDirectory := fun _ => Raised |}
    "/" "/project" DEFAULT_CONFIG
  = Some {| filePath := "/project/src/app/routeType.ts"; exists_ := true |}.
Proof. vm_compute. reflexivity. Qed.

Example resolves_optional_catch_all_route :
  resolveRouteToFile
    {| fileExists := Js.includes "src/app/blog/[[...slug]]/routeType.ts";
       directoryExists := fun _ => false; readDirectory := fun _ => Raised |}
    "/blog/[[...slug]]" "/project" DEFAULT_CONFIG
  = Some {| filePath := "/project/src/app/blog/[[...slug]]/routeType.ts";
            exists_ := true |}.
Proof. vm_compute. reflexivity. Qed.

Example handles_double_underscore_escaping :
  resolveRouteToFile
    {| fileExists := Js.includes "src/app/_internal/__very-internal/routeType.ts";
       directoryExists := fun _ => false; readDirectory := fun _ => Raised |}
    "/%5Finternal/%5F%5Fvery-internal" "/project" DEFAULT_CONFIG
  = Some {| filePath := "/project/src/app/_internal/__very-internal/routeType.ts";
            exists_ := true |}.
Proof. vm_compute. reflexivity. Qed.

Example finds_tsx_file_as_fallback :
  resolveRouteToFile Scenario.onlyTsx "/users" "/project" DEFAULT_CONFIG
  = Some {| filePath := "/project/src/app/users/routeType.tsx"; exists_ := true |}.
Proof. vm_compute. reflexivity. Qed.

Example returns_exists_false_for_non_existent_route :
  resolveRouteToFile Scenario.nothingExists "/nonexistent" "/project" DEFAULT_CONFIG
  = Some {| filePath := "/project/src/app/nonexistent/routeType.ts";
            exists_ := false |}.
Proof. vm_compute. reflexivity. Qed.

Example respects_custom_configuration :
  resolveRouteToFile
    {| fileExists := Js.includes "app/users/route.ts";
       directoryExists := fun _ => false; readDirectory := fun _ => Raised |}
    "/users" "/project"
    {| appDir := "app"; routeTypeFileName := "route"; debug := false |}
  = Some {| filePath := "/project/app/users/route.ts"; exists_ := true |}.
Proof. vm_compute. reflexivity. Qed.

Example finds_route_in_direct_path :
  findRouteTypeWithGroups 2
    {| fileExists := String.eqb "/project/src/app/users/routeType.ts";
       directoryExists := fun _ => true; readDirectory := fun _ => Returned [] |}
    "/users" "/project" DEFAULT_CONFIG
  = Normal (Some "/project/src/app/users/routeType.ts").
Proof. vm_compute. reflexivity. Qed.

Example finds_route_inside_route_group :
  findRouteTypeWithGroups 3 Scenario.authLogin "/login" "/project" DEFAULT_CONFIG
  = Normal (Some "/project/src/app/(auth)/login/routeType.ts").
Proof. vm_compute. reflexivity. Qed.

Example returns_null_when_route_not_found :
  findRouteTypeWithGroups 1 Scenario.nothingExists "/nonexistent" "/project"
    DEFAULT_CONFIG
  = Normal None.
Proof. vm_compute. reflexivity. Qed.

(** detector.test.ts. *)
Example detects_route_string_in_path_call :
  option_map route (detectRouteString Example.pathCallFile 18) = Some "/users/[id]".
Proof. vm_compute. reflexivity. Qed.

Example returns_correct_span_for_route_string :
  option_map
    (fun info => Js.slice Example.pathCallText (spanStart (span info))
                   (spanStart (span info) + spanLength (span info)))
    (detectRouteString Example.pathCallFile 18)
  = Some (String Example.quote ("/users/[id]" ++ String Example.quote EmptyString)).
Proof. vm_compute. reflexivity. Qed.

Example handles_position_at_start_of_string :
  option_map route (detectRouteString Example.pathCallFile 15) = Some "/users/[id]".
Proof. vm_compute. reflexivity. Qed.

Example returns_null_for_non_route_property_in_path_call :
  detectRouteString Example.otherPropertyFile 35 = None.
Proof. vm_compute. reflexivity. Qed.

Example returns_null_for_position_outside_any_token :
  detectRouteString Example.pathCallFile 100 = None.
Proof. vm_compute. reflexivity. Qed.

End Tests.

(* ================================================================== *)
(** ** The properties of the specification *)
(* ================================================================== *)

Import JsFacts PathFacts ResolverFacts DetectorFacts.
Import Resolver.

Lemma route_segments_truthy route :
  Forall (fun s => Js.truthy s = true) (escapedSegments (parseRouteSegments route)).
Proof. apply escapedSegments_truthy, parseRouteSegments_truthy. Qed.



(** C2, as amended.  The two candidate paths are the same for every state
    of the file system, and the [filePath] returned is the [.tsx] candidate
    when the [.ts] candidate is absent and the [.tsx] candidate present,
    and the [.ts] candidate in every other case. *)
Theorem C2_filePath_depends_on_two_existence_checks
    (sys sys' : System) (route projectPath : string) (config : ResolvedConfig) :
  buildPossiblePaths sys (parseRouteSegments route) projectPath config
  = buildPossiblePaths sys' (parseRouteSegments route) projectPath config
  /\
  exists ts tsx,
    buildPossiblePaths sys (parseRouteSegments route) projectPath config = [ts; tsx] /\
    option_map filePath (resolveRouteToFile sys route projectPath config)
    = Some (if negb (fileExists sys ts) && fileExists sys tsx then tsx else ts).
Proof.
  split; [reflexivity|].
  eexists _, _. split; [apply buildPossiblePaths_eq|].
  rewrite resolveRouteToFile_eq. cbn [option_map].
  destruct (fileExists sys _); [reflexivity|].
  destruct (fileExists sys _); reflexivity.
Qed.

(** C2, as stated, fails: for the route [/users] the [filePath] is the
    [.ts] path when nothing exists and the [.tsx] path when only the [.tsx]
    file exists. *)
Lemma C2_filePath_varies_with_file_system :
  ~ filePathIgnoresFileSystem "/users" "/project" DEFAULT_CONFIG.
Proof.
  intros H. specialize (H Scenario.nothingExists Scenario.onlyTsx).
  vm_compute in H. discriminate.
Qed.

(** C3.  [resolveRouteToFile] builds exactly the two candidates
    [{dir}/{routeTypeFileName}.ts] and [{dir}/{routeTypeFileName}.tsx], in
    that order, and answers with the first that exists and [exists = true]
    (the [.ts] one when both exist), or with the [.ts] candidate and
    [exists = false] when neither exists; it never answers null. *)
Theorem C3_two_candidates_ts_first
    (sys : System) (route projectPath : string) (config : ResolvedConfig) :
  let dir := routeDirOf route projectPath config in
  let ts := Path.join [dir; routeTypeFileName config ++ ".ts"] in
  let tsx := Path.join [dir; routeTypeFileName config ++ ".tsx"] in
  buildPossiblePaths sys (parseRouteSegments route) projectPath config = [ts; tsx]
  /\ resolveRouteToFile sys route projectPath config
     = Some (if fileExists sys ts then {| filePath := ts; exists_ := true |}
             else if fileExists sys tsx then {| filePath := tsx; exists_ := true |}
             else {| filePath := ts; exists_ := false |})
  /\ resolveRouteToFile sys route projectPath config <> None.
Proof.
  intros dir ts tsx.
  pose proof (resolveRouteToFile_eq sys route projectPath config) as H.
  cbv zeta in H. split; [reflexivity|]. split; [exact H|].
  rewrite H. discriminate.
Qed.

(** C5, as amended.  A path returned by [findRouteTypeWithGroups] is the
    definition file ([.ts] or [.tsx]) in the directory reached from the app
    directory through a sequence of directories, each entered either by
    consuming the next route segment or as a grouping directory; the
    consumed ones are exactly the decoded segments of the route, in order,
    the others all carry a grouping name, and so the number of segments is
    the directory depth minus the number of directories entered as grouping
    directories.  When no decoded segment carries a grouping name itself,
    the directories without a grouping name are exactly the segments. *)
Theorem C5_segments_are_the_directly_entered_directories
    (sys : System) (route projectPath : string) (config : ResolvedConfig)
    (fuel : nat) (path : string) :
  findRouteTypeWithGroups fuel sys route projectPath config = Normal (Some path) ->
  (exists hops ext,
      (ext = "ts" \/ ext = "tsx") /\
      path = Path.join [follow (Path.join [projectPath; appDir config]) hops;
                        routeTypeFileName config ++ "." ++ ext] /\
      consumed hops = escapedSegments (parseRouteSegments route) /\
      Forall (fun h => isGroupHop h = true -> isRouteGroup (hopName h) = true) hops /\
      length (escapedSegments (parseRouteSegments route))
      = (length hops - length (filter isGroupHop hops))%nat)
  /\ (forallb (fun segment => negb (isRouteGroup segment))
        (escapedSegments (parseRouteSegments route)) = true ->
      decomposesByName config (Path.join [projectPath; appDir config]) path
        (escapedSegments (parseRouteSegments route))).
Proof.
  unfold findRouteTypeWithGroups. intros H.
  apply searchDir_sound in H; [|apply route_segments_truthy].
  destruct (depthFirst_reaches _ _ _ _ _ H path eq_refl)
    as (hops & ext & Hext & Hpath & Hcons & Hall & _).
  split.
  - exists hops, ext. repeat split; try assumption.
    rewrite <- Hcons. apply consumed_length.
  - intros Hplain. exists (map hopName hops), ext. repeat split; try assumption.
    + now rewrite <- follow_descend.
    + rewrite <- Hcons in *. now apply hops_by_name.
Qed.

Lemma C5_segments_are_the_directly_entered_directories_witness :
  (exists hops ext,
      (ext = "ts" \/ ext = "tsx") /\
      "/project/src/app/(auth)/login/routeType.ts"
      = Path.join [follow "/project/src/app" hops; "routeType" ++ "." ++ ext] /\
      consumed hops = ["login"] /\
      Forall (fun h => isGroupHop h = true -> isRouteGroup (hopName h) = true) hops /\
      1%nat = (length hops - length (filter isGroupHop hops))%nat)
  /\ decomposesByName DEFAULT_CONFIG "/project/src/app"
       "/project/src/app/(auth)/login/routeType.ts" ["login"].
Proof.
  destruct (C5_segments_are_the_directly_entered_directories
              Scenario.authLogin "/login" "/project" DEFAULT_CONFIG 3
              "/project/src/app/(auth)/login/routeType.ts" eq_refl)
    as [Hhops Hnames].
  split; [exact Hhops | exact (Hnames eq_refl)].
Defined.

(** C5, as stated, fails: for the route [/(a)/x] the search returns
    [src/app/(a)/x/routeType.ts], and no way of reading that path as the app
    directory followed by directories leaves the decoded segments [(a)] and
    [x] as the directories without a grouping name, since [(a)] is one. *)
Lemma C5_grouping_name_can_be_a_segment :
  ~ segmentsAreUngroupedDirectories Scenario.groupInRoute "/(a)/x" "/project"
      DEFAULT_CONFIG.
Proof.
  intros H.
  destruct (H 3%nat "/project/src/app/(a)/x/routeType.ts" eq_refl)
    as (dirs & ext & _ & _ & Hfilter).
  assert (Hin : In "(a)" (filter (fun name => negb (isRouteGroup name)) dirs))
    by (rewrite Hfilter; vm_compute; auto).
  apply filter_In in Hin as [_ Hno]. vm_compute in Hno. discriminate.
Qed.

Lemma escapedSegments_verbatim segments :
  Forall (fun seg => Js.includes "%5F" seg = false) segments ->
  escapedSegments segments = segments.
Proof.
  induction 1 as [|seg segments Hseg _ IH]; [reflexivity|].
  unfold escapedSegments in *. cbn [map]. now rewrite IH, replace_5F_verbatim.
Qed.

Lemma parseRouteSegments_single seg :
  Js.truthy seg = true -> Js.sepFree Path.isSlash seg = true ->
  parseRouteSegments ("/" ++ seg) = [seg].
Proof.
  intros Hseg Hfree. unfold parseRouteSegments.
  destruct seg as [|c rest]; [discriminate|].
  cbn [append String.eqb Ascii.eqb Bool.eqb Js.slice1]. 
  replace (String.eqb (String c rest) "") with false by reflexivity.
  cbn [andb]. rewrite splitOn_sepFree by assumption. reflexivity.
Qed.

Lemma replace_5F_escape before x y after :
  Ascii.eqb x "%" = false -> Ascii.eqb y "%" = false ->
  Ascii.eqb x "5" && Ascii.eqb y "F" = false ->
  replace_5F (before ++ String "%" (String x (String y after)))
  = replace_5F before ++ String "%" (String x (String y (replace_5F after))).
Proof.
  intros Hx Hy Hxy. rewrite replace_5F_append by reflexivity.
  rewrite replace_5F_step. cbn [Ascii.eqb Bool.eqb andb].
  replace (Ascii.eqb "%" "%") with true by reflexivity. cbn [andb].
  rewrite Hxy. now rewrite !replace_5F_other by assumption.
Qed.

Lemma isName_kept segment :
  Path.isName segment = true -> staysBelow segment = true /\ keptOf segment = [segment].
Proof.
  intros H. pose proof (isName_inv _ H) as (Hne & Hdot & Hup & Hfree).
  unfold staysBelow, keptOf.
  apply truthy_true in Hne. apply String.eqb_neq in Hdot, Hup.
  now rewrite Hne, Hfree, Hdot, Hup.
Qed.

Lemma names_kept segments :
  forallb Path.isName segments = true ->
  forallb staysBelow segments = true /\ flat_map keptOf segments = segments.
Proof.
  induction segments as [|segment more IH]; [now split|].
  cbn [forallb flat_map]. intros H. apply andb_true_iff in H as [Hseg Hmore].
  destruct (isName_kept _ Hseg) as [Hstays Hkept]. destruct (IH Hmore) as [Hall Hflat].
  now rewrite Hstays, Hall, Hkept, Hflat.
Qed.

(** The candidates, component by component: the components of the app
    directory, then the decoded segments, then the file name. *)
Lemma candidates_components sys route projectPath config :
  forallb Path.isName (escapedSegments (parseRouteSegments route)) = true ->
  Js.sepFree Path.isSlash (routeTypeFileName config) = true ->
  exists isAbsolute trailingSeparator comps,
    Path.join [projectPath; appDir config]
    = Path.assemble isAbsolute trailingSeparator comps
    /\ buildPossiblePaths sys (parseRouteSegments route) projectPath config
       = map (fun ext =>
                (if isAbsolute then "/" else "")
                ++ Js.joinWith "/"
                     (comps ++ escapedSegments (parseRouteSegments route)
                        ++ [routeTypeFileName config ++ "." ++ ext]))
           ["ts"; "tsx"].
Proof.
  intros Hnames Hfile.
  destruct (join_normal_form [projectPath; appDir config])
    as (isAbsolute & trailingSeparator & comps & Happ & Hres).
  exists isAbsolute, trailingSeparator, comps. split; [exact Happ|].
  destruct (names_kept _ Hnames) as [Hstays Hkept].
  assert (Hcand : forall ext, ext = "ts" \/ ext = "tsx" ->
    Spec.definitionFile config (routeDirOf route projectPath config) ext
    = (if isAbsolute then "/" else "")
      ++ Js.joinWith "/"
           (comps ++ escapedSegments (parseRouteSegments route)
              ++ [routeTypeFileName config ++ "." ++ ext])).
  { intros ext Hext.
    destruct (definition_name_staysBelow _ ext Hfile Hext) as [Hname Hnamekept].
    assert (Hpath : Spec.definitionFile config (routeDirOf route projectPath config) ext
                    = Path.assemble isAbsolute false
                        (comps ++ escapedSegments (parseRouteSegments route)
                           ++ [routeTypeFileName config ++ "." ++ ext])).
    { unfold Spec.definitionFile. rewrite routeDirOf_descend, Happ.
      destruct (escapedSegments (parseRouteSegments route)) as [|s more] eqn:Hsegs.
      - cbn [Path.descend fold_left app].
        rewrite join_assemble_staysBelow by assumption. now rewrite Hnamekept.
      - rewrite descend_assemble by (assumption || discriminate).
        rewrite join_assemble_staysBelow;
          [|now apply resolved_kept_all | exact Hname].
        now rewrite Hkept, Hnamekept, <- app_assoc. }
    rewrite Hpath. apply assemble_joinWith.
    - intros H. apply app_eq_nil in H as [_ H]. apply app_eq_nil in H as [_ H].
      discriminate.
    - apply Forall_app. split.
      + apply resolved_components in Hres. apply Forall_rev in Hres.
        rewrite rev_involutive in Hres. revert Hres. apply Forall_impl. now intros c [].
      + apply Forall_app. split.
        * apply Forall_forall. intros s Hs. rewrite forallb_forall in Hnames.
          destruct (isName_inv s (Hnames s Hs)) as (Hne & _). now apply truthy_true.
        * constructor; [|constructor]. apply staysBelow_inv in Hname. tauto. }
  rewrite buildPossiblePaths_eq. cbn [map].
  now rewrite !Hcand by auto.
Qed.

(** C6.  Decoding a segment turns every [%5F] into [_] and nothing else,
    and the decoded segments are what the candidate paths are built from.
    [/%5Finternal] gives [_internal] and [/%5F%5Fdbl] gives [__dbl]; each
    occurrence is replaced and none is left afterwards; any other escape
    [%xy] stays where it is, and a segment without [%5F] is unchanged.  For
    every list of segments [buildPossiblePaths] joins the decoded segments
    to the app directory, so that a segment written [before%5Fafter] gives
    the directory name [before_after] with both parts decoded; and when no
    decoded segment is [.] or [..] and the file name holds no slash, each
    candidate is the components of the app directory, then the decoded
    segments, then the file name, joined by slashes. *)
Theorem C6_only_5F_is_decoded :
  escapedSegments (parseRouteSegments "/%5Finternal") = ["_internal"]
  /\ escapedSegments (parseRouteSegments "/%5F%5Fdbl") = ["__dbl"]
  /\ (forall before after,
        replace_5F (before ++ "%5F" ++ after)
        = replace_5F before ++ "_" ++ replace_5F after)
  /\ (forall seg, Js.includes "%5F" (replace_5F seg) = false)
  /\ (forall seg, Js.includes "%5F" seg = false -> replace_5F seg = seg)
  /\ (forall sys segments projectPath config,
        Forall (fun seg => Js.includes "%5F" seg = false) segments ->
        let appDirPath := Path.join [projectPath; appDir config] in
        let routeDir := if (0 <? length segments)%nat
                        then Path.join (appDirPath :: segments) else appDirPath in
        buildPossiblePaths sys segments projectPath config
        = [ Path.join [routeDir; routeTypeFileName config ++ ".ts"];
            Path.join [routeDir; routeTypeFileName config ++ ".tsx"] ])
  /\ (forall before x y after,
        Ascii.eqb x "%" = false -> Ascii.eqb y "%" = false ->
        Ascii.eqb x "5" && Ascii.eqb y "F" = false ->
        replace_5F (before ++ String "%" (String x (String y after)))
        = replace_5F before ++ String "%" (String x (String y (replace_5F after))))
  /\ (forall sys segments projectPath config,
        let appDirPath := Path.join [projectPath; appDir config] in
        let decoded := map replace_5F segments in
        let routeDir := if (0 <? length decoded)%nat
                        then Path.join (appDirPath :: decoded) else appDirPath in
        buildPossiblePaths sys segments projectPath config
        = [ Path.join [routeDir; routeTypeFileName config ++ ".ts"];
            Path.join [routeDir; routeTypeFileName config ++ ".tsx"] ])
  /\ (forall sys route projectPath config,
        let decoded := map replace_5F (parseRouteSegments route) in
        forallb Path.isName decoded = true ->
        Js.sepFree Path.isSlash (routeTypeFileName config) = true ->
        exists isAbsolute trailingSeparator comps,
          Path.join [projectPath; appDir config]
          = Path.assemble isAbsolute trailingSeparator comps
          /\ buildPossiblePaths sys (parseRouteSegments route) projectPath config
             = map (fun ext =>
                      (if isAbsolute then "/" else "")
                      ++ Js.joinWith "/"
                           (comps ++ decoded ++ [routeTypeFileName config ++ "." ++ ext]))
                 ["ts"; "tsx"])
  /\ (forall sys projectPath config before after,
        Js.sepFree Path.isSlash (before ++ "%5F" ++ after) = true ->
        let dir := Path.join [Path.join [projectPath; appDir config];
                              replace_5F before ++ "_" ++ replace_5F after] in
        buildPossiblePaths sys (parseRouteSegments ("/" ++ before ++ "%5F" ++ after))
          projectPath config
        = [ Path.join [dir; routeTypeFileName config ++ ".ts"];
            Path.join [dir; routeTypeFileName config ++ ".tsx"] ])
  /\ (forall sys,
        buildPossiblePaths sys (parseRouteSegments "/%5Finternal") "/project"
          DEFAULT_CONFIG
        = [ "/project/src/app/_internal/routeType.ts";
            "/project/src/app/_internal/routeType.tsx" ]
        /\ buildPossiblePaths sys (parseRouteSegments "/%5F%5Fdbl/a%20b%5f") "/project"
             DEFAULT_CONFIG
           = [ "/project/src/app/__dbl/a%20b%5f/routeType.ts";
               "/project/src/app/__dbl/a%20b%5f/routeType.tsx" ]).
Proof.
  split; [reflexivity|]. split; [reflexivity|].
  split; [apply replace_5F_occurrence|].
  split; [apply replace_5F_complete|].
  split; [apply replace_5F_verbatim|].
  split.
  { intros sys segments projectPath config Hall. unfold buildPossiblePaths.
    now rewrite escapedSegments_verbatim. }
  split; [apply replace_5F_escape|].
  split; [reflexivity|].
  split; [intros sys route projectPath config; apply candidates_components|].
  split; [|split; vm_compute; reflexivity].
  intros sys projectPath config before after Hfree dir.
  rewrite parseRouteSegments_single;
    [|apply truthy_append_r; reflexivity | exact Hfree].
  unfold buildPossiblePaths, escapedSegments. cbn [map length Nat.ltb Nat.leb].
  now rewrite replace_5F_occurrence.
Qed.

Lemma C6_only_5F_is_decoded_witness :
  replace_5F "a%20b%2Fc" = "a%20b%2Fc"
  /\ buildPossiblePaths Scenario.nothingExists ["a%20b"] "/project" DEFAULT_CONFIG
     = [ "/project/src/app/a%20b/routeType.ts";
         "/project/src/app/a%20b/routeType.tsx" ]
  /\ replace_5F "%5Fa%20b" = "_a%20b"
  /\ buildPossiblePaths Scenario.nothingExists (parseRouteSegments "/x%5Finternal")
       "/project" DEFAULT_CONFIG
     = [ "/project/src/app/x_internal/routeType.ts";
         "/project/src/app/x_internal/routeType.tsx" ]
  /\ exists isAbsolute trailingSeparator comps,
       Path.join ["/project"; "src/app"]
       = Path.assemble isAbsolute trailingSeparator comps
       /\ buildPossiblePaths Scenario.nothingExists
            (parseRouteSegments "/%5Fa/b%2F%5F") "/project" DEFAULT_CONFIG
          = map (fun ext =>
                   (if isAbsolute then "/" else "")
                   ++ Js.joinWith "/" (comps ++ ["_a"; "b%2F_"] ++ ["routeType." ++ ext]))
              ["ts"; "tsx"].
Proof.
  destruct C6_only_5F_is_decoded
    as (_ & _ & _ & _ & Hverbatim & Hpaths & Hescape & _ & Hcomps & Hone & _).
  split; [apply Hverbatim; vm_compute; reflexivity|].
  split.
  { apply (Hpaths Scenario.nothingExists ["a%20b"] "/project" DEFAULT_CONFIG).
    repeat constructor. }
  split.
  { exact (Hescape "%5Fa" "2"%char "0"%char "b" eq_refl eq_refl eq_refl). }
  split.
  { exact (Hone Scenario.nothingExists "/project" DEFAULT_CONFIG "x" "internal"
             eq_refl). }
  exact (Hcomps Scenario.nothingExists "/%5Fa/b%2F%5F" "/project" DEFAULT_CONFIG
           eq_refl eq_refl).
Defined.

(** C7.  A listing that fails never makes [findRouteTypeWithGroups] throw:
    the grouping search of the directory concerned gives null, the whole
    search behaves as if every failing listing were an empty one, and on a
    tree whose grouping directories nest to a bounded depth the search
    returns once the fuel covers that depth. *)
Theorem C7_listing_failure_is_an_empty_listing
    (sys : System) (route projectPath : string) (config : ResolvedConfig) :
  (forall fuel, findRouteTypeWithGroups fuel sys route projectPath config <> Throws)
  /\ (forall fuel,
        findRouteTypeWithGroups fuel sys route projectPath config
        = findRouteTypeWithGroups fuel (withEmptyListings sys) route projectPath config)
  /\ (forall recur dir segments,
        readDirectory sys dir = Raised ->
        groupSearch sys recur dir segments = Normal None)
  /\ (forall rank bound,
        groupsNestWithin sys rank bound ->
        exists result,
          forall fuel,
            (length (escapedSegments (parseRouteSegments route)) * S bound
             + rank (Path.join [projectPath; appDir config]) < fuel)%nat ->
            findRouteTypeWithGroups fuel sys route projectPath config = Normal result).
Proof.
  unfold findRouteTypeWithGroups. repeat split.
  - intros fuel. apply searchDir_never_throws.
  - intros fuel. symmetry. apply searchDir_empty_listing.
  - intros recur dir segments Hraised. unfold groupSearch. now rewrite Hraised.
  - intros rank bound Hnest.
    set (segments := escapedSegments (parseRouteSegments route)).
    set (dir := Path.join [projectPath; appDir config]).
    destruct (searchDir_total sys rank bound config Hnest
                (S (length segments * S bound + rank dir)) dir segments)
      as [result Hresult]; [lia|].
    exists result. intros fuel Hfuel.
    eapply searchDir_more_fuel; [|exact Hresult]. lia.
Qed.

Lemma unreadableGroup_nests :
  groupsNestWithin Scenario.unreadableGroup Scenario.unreadableGroupRank 1.
Proof.
  split.
  - intros dir. unfold Scenario.unreadableGroupRank.
    destruct (String.eqb dir "/project/src/app"); lia.
  - intros dir name (entries & entry & Hread & Hin & Hname & _).
    unfold Scenario.unreadableGroupRank at 2.
    cbn [Scenario.unreadableGroup readDirectory] in Hread.
    destruct (String.eqb_spec dir "/project/src/app") as [->|_].
    + injection Hread as <-.
      destruct Hin as [<-|[<-|[]]]; vm_compute in Hname;
        injection Hname as <-; vm_compute; lia.
    + destruct (String.eqb dir "/project/src/app/(auth)"); [discriminate|].
      injection Hread as <-. destruct Hin.
Qed.

Lemma C7_listing_failure_is_an_empty_listing_witness :
  readDirectory Scenario.unreadableGroup "/project/src/app/(auth)" = Raised
  /\ findRouteTypeWithGroups 3 Scenario.unreadableGroup "/cart" "/project"
       DEFAULT_CONFIG
     = Normal (Some "/project/src/app/(shop)/cart/routeType.ts")
  /\ exists result,
       forall fuel, (1 * 2 + 1 < fuel)%nat ->
         findRouteTypeWithGroups fuel Scenario.unreadableGroup "/cart" "/project"
           DEFAULT_CONFIG = Normal result.
Proof.
  split; [reflexivity|]. split; [vm_compute; reflexivity|].
  destruct (C7_listing_failure_is_an_empty_listing Scenario.unreadableGroup
              "/cart" "/project" DEFAULT_CONFIG) as (_ & _ & _ & Htotal).
  exact (Htotal Scenario.unreadableGroupRank 1%nat unreadableGroup_nests).
Defined.

(** C9, as amended.  A result of [resolveRouteToFile] with [exists = true]
    and path [p] is also what [findRouteTypeWithGroups] returns, once the
    fuel exceeds the number of segments, in either of two cases: when
    [directoryExists] reports every directory of the direct descent (the
    app directory joined with the decoded segments one after the other);
    or when the ancestor directories of every existing file are reported
    as existing, no decoded segment of the route is [..] and
    [routeTypeFileName] holds no slash. *)
Theorem C9_groups_search_refines_direct_resolution
    (sys : System) (route projectPath : string) (config : ResolvedConfig)
    (path : string) (fuel : nat) :
  resolveRouteToFile sys route projectPath config
  = Some {| filePath := path; exists_ := true |} ->
  (length (escapedSegments (parseRouteSegments route)) < fuel)%nat ->
  forallb (directoryExists sys)
    (directDirs (Path.join [projectPath; appDir config])
       (escapedSegments (parseRouteSegments route))) = true
  \/ (ancestorsExist sys
      /\ forallb (fun segment => negb (String.eqb segment ".."))
           (escapedSegments (parseRouteSegments route)) = true
      /\ Js.sepFree Path.isSlash (routeTypeFileName config) = true) ->
  findRouteTypeWithGroups fuel sys route projectPath config = Normal (Some path).
Proof.
  intros Hresolve Hfuel Hcases. unfold findRouteTypeWithGroups.
  set (dir := Path.join [projectPath; appDir config]) in *.
  set (segments := escapedSegments (parseRouteSegments route)) in *.
  rewrite resolveRouteToFile_eq in Hresolve. cbv zeta in Hresolve.
  rewrite routeDirOf_descend in Hresolve. fold dir segments in Hresolve.
  assert (Hfile : firstExisting sys (Path.descend dir segments) config ["ts"; "tsx"]
                  = Some path
                  /\ exists ext,
                       (ext = "ts" \/ ext = "tsx") /\
                       fileExists sys
                         (Spec.definitionFile config (Path.descend dir segments) ext)
                       = true).
  { rewrite firstExisting_two.
    destruct (fileExists sys (Spec.definitionFile config _ "ts")) eqn:Ets.
    - injection Hresolve as ->. split; [reflexivity|]. exists "ts". auto.
    - destruct (fileExists sys (Spec.definitionFile config _ "tsx")) eqn:Etsx.
      + injection Hresolve as ->. split; [reflexivity|]. exists "tsx". auto.
      + discriminate. }
  destruct Hfile as [Hfirst (ext & Hext & Hexists)].
  apply searchDir_direct; try assumption; [apply route_segments_truthy|].
  destruct Hcases as [Hdirs|(Hancestors & Hup & Hname)]; [exact Hdirs|].
  eapply directDirs_exist; try eassumption.
  now apply route_segments_staysBelow.
Qed.

(** For a file system with a single file and a list of directories, the
    ancestors can be checked among the prefixes of the file's path. *)
Lemma ancestorsExist_single file dirs listing :
  forallb (fun dir => implb (isAncestorOf dir file) (Scenario.among dirs dir))
    ("." :: prefixes file) = true ->
  ancestorsExist {| fileExists := Scenario.among [file];
                    directoryExists := Scenario.among dirs;
                    readDirectory := listing |}.
Proof.
  intros Hall existing dir Hfile Hancestor.
  cbn [fileExists directoryExists] in *.
  unfold Scenario.among in Hfile. cbn [existsb] in Hfile.
  rewrite orb_false_r in Hfile. apply String.eqb_eq in Hfile. subst existing.
  assert (Hin : In dir ("." :: prefixes file)).
  { unfold isAncestorOf in Hancestor.
    apply andb_true_iff in Hancestor as [_ Hancestor].
    apply orb_true_iff in Hancestor as [Hancestor|H].
    - right. apply orb_true_iff in Hancestor as [H|H].
      + now apply startsWith_prefixes, (startsWith_app_l dir "/").
      + apply andb_true_iff in H as [H Hroot]. apply String.eqb_eq in H. subst dir.
        now apply startsWith_prefixes.
    - left. apply andb_true_iff in H as [H _]. apply String.eqb_eq in H. now subst. }
  rewrite forallb_forall in Hall. specialize (Hall dir Hin).
  now rewrite Hancestor in Hall.
Qed.

Lemma rootOnly_ancestorsExist : ancestorsExist Scenario.rootOnly.
Proof. apply ancestorsExist_single. vm_compute. reflexivity. Qed.

Lemma C9_groups_search_refines_direct_resolution_witness :
  findRouteTypeWithGroups 2 Scenario.onlyTsx "/users" "/project" DEFAULT_CONFIG
  = Normal (Some "/project/src/app/users/routeType.tsx").
Proof.
  apply C9_groups_search_refines_direct_resolution.
  - vm_compute. reflexivity.
  - vm_compute. lia.
  - right. split; [|split].
    + apply ancestorsExist_single. vm_compute. reflexivity.
    + vm_compute. reflexivity.
    + vm_compute. reflexivity.
Defined.

(** C9, as stated, fails: with the route [/a/..] the direct resolution
    normalises its path to [src/app/routeType.ts], which exists together
    with all its ancestor directories, while the search stops at the
    missing directory [src/app/a] and returns null. *)
Lemma C9_parent_segment_breaks_refinement :
  ~ searchRefinesDirectResolution Scenario.rootOnly "/a/.." "/project"
      DEFAULT_CONFIG.
Proof.
  intros H.
  destruct (H rootOnly_ancestorsExist "/project/src/app/routeType.ts" eq_refl)
    as [fuel Hfound].
  destruct fuel as [|fuel]; [discriminate|].
  vm_compute in Hfound. discriminate.
Qed.

(** C10.  Decoding tells upper case from lower case in both resolvers, for
    every segment of every route.  In a segment an upper-case [%5F] becomes
    [_], so that none is left, and a lower-case [%5f] stays as it is, with
    what stands before and after it decoded.  The segments so decoded, one
    for one, are what [buildPossiblePaths] joins to the app directory, what
    the path of every resolution of [resolveRouteToFile] is built from, and
    what [findRouteTypeWithGroups] searches for: the directories that a
    path it returns enters by direct descent are the decoded segments; and
    when no decoded segment is [.] or [..] and the file name holds no
    slash, each candidate is the components of the app directory, then the
    decoded segments, then the file name, joined by slashes. *)
Theorem C10_lowercase_escape_is_kept
    (sys : System) (route projectPath : string) (config : ResolvedConfig) :
  let segments := parseRouteSegments route in
  let decoded := map replace_5F segments in
  let appDirPath := Path.join [projectPath; appDir config] in
  let routeDir := if (0 <? length decoded)%nat
                  then Path.join (appDirPath :: decoded) else appDirPath in
  let candidates := [ Path.join [routeDir; routeTypeFileName config ++ ".ts"];
                      Path.join [routeDir; routeTypeFileName config ++ ".tsx"] ] in
  (forall seg,
      Js.includes "%5F" (replace_5F seg) = false
      /\ (forall before after,
            seg = before ++ "%5F" ++ after ->
            replace_5F seg = replace_5F before ++ "_" ++ replace_5F after)
      /\ (forall before after,
            seg = before ++ "%5f" ++ after ->
            replace_5F seg = replace_5F before ++ "%5f" ++ replace_5F after)
      /\ (Js.includes "%5F" seg = false -> replace_5F seg = seg))
  /\ length decoded = length segments
  /\ buildPossiblePaths sys segments projectPath config = candidates
  /\ (exists resolution,
        resolveRouteToFile sys route projectPath config = Some resolution
        /\ In (filePath resolution) candidates)
  /\ (forall fuel,
        findRouteTypeWithGroups fuel sys route projectPath config
        = searchDir fuel sys appDirPath decoded config)
  /\ (forall fuel path,
        findRouteTypeWithGroups fuel sys route projectPath config = Normal (Some path) ->
        reaches sys config appDirPath decoded path)
  /\ (forallb Path.isName decoded = true ->
      Js.sepFree Path.isSlash (routeTypeFileName config) = true ->
      exists isAbsolute trailingSeparator comps,
        appDirPath = Path.assemble isAbsolute trailingSeparator comps
        /\ candidates
           = map (fun ext =>
                    (if isAbsolute then "/" else "")
                    ++ Js.joinWith "/"
                         (comps ++ decoded ++ [routeTypeFileName config ++ "." ++ ext]))
               ["ts"; "tsx"])
  /\ (Forall (fun s => Js.includes "%5F" s = false) segments -> decoded = segments)
  /\ (forall before after,
        route = "/" ++ before ++ "%5f" ++ after ->
        Js.sepFree Path.isSlash (before ++ "%5f" ++ after) = true ->
        decoded = [replace_5F before ++ "%5f" ++ replace_5F after]).
Proof.
  intros segments decoded appDirPath routeDir candidates.
  split.
  { intros seg. split; [apply replace_5F_complete|].
    split; [intros before after ->; apply replace_5F_occurrence|].
    split; [intros before after ->; apply replace_5F_lowercase|].
    apply replace_5F_verbatim. }
  split; [apply length_map|].
  assert (Hpaths : buildPossiblePaths sys segments projectPath config = candidates)
    by reflexivity.
  split; [exact Hpaths|]. split.
  { unfold resolveRouteToFile. fold segments. rewrite Hpaths.
    subst candidates. cbn [find].
    destruct (fileExists sys _); [eexists; split; [reflexivity|]; cbn; auto|].
    destruct (fileExists sys _); eexists; (split; [reflexivity|]); cbn; auto. }
  split; [reflexivity|]. split.
  { intros fuel path Hfound. unfold findRouteTypeWithGroups in Hfound.
    apply searchDir_sound in Hfound; [|apply route_segments_truthy].
    exact (depthFirst_reaches _ _ _ _ _ Hfound path eq_refl). }
  split.
  { intros Hnames Hfile.
    destruct (candidates_components sys route projectPath config Hnames Hfile)
      as (isAbsolute & trailingSeparator & comps & Happ & Hcands).
    exists isAbsolute, trailingSeparator, comps. split; [exact Happ|].
    exact (eq_trans (eq_sym Hpaths) Hcands). }
  split; [apply escapedSegments_verbatim|].
  intros before after Hroute Hfree. subst decoded segments. rewrite Hroute.
  rewrite parseRouteSegments_single;
    [|apply truthy_append_r; reflexivity | exact Hfree].
  cbn [map]. now rewrite replace_5F_lowercase.
Qed.

Lemma C10_lowercase_escape_is_kept_witness :
  replace_5F "%5Fa" = "_a"
  /\ replace_5F "%5fb" = "%5fb"
  /\ buildPossiblePaths Fixture.mixedEscapes (parseRouteSegments "/%5Fa/%5fb") "/project"
       DEFAULT_CONFIG
     = [ "/project/src/app/_a/%5fb/routeType.ts";
         "/project/src/app/_a/%5fb/routeType.tsx" ]
  /\ resolveRouteToFile Fixture.mixedEscapes "/%5Fa/%5fb" "/project" DEFAULT_CONFIG
     = Some {| filePath := "/project/src/app/_a/%5fb/routeType.ts"; exists_ := true |}
  /\ findRouteTypeWithGroups 3 Fixture.mixedEscapes "/%5Fa/%5fb" "/project" DEFAULT_CONFIG
     = Normal (Some "/project/src/app/_a/%5fb/routeType.ts")
  /\ reaches Fixture.mixedEscapes DEFAULT_CONFIG "/project/src/app" ["_a"; "%5fb"]
       "/project/src/app/_a/%5fb/routeType.ts"
  /\ map replace_5F (parseRouteSegments "/%5finternal") = ["%5finternal"]
  /\ resolveRouteToFile Scenario.lowercaseEscape "/%5finternal" "/project"
       DEFAULT_CONFIG
     = Some {| filePath := "/project/src/app/%5finternal/routeType.ts";
               exists_ := true |}.
Proof.
  destruct (C10_lowercase_escape_is_kept Fixture.mixedEscapes "/%5Fa/%5fb" "/project"
              DEFAULT_CONFIG)
    as (Hseg & _ & Hpaths & _ & Hsearch & Hreach & _).
  split; [exact (proj1 (proj2 (Hseg "%5Fa")) "" "a" eq_refl)|].
  split; [exact (proj1 (proj2 (proj2 (Hseg "%5fb"))) "" "b" eq_refl)|].
  split; [exact Hpaths|].
  split; [vm_compute; reflexivity|].
  split; [rewrite Hsearch; vm_compute; reflexivity|].
  split; [apply (Hreach 3%nat); vm_compute; reflexivity|].
  destruct (C10_lowercase_escape_is_kept Scenario.lowercaseEscape "/%5finternal"
              "/project" DEFAULT_CONFIG)
    as (_ & _ & _ & _ & _ & _ & _ & _ & Hone).
  split; [exact (Hone "" "internal" eq_refl eq_refl)|].
  vm_compute. reflexivity.
Defined.

Import Detector.

(** C4.  A detection succeeds only on a string literal that is the value
    bound to a property called exactly [route], written [route: value] or
    as a shorthand binding named [route]; when the literal found sits under
    a binding of any other name, the answer is null. *)
Theorem C4_only_route_property_values
    (sourceFile : SourceFile) (position : Z) :
  (forall info,
      detectRouteString sourceFile position = Some info ->
      exists range text parent above,
        findTokenAtPosition sourceFile position
        = Some (StringLiteral range text, parent :: above)
        /\ boundToRoute parent (StringLiteral range text))
  /\ (forall token parent above name,
        findTokenAtPosition sourceFile position = Some (token, parent :: above) ->
        propertyNameOf parent = Some name -> name <> "route" ->
        detectRouteString sourceFile position = None).
Proof.
  split.
  - intros info Hdetect.
    destruct (detect_inv _ _ _ Hdetect) as (range & text & parents & Hfind & Hprop & _).
    destruct parents as [|parent above]; [discriminate Hprop|].
    exists range, text, parent, above. split; [exact Hfind|].
    apply isRoutePropertyValue_bound; [exact Hprop|].
    unfold findTokenAtPosition in Hfind.
    destruct (find_origin _ _ _ _ _ Hfind) as [[_ Hnil]|(p & a & Hchain & Hin)];
      [discriminate Hnil|].
    now injection Hchain as <- <-.
  - intros token parent above name Hfind Hname Hother.
    unfold detectRouteString. rewrite Hfind.
    destruct token; try reflexivity.
    cbn [hd_error]. now rewrite (isRoutePropertyValue_other _ _ Hname Hother).
Qed.

Lemma C4_only_route_property_values_witness :
  (exists range text parent above,
      findTokenAtPosition Example.pathCallFile 18
      = Some (StringLiteral range text, parent :: above)
      /\ boundToRoute parent (StringLiteral range text))
  /\ detectRouteString Example.otherPropertyFile 35 = None.
Proof.
  split.
  - eapply (proj1 (C4_only_route_property_values Example.pathCallFile 18)).
    vm_compute. reflexivity.
  - eapply (proj2 (C4_only_route_property_values Example.otherPropertyFile 35)
              _ _ _ "name").
    + vm_compute. reflexivity.
    + reflexivity.
    + discriminate.
Defined.



(* ================================================================== *)
(** ** Further facts about segments, listings, tokens and the plugin *)
(* ================================================================== *)

Module SegmentFacts.
Import Js Path Resolver JsFacts PathFacts ResolverFacts.

Lemma parseRouteSegments_sepFree route :
  Forall (fun s => sepFree isSlash s = true) (parseRouteSegments route).
Proof.
  unfold parseRouteSegments. destruct (String.eqb route "/"); [constructor|].
  apply Forall_forall. intros s Hs. apply filter_In in Hs as [Hs _].
  pose proof (splitOn_pieces_sepFree isSlash (slice1 route)) as Hall.
  rewrite Forall_forall in Hall. now apply Hall.
Qed.

Lemma filter_truthy_all segments :
  Forall (fun s => truthy s = true) segments -> filter truthy segments = segments.
Proof.
  induction 1 as [|s segments Hs _ IH]; [reflexivity|].
  cbn [filter]. now rewrite Hs, IH.
Qed.

Lemma parseRouteSegments_cons c rest :
  parseRouteSegments (String c rest) = pieces rest.
Proof.
  unfold parseRouteSegments, pieces. cbn [slice1].
  destruct (String.eqb_spec (String c rest) "/") as [E|_]; [|reflexivity].
  injection E as -> ->. reflexivity.
Qed.

Lemma pieces_app a b : pieces (a ++ "/" ++ b) = (pieces a ++ pieces b)%list.
Proof.
  unfold pieces. change ("/" ++ b) with (String "/"%char b).
  rewrite splitOn_app by reflexivity. apply filter_app.
Qed.

Lemma replace_5F_length_bounded n seg :
  (String.length seg <= n)%nat ->
  (String.length (replace_5F seg) <= String.length seg)%nat.
Proof.
  revert seg. induction n as [|n IH]; intros seg Hlen.
  - destruct seg; [cbn; lia | simpl in Hlen; lia].
  - destruct seg as [|c t]; [cbn; lia|].
    destruct (replace_5F_head c t) as [(rest & Heq & ->)|[_ ->]].
    + rewrite Heq in *. cbn [append String.length] in *.
      specialize (IH rest). lia.
    + cbn [String.length] in *. specialize (IH t). lia.
Qed.

End SegmentFacts.

Module ResultFacts.
Import Js Path Resolver JsFacts PathFacts ResolverFacts SegmentFacts.

Lemma groupLoop_group_entries f dir segments entries :
  groupLoop f dir segments (filter namesGroup entries)
  = groupLoop f dir segments entries.
Proof.
  induction entries as [|entry more IH]; [reflexivity|].
  cbn [filter]. unfold namesGroup at 1.
  destruct (dirNameOf entry) as [dirName|] eqn:Hname.
  - destruct (isRouteGroup dirName) eqn:Hgroup.
    + cbn [groupLoop]. rewrite Hname, Hgroup, IH. reflexivity.
    + cbn [groupLoop]. rewrite Hname, Hgroup. exact IH.
  - cbn [groupLoop]. rewrite Hname. exact IH.
Qed.

Lemma groupLoop_ext f g dir segments entries :
  (forall d s, f d s = g d s) ->
  groupLoop f dir segments entries = groupLoop g dir segments entries.
Proof.
  intros Hfg. induction entries as [|entry more IH]; cbn [groupLoop]; [reflexivity|].
  destruct (dirNameOf entry) as [dirName|]; [|exact IH].
  destruct (isRouteGroup dirName); [|exact IH].
  now rewrite Hfg, IH.
Qed.

Lemma searchBody_group_entries sys config f g dir segments :
  (forall d s, f d s = g d s) ->
  searchBody (withGroupEntriesOnly sys) config f dir segments
  = searchBody sys config g dir segments.
Proof.
  intros Hfg. unfold searchBody.
  destruct segments as [|nextSegment rest]; [reflexivity|].
  cbn [directoryExists withGroupEntriesOnly]. rewrite Hfg.
  assert (Hgroups : groupSearch (withGroupEntriesOnly sys) f dir (nextSegment :: rest)
                    = groupSearch sys g dir (nextSegment :: rest)).
  { unfold groupSearch. cbn [readDirectory withGroupEntriesOnly].
    destruct (readDirectory sys dir) as [entries|]; [|reflexivity].
    now rewrite groupLoop_group_entries, (groupLoop_ext f g). }
  now rewrite Hgroups.
Qed.

(** Without grouping directories the search can only descend directly. *)
Lemma depthFirst_direct sys config dir segments result :
  noGroupListed sys ->
  Spec.depthFirst sys config dir segments result ->
  forall path, result = Some path ->
  firstExisting sys (descend dir segments) config ["ts"; "tsx"] = Some path.
Proof.
  intros Hno. revert dir segments result.
  apply (Spec.depthFirst_mut sys config
    (fun dir segments result =>
       forall path, result = Some path ->
       firstExisting sys (descend dir segments) config ["ts"; "tsx"] = Some path)
    (fun dir segments names result =>
       forallb (fun name => negb (isRouteGroup name)) names = true ->
       result = None)).
  - intros dir Hts path [= <-]. rewrite firstExisting_two.
    cbn [descend fold_left]. now rewrite Hts.
  - intros dir Hts Htsx path [= <-]. rewrite firstExisting_two.
    cbn [descend fold_left]. now rewrite Hts, Htsx.
  - intros; discriminate.
  - intros dir head rest path _ _ IH p Hp. exact (IH p Hp).
  - intros dir head rest result _ _ IH path ->. discriminate (IH (Hno dir)).
  - intros dir head rest result _ _ _ _ IH path ->. discriminate (IH (Hno dir)).
  - reflexivity.
  - intros dir segments name names result _ _ IH Hall.
    cbn [forallb] in Hall. apply andb_true_iff in Hall as [_ Hall]. now apply IH.
  - intros dir segments name names path Hyes _ _ Hall.
    cbn [forallb] in Hall. apply andb_true_iff in Hall as [Hname _].
    apply isRouteGroup_spec in Hyes. rewrite Hyes in Hname. discriminate.
  - intros dir segments name names result Hyes _ _ _ _ Hall.
    cbn [forallb] in Hall. apply andb_true_iff in Hall as [Hname _].
    apply isRouteGroup_spec in Hyes. rewrite Hyes in Hname. discriminate.
Qed.

End ResultFacts.

Module EntryFacts.
Import Js Path Resolver JsFacts PathFacts ResolverFacts SegmentFacts ResultFacts.

Lemma sepFree_weaken (p q : ascii -> bool) s :
  (forall c, q c = true -> p c = true) ->
  sepFree p s = true -> sepFree q s = true.
Proof.
  intros Hpq. induction s as [|c rest IH]; [reflexivity|]. cbn [sepFree].
  intros H. apply andb_true_iff in H as [Hc Hrest].
  rewrite (IH Hrest), andb_true_r.
  destruct (q c) eqn:Hq; [|reflexivity]. now rewrite (Hpq c Hq) in Hc.
Qed.

Lemma isSlash_isSeparator c : isSlash c = true -> isSeparator c = true.
Proof. unfold isSlash, isSeparator. now intros ->. Qed.

Lemma dirNameOf_some entry name :
  dirNameOf entry = Some name ->
  truthy name = true /\ sepFree isSeparator name = true.
Proof.
  unfold dirNameOf.
  pose proof (splitOn_pieces_sepFree isSeparator entry) as Hall.
  rewrite Forall_forall in Hall.
  assert (Hrev : forall piece, In piece (rev (splitOn isSeparator entry)) ->
                               sepFree isSeparator piece = true).
  { intros piece Hin. apply Hall. now apply in_rev. }
  destruct (rev (splitOn isSeparator entry)) as [|last before]; [discriminate|].
  destruct (truthy last) eqn:Hlast.
  - intros [= <-]. split; [exact Hlast | apply Hrev; now left].
  - destruct before as [|prev before]; [discriminate|].
    destruct (truthy prev) eqn:Hprev; [|discriminate].
    intros [= <-]. split; [exact Hprev | apply Hrev; right; now left].
Qed.

Lemma dirNameOf_last c prefix name :
  isSeparator c = true -> truthy name = true -> sepFree isSeparator name = true ->
  dirNameOf (prefix ++ String c name) = Some name.
Proof.
  intros Hc Hname Hfree. unfold dirNameOf.
  rewrite splitOn_app by exact Hc. rewrite (splitOn_sepFree _ _ Hfree).
  rewrite rev_app_distr. cbn [rev app]. now rewrite Hname.
Qed.

Lemma namesOf_components entries :
  Forall (fun name => truthy name = true /\ sepFree isSeparator name = true)
    (namesOf entries).
Proof.
  unfold namesOf. apply Forall_forall. intros name Hin.
  apply in_flat_map in Hin as (entry & _ & Hin).
  destruct (dirNameOf entry) as [n|] eqn:Hname; [|contradiction].
  destruct Hin as [<-|[]]. now apply (dirNameOf_some entry).
Qed.

Lemma listedNames_components sys dir :
  Forall (fun name => truthy name = true /\ sepFree isSeparator name = true)
    (Spec.listedNames sys dir).
Proof.
  unfold Spec.listedNames. destruct (readDirectory sys dir); [|constructor].
  apply namesOf_components.
Qed.

Lemma group_name_staysBelow name :
  truthy name = true -> sepFree isSeparator name = true ->
  isRouteGroup name = true ->
  staysBelow name = true /\ keptOf name = [name].
Proof.
  intros Ht Hfree Hgroup.
  assert (Hslash : sepFree isSlash name = true).
  { revert Hfree. apply sepFree_weaken, isSlash_isSeparator. }
  destruct name as [|c interior]; [discriminate|]. cbn [isRouteGroup] in Hgroup.
  apply andb_true_iff in Hgroup as [Hgroup _].
  apply andb_true_iff in Hgroup as [Hopen _]. apply Ascii.eqb_eq in Hopen. subst c.
  unfold staysBelow, keptOf. rewrite Ht, Hslash. split; reflexivity.
Qed.

Lemma isComponent_staysBelow segment :
  staysBelow segment = true -> forall kept, In kept (keptOf segment) ->
  isComponent kept = true.
Proof.
  intros H kept Hin. apply staysBelow_inv in H as (Ht & Hf & _).
  unfold keptOf in Hin. destruct (String.eqb segment "."); [contradiction|].
  destruct Hin as [<-|[]]. unfold isComponent. now rewrite Ht, Hf.
Qed.

(** Every result of the search from a normalised directory is that directory
    followed by further components, the last one the definition file. *)
Lemma depthFirst_below sys config dir segments result :
  sepFree isSlash (routeTypeFileName config) = true ->
  Spec.depthFirst sys config dir segments result ->
  forall isAbsolute trailingSeparator comps path,
    dir = assemble isAbsolute trailingSeparator comps ->
    resolved (negb isAbsolute) (rev comps) ->
    forallb staysBelow segments = true ->
    result = Some path ->
    exists extra,
      extra <> [] /\ Forall (fun c => isComponent c = true) extra /\
      path = assemble isAbsolute false (comps ++ extra)%list.
Proof.
  intros Hfile. revert dir segments result.
  apply (Spec.depthFirst_mut sys config
    (fun dir segments result =>
       forall isAbsolute trailingSeparator comps path,
         dir = assemble isAbsolute trailingSeparator comps ->
         resolved (negb isAbsolute) (rev comps) ->
         forallb staysBelow segments = true ->
         result = Some path ->
         exists extra,
           extra <> [] /\ Forall (fun c => isComponent c = true) extra /\
           path = assemble isAbsolute false (comps ++ extra)%list)
    (fun dir segments names result =>
       forall isAbsolute trailingSeparator comps path,
         dir = assemble isAbsolute trailingSeparator comps ->
         resolved (negb isAbsolute) (rev comps) ->
         forallb staysBelow segments = true ->
         Forall (fun name => truthy name = true /\ sepFree isSeparator name = true)
           names ->
         result = Some path ->
         exists extra,
           extra <> [] /\ Forall (fun c => isComponent c = true) extra /\
           path = assemble isAbsolute false (comps ++ extra)%list)).
  - intros dir _ isAbsolute trailingSeparator comps path -> Hres _ [= <-].
    destruct (definition_name_staysBelow _ "ts" Hfile (or_introl eq_refl))
      as [Hstays Hkept].
    exists [routeTypeFileName config ++ "." ++ "ts"]. split; [discriminate|]. split.
    + constructor; [|constructor].
      apply (isComponent_staysBelow _ Hstays). rewrite Hkept. now left.
    + unfold Spec.definitionFile.
      rewrite join_assemble_staysBelow by assumption. now rewrite Hkept.
  - intros dir _ _ isAbsolute trailingSeparator comps path -> Hres _ [= <-].
    destruct (definition_name_staysBelow _ "tsx" Hfile (or_intror eq_refl))
      as [Hstays Hkept].
    exists [routeTypeFileName config ++ "." ++ "tsx"]. split; [discriminate|]. split.
    + constructor; [|constructor].
      apply (isComponent_staysBelow _ Hstays). rewrite Hkept. now left.
    + unfold Spec.definitionFile.
      rewrite join_assemble_staysBelow by assumption. now rewrite Hkept.
  - intros; discriminate.
  - intros dir head rest path _ _ IH isAbsolute trailingSeparator comps p -> Hres Hall
      [= <-].
    cbn [forallb] in Hall. apply andb_true_iff in Hall as [Hhead Hrest].
    destruct (IH isAbsolute false (comps ++ keptOf head)%list path) as (extra & Hne & Hall & ->);
      [now rewrite join_assemble_staysBelow | now apply resolved_keptOf
      | exact Hrest | reflexivity |].
    exists (keptOf head ++ extra)%list. split; [|split].
    + intros H. apply app_eq_nil in H as [_ H]. contradiction.
    + apply Forall_app. split; [|exact Hall].
      apply Forall_forall. now apply isComponent_staysBelow.
    + now rewrite app_assoc.
  - intros dir head rest result _ _ IH isAbsolute trailingSeparator comps path Hdir Hres
      Hall ->.
    apply (IH isAbsolute trailingSeparator comps path Hdir Hres Hall);
      [apply listedNames_components | reflexivity].
  - intros dir head rest result _ _ _ _ IH isAbsolute trailingSeparator comps path Hdir
      Hres Hall ->.
    apply (IH isAbsolute trailingSeparator comps path Hdir Hres Hall);
      [apply listedNames_components | reflexivity].
  - intros; discriminate.
  - intros dir segments name names result _ _ IH isAbsolute trailingSeparator comps path
      Hdir Hres Hall Hnames ->.
    apply (IH isAbsolute trailingSeparator comps path Hdir Hres Hall);
      [now inversion Hnames | reflexivity].
  - intros dir segments name names path Hyes _ IH isAbsolute trailingSeparator comps p ->
      Hres Hall Hnames [= <-].
    apply isRouteGroup_spec in Hyes.
    inversion Hnames as [|? ? [Ht Hfree] _]; subst.
    destruct (group_name_staysBelow name Ht Hfree Hyes) as [Hstays Hkept].
    destruct (IH isAbsolute false (comps ++ [name])%list path) as (extra & Hne & Hextra & ->);
      [rewrite join_assemble_staysBelow by assumption; now rewrite Hkept
      | rewrite <- Hkept; now apply resolved_keptOf
      | exact Hall | reflexivity |].
    exists (name :: extra). split; [discriminate|]. split.
    + constructor; [|exact Hextra].
      apply (isComponent_staysBelow _ Hstays). rewrite Hkept. now left.
    + now rewrite <- app_assoc.
  - intros dir segments name names result _ _ _ _ IH isAbsolute trailingSeparator comps
      path Hdir Hres Hall Hnames ->.
    apply (IH isAbsolute trailingSeparator comps path Hdir Hres Hall);
      [now inversion Hnames | reflexivity].
Qed.

Lemma directoryOf_assemble isAbsolute trailingSeparator comps :
  resolved (negb isAbsolute) (rev comps) ->
  directoryOf (assemble isAbsolute trailingSeparator comps)
  = assemble isAbsolute false comps.
Proof.
  intros Hres. unfold directoryOf.
  rewrite join_assemble_staysBelow by (assumption || reflexivity).
  cbn [keptOf String.eqb Ascii.eqb Bool.eqb]. now rewrite app_nil_r.
Qed.

Lemma below_isAncestorOf isAbsolute comps extra :
  resolved (negb isAbsolute) (rev comps) ->
  extra <> [] -> Forall (fun c => isComponent c = true) extra ->
  isAncestorOf (assemble isAbsolute false comps)
               (assemble isAbsolute false (comps ++ extra)%list) = true.
Proof.
  intros Hres Hne Hextra. apply assemble_isAncestorOf; [exact Hne|].
  apply Forall_app. split.
  - apply resolved_components in Hres. apply Forall_rev in Hres.
    now rewrite rev_involutive in Hres.
  - revert Hextra. apply Forall_impl. intros c H. unfold isComponent in H.
    now apply andb_true_iff in H.
Qed.

End EntryFacts.

Module TokenFacts.
Import Detector JsFacts DetectorFacts.

Lemma Node_children_ind (P : Node -> Prop) :
  (forall node, (forall child, In child (childrenOf node) -> P child) -> P node) ->
  forall node, P node.
Proof.
  intros Hstep. induction node using Node_induction; apply Hstep; cbn [childrenOf].
  - intros child [].
  - intros child [].
  - intros child [<-|[<-|[]]]; assumption.
  - destruct initializer as [value|].
    + intros child [<-|[<-|[]]]; [apply Hstep; intros c []|now apply H].
    + intros child [<-|[]]. apply Hstep. intros c [].
  - intros child [<-|Hin]; [assumption|].
    rewrite Forall_forall in H. now apply H.
  - intros child [<-|[<-|[]]]; [assumption|]. apply Hstep. intros c [].
  - rewrite Forall_forall in H. exact H.
Qed.

Lemma orElse_default {A} (first : option A) (fallback : A) :
  orElse first (Some fallback) <> None.
Proof. destruct first; discriminate. Qed.

Lemma find_none position parents node :
  find position parents node = None <-> contains position node = false.
Proof.
  destruct node; cbn [find]; destruct (contains position _) eqn:Hin;
    split; intros H; try reflexivity; try discriminate;
    now apply orElse_default in H.
Qed.

Lemma find_leaf position parents id :
  find position parents (IdentifierNode id)
  = if contains position (IdentifierNode id)
    then Some (IdentifierNode id, parents) else None.
Proof. reflexivity. Qed.

Lemma firstResult_find position chain nodes :
  firstResult (find position chain) nodes
  = match List.find (contains position) nodes with
    | Some child => find position chain child
    | None => None
    end.
Proof.
  induction nodes as [|child more IH]; [reflexivity|].
  cbn [firstResult List.find]. destruct (contains position child) eqn:Hin.
  - destruct (find position chain child) eqn:Hfind; [reflexivity|].
    apply find_none in Hfind. congruence.
  - apply (find_none position chain) in Hin. rewrite Hin. exact IH.
Qed.

Lemma find_hit position chain node :
  contains position node = true ->
  exists result, find position chain node = Some result.
Proof.
  intros Hin. destruct (find position chain node) as [result|] eqn:Hfind;
    [now exists result|].
  apply find_none in Hfind. congruence.
Qed.

Lemma find_miss position chain node :
  contains position node = false -> find position chain node = None.
Proof. apply find_none. Qed.

Ltac visit_child position chain child :=
  let Hchild := fresh "Hchild" in
  destruct (contains position child) eqn:Hchild;
  [ let result := fresh "result" in
    destruct (find_hit position chain child Hchild) as [result ->]
  | rewrite ?(find_miss position chain child Hchild) ].

(** One level of the descent. *)
Lemma find_step position parents node :
  contains position node = true ->
  find position parents node
  = match firstChildAt position node with
    | Some child => find position (node :: parents) child
    | None => Some (node, parents)
    end.
Proof.
  intros Hin. unfold firstChildAt.
  destruct node as [range text|id|range name initializer|range name initializer
                   |range expression arguments|range expression name|range children];
    cbn [find]; rewrite Hin; cbn [childrenOf List.find].
  - reflexivity.
  - reflexivity.
  - visit_child position (PropertyAssignment range name initializer :: parents) name;
      [reflexivity|].
    visit_child position (PropertyAssignment range name initializer :: parents)
      initializer; reflexivity.
  - destruct initializer as [value|]; cbn [childrenOf List.find];
      destruct (contains position (IdentifierNode name)) eqn:Hname;
      rewrite ?find_leaf, ?Hname; try reflexivity.
    cbn [orElse].
    visit_child position
      (ShorthandPropertyAssignment range name (Some value) :: parents) value;
      reflexivity.
  - rewrite firstResult_find.
    visit_child position (CallExpression range expression arguments :: parents)
      expression; [reflexivity|].
    destruct (List.find (contains position) arguments) as [child|] eqn:Hargs;
      [|reflexivity].
    apply find_some in Hargs as [_ Hchild'].
    destruct (find_hit position (CallExpression range expression arguments :: parents)
                child Hchild') as [result ->].
    reflexivity.
  - visit_child position (PropertyAccessExpression range expression name :: parents)
      expression; [reflexivity|].
    destruct (contains position (IdentifierNode name)) eqn:Hname;
      rewrite ?find_leaf, ?Hname; reflexivity.
  - rewrite firstResult_find.
    destruct (List.find (contains position) children) as [child|] eqn:Hkids;
      [|reflexivity].
    apply find_some in Hkids as [_ Hchild'].
    destruct (find_hit position (OtherNode range children :: parents) child Hchild')
      as [result ->].
    reflexivity.
Qed.

Lemma last_cons_default {A} (x : A) l d d' : last (x :: l) d = last (x :: l) d'.
Proof.
  revert x. induction l as [|y l IH]; intros x; [reflexivity|].
  change (last (y :: l) d = last (y :: l) d'). apply IH.
Qed.

Lemma descendsTo_snoc position token ancestors child node :
  descendsTo position token ancestors ->
  last (token :: ancestors) token = child ->
  firstChildAt position node = Some child ->
  descendsTo position token (ancestors ++ [node])
  /\ last (token :: ancestors ++ [node]) token = node.
Proof.
  intros Hdesc Hlast Hfirst. split; [|now rewrite app_comm_cons, last_last].
  revert token Hdesc Hlast.
  induction ancestors as [|parent above IH]; intros token Hdesc Hlast.
  - cbn in Hlast. subst child. cbn. auto.
  - cbn [descendsTo] in Hdesc. destruct Hdesc as [Hparent Habove].
    change (last (token :: parent :: above) token) with (last (parent :: above) token)
      in Hlast.
    rewrite (last_cons_default parent above token parent) in Hlast.
    cbn [app descendsTo]. split; [exact Hparent|]. now apply IH.
Qed.

Lemma find_descent position node :
  forall parents token chain,
    find position parents node = Some (token, chain) ->
    exists ancestors,
      chain = (ancestors ++ parents)%list /\
      descendsTo position token ancestors /\
      last (token :: ancestors) token = node /\
      contains position token = true /\
      firstChildAt position token = None /\
      Forall (fun ancestor => contains position ancestor = true) ancestors.
Proof.
  induction node as [node IH] using Node_children_ind. intros parents token chain Hfind.
  destruct (contains position node) eqn:Hin;
    [|apply (find_none position parents) in Hin; congruence].
  rewrite find_step in Hfind by exact Hin.
  destruct (firstChildAt position node) as [child|] eqn:Hfirst.
  - pose proof Hfirst as Hchild. unfold firstChildAt in Hchild.
    apply find_some in Hchild as [Hchild _].
    destruct (IH child Hchild _ _ _ Hfind)
      as (ancestors & -> & Hdesc & Hlast & Htoken & Hinner & Hall).
    destruct (descendsTo_snoc _ _ _ _ _ Hdesc Hlast Hfirst) as [Hdesc' Hlast'].
    exists (ancestors ++ [node])%list. repeat split; try assumption.
    + now rewrite <- app_assoc.
    + apply Forall_app. split; [exact Hall|]. now constructor.
  - injection Hfind as <- <-. exists []. repeat split; try assumption. constructor.
Qed.

Lemma isWithinPathCall_existsb node parents :
  isWithinPathCall node parents = existsb isPathCall (node :: parents).
Proof.
  revert node. induction parents as [|parent above IH]; intros node;
    cbn [isWithinPathCall existsb].
  - destruct (isPathCall node); reflexivity.
  - rewrite IH. cbn [existsb]. destruct (isPathCall node); reflexivity.
Qed.

Lemma detect_covers sourceFile position info :
  detectRouteString sourceFile position = Some info ->
  (start info <= position < end_ info)%Z
  /\ spanStart (span info) = start info
  /\ (spanStart (span info) + spanLength (span info))%Z = end_ info.
Proof.
  intros Hdetect.
  destruct (detect_inv _ _ _ Hdetect)
    as (range & text & parents & Hfind & _ & _ & _ & ->).
  unfold findTokenAtPosition in Hfind.
  destruct (find_descent _ _ _ _ _ Hfind) as (_ & _ & _ & _ & Htoken & _).
  unfold contains, getStart, getEnd in Htoken. cbn [rangeOf] in Htoken.
  apply andb_true_iff in Htoken as [Hlo Hhi].
  apply Z.leb_le in Hlo. apply Z.ltb_lt in Hhi.
  cbn [start end_ span spanStart spanLength]. lia.
Qed.

End TokenFacts.

Module TidyFacts.
Import Detector JsFacts DetectorFacts TokenFacts.

Lemma tidyTree_children node :
  tidyTree node = true ->
  tidy node = true /\ forall child, In child (childrenOf node) -> tidyTree child = true.
Proof.
  destruct node as [range text|id|range name initializer|range name initializer
                   |range expression arguments|range expression name|range children];
    cbn [tidyTree]; intros H; apply andb_true_iff in H as [Htidy Hrest];
    (split; [exact Htidy|]); cbn [childrenOf].
  - intros child [].
  - intros child [].
  - apply andb_true_iff in Hrest as [Hname Hinit].
    intros child [<-|[<-|[]]]; assumption.
  - destruct initializer as [value|].
    + intros child [<-|[<-|[]]]; [reflexivity | assumption].
    + intros child [<-|[]]. reflexivity.
  - apply andb_true_iff in Hrest as [Hexp Hargs]. rewrite forallb_forall in Hargs.
    intros child [<-|Hin]; [assumption | now apply Hargs].
  - intros child [<-|[<-|[]]]; [assumption | reflexivity].
  - rewrite forallb_forall in Hrest. exact Hrest.
Qed.

Lemma apart_excludes position a b :
  apart a b = true -> contains position a = true -> contains position b = false.
Proof.
  unfold apart, contains. intros Hapart Ha.
  apply andb_true_iff in Ha as [Hlo Hhi]. apply Z.leb_le in Hlo. apply Z.ltb_lt in Hhi.
  apply andb_false_iff.
  apply orb_true_iff in Hapart as [H|H]; apply Z.leb_le in H.
  - left. apply Z.leb_gt. lia.
  - right. apply Z.ltb_ge. lia.
Qed.

Lemma apart_sym a b : apart a b = apart b a.
Proof. unfold apart. apply orb_comm. Qed.

Lemma within_contains position inner outer :
  within inner outer = true -> contains position inner = true ->
  contains position outer = true.
Proof.
  unfold within, contains. intros Hin Hc.
  apply andb_true_iff in Hin as [H1 H2]. apply andb_true_iff in Hc as [H3 H4].
  apply Z.leb_le in H1, H2, H3. apply Z.ltb_lt in H4.
  apply andb_true_iff. split; [apply Z.leb_le | apply Z.ltb_lt]; lia.
Qed.

Lemma within_trans a b c :
  within a b = true -> within b c = true -> within a c = true.
Proof.
  unfold within. intros Hab Hbc.
  apply andb_true_iff in Hab as [H1 H2]. apply andb_true_iff in Hbc as [H3 H4].
  apply Z.leb_le in H1, H2, H3, H4.
  apply andb_true_iff. split; apply Z.leb_le; lia.
Qed.

Lemma within_refl a : within a a = true.
Proof. unfold within. now rewrite !Z.leb_refl. Qed.

(** Among children that do not overlap, the one containing the position is
    the first that does. *)
Lemma find_the_child position nodes child :
  pairwiseApart nodes = true -> In child nodes ->
  contains position child = true ->
  List.find (contains position) nodes = Some child.
Proof.
  induction nodes as [|node more IH]; [intros _ []|].
  cbn [pairwiseApart In List.find]. intros Hapart Hin Hchild.
  apply andb_true_iff in Hapart as [Hnode Hmore].
  destruct Hin as [->|Hin].
  - now rewrite Hchild.
  - rewrite forallb_forall in Hnode.
    pose proof (apart_excludes position child node) as Hex.
    rewrite apart_sym, (Hnode child Hin) in Hex.
    rewrite (Hex eq_refl Hchild). now apply IH.
Qed.

(** In a tidy tree the descent to a leaf is the same from every position
    inside the leaf. *)
Lemma find_same_token position position' node :
  forall parents token chain,
    tidyTree node = true ->
    find position parents node = Some (token, chain) ->
    childrenOf token = [] ->
    contains position' token = true ->
    within token node = true
    /\ find position' parents node = Some (token, chain).
Proof.
  induction node as [node IH] using Node_children_ind.
  intros parents token chain Htidy Hfind Hleaf Htoken.
  destruct (tidyTree_children node Htidy) as [Hnode Hkids].
  destruct (contains position node) eqn:Hin;
    [|apply (find_none position parents) in Hin; congruence].
  rewrite find_step in Hfind by exact Hin.
  destruct (firstChildAt position node) as [child|] eqn:Hfirst.
  - unfold firstChildAt in Hfirst. apply find_some in Hfirst as [Hchild _].
    destruct (IH child Hchild _ _ _ (Hkids child Hchild) Hfind Hleaf Htoken)
      as [Hwithin Hfind'].
    unfold tidy in Hnode. apply andb_true_iff in Hnode as [Hinside Hapart].
    rewrite forallb_forall in Hinside.
    assert (Hnested : within token node = true).
    { eapply within_trans; [exact Hwithin | now apply Hinside]. }
    split; [exact Hnested|].
    rewrite find_step by (eapply within_contains; eassumption).
    unfold firstChildAt.
    rewrite (find_the_child position' _ child Hapart Hchild)
      by (eapply within_contains; eassumption).
    exact Hfind'.
  - injection Hfind as <- <-. split; [apply within_refl|].
    rewrite find_step by exact Htoken.
    unfold firstChildAt. now rewrite Hleaf.
Qed.

End TidyFacts.

Module PluginFacts.
Import Js Path Resolver JsFacts PathFacts ResolverFacts.
Import Plugin.

Lemma declarationLoop_app position first second :
  declarationLoop position (first ++ second)
  = declarationLoop (declarationLoop position first) second.
Proof. apply fold_left_app. Qed.

Lemma declarationLoop_none position declarations :
  existsb namesRoute declarations = false ->
  declarationLoop position declarations = position.
Proof.
  revert position. induction declarations as [|declaration more IH]; intros position;
    [reflexivity|].
  cbn [existsb]. intros H. apply orb_false_iff in H as [Hhead Hmore].
  change (declarationLoop position (declaration :: more))
    with (declarationLoop (declarationLoop position [declaration]) more).
  rewrite IH by exact Hmore.
  destruct declaration as [id|]; [|reflexivity].
  cbn in Hhead |- *. now rewrite Hhead.
Qed.

Lemma visitStatement_none position node :
  exportsRoute node = false -> visitStatement position node = position.
Proof.
  destruct node as [modifiers declarations|]; [|reflexivity].
  cbn [exportsRoute visitStatement]. destruct (hasExport modifiers); [|reflexivity].
  apply declarationLoop_none.
Qed.

Lemma visit_none position statements :
  existsb exportsRoute statements = false ->
  fold_left visitStatement statements position = position.
Proof.
  revert position. induction statements as [|node more IH]; intros position;
    [reflexivity|].
  cbn [existsb fold_left]. intros H. apply orb_false_iff in H as [Hhead Hmore].
  rewrite visitStatement_none by exact Hhead. now apply IH.
Qed.

Lemma routeStringAt_detect info fileName position program routeInfo :
  routeStringAt info fileName position = Some (program, routeInfo) ->
  exists sourceFile,
    getProgram (languageService info) = Some program
    /\ getSourceFile program fileName = Some sourceFile
    /\ Detector.detectRouteString sourceFile position = Some routeInfo.
Proof.
  unfold routeStringAt.
  destruct (getProgram (languageService info)) as [program'|]; [|discriminate].
  destruct (getSourceFile program' fileName) as [sourceFile|] eqn:Hfile; [|discriminate].
  destruct (Detector.detectRouteString sourceFile position) as [routeInfo'|] eqn:Hdetect;
    [|discriminate].
  intros [= <- <-]. now exists sourceFile.
Qed.

Lemma getRouteDefinition_no_route fuel sys info config fileName position :
  routeStringAt info fileName position = None ->
  getRouteDefinition fuel sys info config fileName position = Normal None.
Proof.
  unfold routeStringAt, getRouteDefinition.
  destruct (getProgram (languageService info)) as [program|]; [|reflexivity].
  destruct (getSourceFile program fileName) as [sourceFile|]; [|reflexivity].
  destruct (Detector.detectRouteString sourceFile position); [discriminate|reflexivity].
Qed.

(** What [getRouteDefinition] answers at a route string, in terms of the two
    resolutions. *)
Lemma getRouteDefinition_route fuel sys info config fileName position program routeInfo :
  routeStringAt info fileName position = Some (program, routeInfo) ->
  getRouteDefinition fuel sys info config fileName position
  = let projectPath := getCurrentDirectory info in
    match resolveRouteToFile sys (route routeInfo) projectPath config with
    | Some {| filePath := target; exists_ := true |} =>
        Normal (Some (routeDefinitionAt program routeInfo target))
    | _ =>
        match findRouteTypeWithGroups fuel sys (route routeInfo) projectPath config with
        | Normal (Some target) =>
            Normal (Some (routeDefinitionAt program routeInfo target))
        | Normal None => Normal None
        | Throws => Throws
        | OutOfFuel => OutOfFuel
        end
    end.
Proof.
  unfold routeStringAt, getRouteDefinition.
  destruct (getProgram (languageService info)) as [program'|]; [|discriminate].
  destruct (getSourceFile program' fileName) as [sourceFile|]; [|discriminate].
  destruct (Detector.detectRouteString sourceFile position) as [routeInfo'|];
    [|discriminate].
  intros [= -> ->]. cbv zeta.
  destruct (resolveRouteToFile sys (route routeInfo) (getCurrentDirectory info) config)
    as [[target [|]]|] eqn:Hdirect; cbn [notExisting exists_ negb filePath].
  - reflexivity.
  - destruct (findRouteTypeWithGroups fuel sys _ _ config) as [[groupPath|]| |] eqn:Hgroup;
      try reflexivity.
    unfold findRouteTypeWithGroups in Hgroup.
    rewrite (searchDir_found _ _ _ _ _ _ Hgroup). reflexivity.
  - destruct (findRouteTypeWithGroups fuel sys _ _ config) as [[groupPath|]| |] eqn:Hgroup;
      try reflexivity.
    unfold findRouteTypeWithGroups in Hgroup.
    rewrite (searchDir_found _ _ _ _ _ _ Hgroup). reflexivity.
Qed.

Lemma search_result_exists sys route projectPath config fuel path :
  findRouteTypeWithGroups fuel sys route projectPath config = Normal (Some path) ->
  fileExists sys path = true.
Proof.
  unfold findRouteTypeWithGroups. intros H.
  apply searchDir_sound in H;
    [|apply escapedSegments_truthy, parseRouteSegments_truthy].
  now destruct (depthFirst_reaches _ _ _ _ _ H path eq_refl)
    as (hops & ext & _ & _ & _ & _ & Hfile).
Qed.

Lemma findRouteTypeWithGroups_more_fuel sys route projectPath config fuel fuel' result :
  (fuel <= fuel')%nat ->
  findRouteTypeWithGroups fuel sys route projectPath config = Normal result ->
  findRouteTypeWithGroups fuel' sys route projectPath config = Normal result.
Proof. unfold findRouteTypeWithGroups. apply searchDir_more_fuel. Qed.

Lemma findRouteTypeWithGroups_never_throws sys route projectPath config fuel :
  findRouteTypeWithGroups fuel sys route projectPath config <> Throws.
Proof. unfold findRouteTypeWithGroups. apply searchDir_never_throws. Qed.

Lemma getRouteDefinition_never_throws fuel sys info config fileName position :
  getRouteDefinition fuel sys info config fileName position <> Throws.
Proof.
  destruct (routeStringAt info fileName position) as [[program routeInfo]|] eqn:Hat.
  - rewrite (getRouteDefinition_route _ _ _ _ _ _ _ _ Hat). cbv zeta.
    pose proof (findRouteTypeWithGroups_never_throws sys (route routeInfo)
                  (getCurrentDirectory info) config fuel) as Hno.
    destruct (resolveRouteToFile sys _ _ config) as [[target [|]]|]; try discriminate;
      destruct (findRouteTypeWithGroups fuel sys _ _ config) as [[groupPath|]| |];
      congruence.
  - now rewrite getRouteDefinition_no_route.
Qed.

Lemma getRouteDefinition_more_fuel fuel fuel' sys info config fileName position answer :
  (fuel <= fuel')%nat ->
  getRouteDefinition fuel sys info config fileName position = Normal answer ->
  getRouteDefinition fuel' sys info config fileName position = Normal answer.
Proof.
  intros Hle.
  destruct (routeStringAt info fileName position) as [[program routeInfo]|] eqn:Hat.
  - rewrite !(getRouteDefinition_route _ _ _ _ _ _ _ _ Hat). cbv zeta.
    destruct (resolveRouteToFile sys _ _ config) as [[target [|]]|]; try (intros H; exact H);
      destruct (findRouteTypeWithGroups fuel sys _ _ config) as [result| |] eqn:Hgroup;
      try (destruct result; discriminate); try discriminate;
      rewrite (findRouteTypeWithGroups_more_fuel _ _ _ _ _ _ _ Hle Hgroup);
      intros H; exact H.
  - now rewrite !getRouteDefinition_no_route.
Qed.

Lemma proxy_more_fuel fuel fuel' sys info config fileName position :
  (fuel <= fuel')%nat ->
  proxyGetDefinitionAndBoundSpan fuel sys info config fileName position <> OutOfFuel ->
  proxyGetDefinitionAndBoundSpan fuel' sys info config fileName position
  = proxyGetDefinitionAndBoundSpan fuel sys info config fileName position.
Proof.
  intros Hle. unfold proxyGetDefinitionAndBoundSpan. cbv zeta.
  pose proof (getRouteDefinition_never_throws fuel sys info config fileName position)
    as Hno.
  destruct (getRouteDefinition fuel sys info config fileName position)
    as [answer| |] eqn:Hfuel; [|contradiction|intros H; now contradiction H].
  intros _. now rewrite (getRouteDefinition_more_fuel _ _ _ _ _ _ _ _ Hle Hfuel).
Qed.

End PluginFacts.

Module StackFacts.
Import Js Path Resolver JsFacts PathFacts ResolverFacts.

Lemma groupLoop_none_or_throws recur dir segments entries :
  (forall d, recur d segments = Normal None \/ recur d segments = Throws) ->
  groupLoop recur dir segments entries = Normal None
  \/ groupLoop recur dir segments entries = Throws.
Proof.
  intros Hrecur. induction entries as [|entry more IH]; [now left|].
  cbn [groupLoop]. destruct (dirNameOf entry) as [dirName|]; [|exact IH].
  destruct (isRouteGroup dirName); [|exact IH].
  destruct (Hrecur (Path.join [dir; dirName])) as [-> | ->]; [exact IH | now right].
Qed.

Lemma groupSearch_none sys recur dir segments :
  (forall d, recur d segments = Normal None \/ recur d segments = Throws) ->
  groupSearch sys recur dir segments = Normal None.
Proof.
  intros Hrecur. unfold groupSearch.
  destruct (readDirectory sys dir) as [entries|]; [|reflexivity].
  now destruct (groupLoop_none_or_throws recur dir segments entries Hrecur) as [-> | ->].
Qed.

(** Below the limit the engine's stack changes nothing. *)
Lemma searchDirOnStack_extends sys config fuel :
  extends (fun dir segments => searchDir fuel sys dir segments config)
          (fun dir segments => searchDirOnStack fuel sys dir segments config).
Proof.
  induction fuel as [|fuel IH]; [intros dir segments; now left|].
  intros dir segments.
  exact (searchBody_extends sys config _ _ IH dir segments).
Qed.

End StackFacts.

(* ================================================================== *)
(** ** Further properties of the resolver, the detector and the plugin *)
(* ================================================================== *)

Import Js Path SegmentFacts ResultFacts EntryFacts TokenFacts TidyFacts PluginFacts StackFacts.

(** X1.  Every segment that [parseRouteSegments] returns is non-empty and
    holds no slash, the decoding of [%5F] keeps both properties, and it
    changes no segment count: the decoded segments can each be joined to a
    directory as one path component. *)
Theorem X1_segments_are_path_components (route : string) :
  Forall (fun s => Js.truthy s = true /\ Js.sepFree Path.isSlash s = true)
    (parseRouteSegments route)
  /\ Forall (fun s => Js.truthy s = true /\ Js.sepFree Path.isSlash s = true)
       (escapedSegments (parseRouteSegments route))
  /\ length (escapedSegments (parseRouteSegments route))
     = length (parseRouteSegments route).
Proof.
  split; [|split].
  - pose proof (parseRouteSegments_truthy route) as Ht.
    pose proof (parseRouteSegments_sepFree route) as Hf.
    rewrite Forall_forall in *. intros s Hs. split; auto.
  - pose proof (escapedSegments_truthy _ (parseRouteSegments_truthy route)) as Ht.
    pose proof (route_segments_sepFree route) as Hf.
    rewrite Forall_forall in *. intros s Hs. split; auto.
  - unfold escapedSegments. apply length_map.
Qed.

(** X2.  Parsing is a left inverse of writing a route: a list of non-empty
    segments without slashes, joined with slashes behind a leading slash, is
    parsed back to the same list. *)
Theorem X2_joined_segments_parse_back (segments : list string) :
  Forall (fun s => Js.truthy s = true /\ Js.sepFree Path.isSlash s = true) segments ->
  parseRouteSegments ("/" ++ Js.joinWith "/" segments) = segments.
Proof.
  intros Hall. change ("/" ++ joinWith "/" segments)
    with (String "/"%char (joinWith "/" segments)).
  rewrite parseRouteSegments_cons. unfold pieces.
  destruct segments as [|s rest]; [reflexivity|].
  rewrite splitOn_joinWith;
    [| reflexivity | discriminate
     | eapply Forall_impl; [|exact Hall]; now intros ? [_ ?]].
  apply filter_truthy_all. eapply Forall_impl; [|exact Hall]. now intros ? [? _].
Qed.

Lemma X2_joined_segments_parse_back_witness :
  parseRouteSegments ("/" ++ Js.joinWith "/" ["users"; "[id]"; "posts"])
  = ["users"; "[id]"; "posts"].
Proof.
  apply X2_joined_segments_parse_back. repeat constructor.
Defined.

(** X3.  [route.slice(1)] drops the first character without looking at it:
    the segments are the non-empty pieces of the rest, so a route written
    without its leading slash loses the first character of its first
    segment, and both resolutions answer as for the route with a slash in
    that place. *)
Theorem X3_first_character_is_never_read
    (c : ascii) (rest : string) (sys : System) (projectPath : string)
    (config : ResolvedConfig) (fuel : nat) :
  parseRouteSegments (String c rest) = filter Js.truthy (Js.splitOn Path.isSlash rest)
  /\ resolveRouteToFile sys (String c rest) projectPath config
     = resolveRouteToFile sys (String "/" rest) projectPath config
  /\ findRouteTypeWithGroups fuel sys (String c rest) projectPath config
     = findRouteTypeWithGroups fuel sys (String "/" rest) projectPath config.
Proof.
  unfold resolveRouteToFile, findRouteTypeWithGroups.
  now rewrite !parseRouteSegments_cons.
Qed.

(** X4.  Empty pieces do not count: a doubled slash inside a route parses
    like a single one, and a trailing slash changes nothing. *)
Theorem X4_empty_pieces_do_not_count (before after route : string) :
  parseRouteSegments (before ++ "//" ++ after)
  = parseRouteSegments (before ++ "/" ++ after)
  /\ parseRouteSegments (route ++ "/") = parseRouteSegments route.
Proof.
  split.
  - destruct before as [|c before'].
    + change ("" ++ "//" ++ after) with (String "/"%char ("" ++ "/" ++ after)).
      change ("" ++ "/" ++ after) with (String "/"%char after) at 2.
      rewrite !parseRouteSegments_cons. now rewrite pieces_app.
    + change (String c before' ++ "//" ++ after)
        with (String c (before' ++ "/" ++ ("" ++ "/" ++ after))).
      change (String c before' ++ "/" ++ after)
        with (String c (before' ++ "/" ++ after)).
      rewrite !parseRouteSegments_cons. now rewrite !pieces_app.
  - destruct route as [|c route']; [reflexivity|].
    change (String c route' ++ "/") with (String c (route' ++ "/" ++ "")).
    rewrite !parseRouteSegments_cons, pieces_app. apply app_nil_r.
Qed.

(** X5.  Decoding [%5F] a second time changes nothing, since the result of
    the first pass holds no [%5F], and decoding never lengthens a segment. *)
Theorem X5_decoding_twice_is_decoding_once (seg : string) :
  replace_5F (replace_5F seg) = replace_5F seg
  /\ (String.length (replace_5F seg) <= String.length seg)%nat.
Proof.
  split.
  - apply replace_5F_verbatim, replace_5F_complete.
  - now apply (replace_5F_length_bounded (String.length seg)).
Qed.

(** X6.  [resolveRouteToFile] always answers, and its [exists] flag is what
    [fileExists] says of the returned path: [true] only for a file that
    exists, and [false] only when neither candidate exists. *)
Theorem X6_exists_flag_is_what_fileExists_says
    (sys : System) (route projectPath : string) (config : ResolvedConfig) :
  exists resolution,
    resolveRouteToFile sys route projectPath config = Some resolution
    /\ exists_ resolution = fileExists sys (filePath resolution)
    /\ (exists_ resolution = false ->
        forall candidate,
          In candidate
            (buildPossiblePaths sys (parseRouteSegments route) projectPath config) ->
          fileExists sys candidate = false).
Proof.
  rewrite resolveRouteToFile_eq, buildPossiblePaths_eq. cbv zeta.
  destruct (fileExists sys (Spec.definitionFile config _ "ts")) eqn:Ets.
  - eexists. split; [reflexivity|]. cbn [exists_ filePath]. split; [now rewrite Ets|].
    discriminate.
  - destruct (fileExists sys (Spec.definitionFile config _ "tsx")) eqn:Etsx.
    + eexists. split; [reflexivity|]. cbn [exists_ filePath].
      split; [now rewrite Etsx | discriminate].
    + eexists. split; [reflexivity|]. cbn [exists_ filePath].
      split; [now rewrite Ets|].
      intros _ candidate [<-|[<-|[]]]; assumption.
Qed.

(** X7.  A path returned by [findRouteTypeWithGroups] is a non-empty string
    that [fileExists] reports as an existing file. *)
Theorem X7_search_returns_only_existing_files
    (sys : System) (route projectPath : string) (config : ResolvedConfig)
    (fuel : nat) (path : string) :
  findRouteTypeWithGroups fuel sys route projectPath config = Normal (Some path) ->
  fileExists sys path = true /\ Js.truthy path = true.
Proof.
  unfold findRouteTypeWithGroups. intros H. split.
  - apply searchDir_sound in H; [|apply route_segments_truthy].
    now destruct (depthFirst_reaches _ _ _ _ _ H path eq_refl)
      as (hops & ext & _ & _ & _ & _ & Hfile).
  - eapply searchDir_found; eassumption.
Qed.

Lemma X7_search_returns_only_existing_files_witness :
  fileExists Scenario.authLogin "/project/src/app/(auth)/login/routeType.ts" = true
  /\ Js.truthy "/project/src/app/(auth)/login/routeType.ts" = true.
Proof.
  apply (X7_search_returns_only_existing_files Scenario.authLogin "/login"
           "/project" DEFAULT_CONFIG 3).
  vm_compute. reflexivity.
Defined.

(** X8.  On a file system whose listings report no grouping directory, the
    grouping search adds nothing: whatever path it returns is the path
    [resolveRouteToFile] returns with [exists = true]. *)
Theorem X8_without_groups_the_search_adds_nothing
    (sys : System) (route projectPath : string) (config : ResolvedConfig)
    (fuel : nat) (path : string) :
  noGroupListed sys ->
  findRouteTypeWithGroups fuel sys route projectPath config = Normal (Some path) ->
  resolveRouteToFile sys route projectPath config
  = Some {| filePath := path; exists_ := true |}.
Proof.
  unfold findRouteTypeWithGroups. intros Hno H.
  apply searchDir_sound in H; [|apply route_segments_truthy].
  pose proof (depthFirst_direct _ _ _ _ _ Hno H path eq_refl) as Hfirst.
  rewrite firstExisting_two, <- routeDirOf_descend in Hfirst.
  rewrite resolveRouteToFile_eq. cbv zeta.
  destruct (fileExists sys (Spec.definitionFile config _ "ts")).
  - now injection Hfirst as <-.
  - destruct (fileExists sys (Spec.definitionFile config _ "tsx")).
    + now injection Hfirst as <-.
    + discriminate.
Qed.

Lemma X8_without_groups_the_search_adds_nothing_witness :
  resolveRouteToFile Scenario.onlyTsx "/users" "/project" DEFAULT_CONFIG
  = Some {| filePath := "/project/src/app/users/routeType.tsx"; exists_ := true |}.
Proof.
  apply (X8_without_groups_the_search_adds_nothing Scenario.onlyTsx "/users"
           "/project" DEFAULT_CONFIG 2).
  - intros dir. reflexivity.
  - vm_compute. reflexivity.
Defined.

(** X9.  Of a directory listing only the entries that name a grouping
    directory matter: dropping every other entry from every listing leaves
    the result of [findRouteTypeWithGroups] unchanged, for every fuel. *)
Theorem X9_only_grouping_entries_of_a_listing_matter
    (sys : System) (route projectPath : string) (config : ResolvedConfig)
    (fuel : nat) :
  findRouteTypeWithGroups fuel (withGroupEntriesOnly sys) route projectPath config
  = findRouteTypeWithGroups fuel sys route projectPath config.
Proof.
  unfold findRouteTypeWithGroups.
  generalize (Path.join [projectPath; appDir config])
             (escapedSegments (parseRouteSegments route)).
  induction fuel as [|fuel IH]; intros dir segments; [reflexivity|].
  exact (searchBody_group_entries sys config _ _ dir segments IH).
Qed.

(** X10.  The name [searchDir] reads off a listing entry is non-empty and
    holds neither a slash nor a backslash.  For such a name, the entry that
    is the name alone, the name behind a path with either separator, and the
    name followed by one trailing slash all give the name; followed by two
    trailing slashes, the entry is skipped. *)
Theorem X10_entry_names (entry prefix name : string) :
  (forall dirName, dirNameOf entry = Some dirName ->
     Js.truthy dirName = true /\ Js.sepFree isSeparator dirName = true)
  /\ (Js.truthy name = true -> Js.sepFree isSeparator name = true ->
      dirNameOf name = Some name
      /\ dirNameOf (prefix ++ "/" ++ name) = Some name
      /\ dirNameOf (prefix ++ "\" ++ name) = Some name
      /\ dirNameOf (prefix ++ "/" ++ name ++ "/") = Some name
      /\ dirNameOf (prefix ++ "/" ++ name ++ "//") = None).
Proof.
  split; [intros dirName; apply dirNameOf_some|].
  intros Hname Hfree. repeat split.
  - unfold dirNameOf. rewrite (splitOn_sepFree _ _ Hfree). cbn [rev app].
    now rewrite Hname.
  - now apply (dirNameOf_last "/"%char).
  - now apply (dirNameOf_last "\"%char).
  - unfold dirNameOf. change ("/" ++ name ++ "/") with (String "/" (name ++ "/")).
    rewrite splitOn_app, splitOn_app by reflexivity.
    rewrite (splitOn_sepFree _ _ Hfree), !rev_app_distr.
    cbn [splitOn rev app truthy]. now rewrite Hname.
  - unfold dirNameOf. change ("/" ++ name ++ "//") with (String "/" (name ++ "//")).
    rewrite splitOn_app by reflexivity.
    change "//" with (String "/" "/").
    rewrite splitOn_app by reflexivity.
    rewrite (splitOn_sepFree _ _ Hfree), !rev_app_distr.
    reflexivity.
Qed.

Lemma X10_entry_names_witness :
  dirNameOf "(auth)" = Some "(auth)"
  /\ dirNameOf ("/project/src/app" ++ "/" ++ "(auth)") = Some "(auth)"
  /\ dirNameOf ("/project/src/app" ++ "\" ++ "(auth)") = Some "(auth)"
  /\ dirNameOf ("/project/src/app" ++ "/" ++ "(auth)" ++ "/") = Some "(auth)"
  /\ dirNameOf ("/project/src/app" ++ "/" ++ "(auth)" ++ "//") = None.
Proof.
  apply (proj2 (X10_entry_names "" "/project/src/app" "(auth)")); reflexivity.
Defined.

(** X11.  When no decoded segment of the route is [..] and
    [routeTypeFileName] holds no slash, every path that [resolveRouteToFile]
    returns, existing or not, and every path that [findRouteTypeWithGroups]
    returns lies under the app directory. *)
Theorem X11_results_stay_under_the_app_directory
    (sys : System) (route projectPath : string) (config : ResolvedConfig) :
  forallb (fun s => negb (String.eqb s ".."))
    (escapedSegments (parseRouteSegments route)) = true ->
  Js.sepFree Path.isSlash (routeTypeFileName config) = true ->
  let appDirPath := directoryOf (Path.join [projectPath; appDir config]) in
  (forall resolution,
     resolveRouteToFile sys route projectPath config = Some resolution ->
     isAncestorOf appDirPath (filePath resolution) = true)
  /\ (forall fuel path,
        findRouteTypeWithGroups fuel sys route projectPath config = Normal (Some path) ->
        isAncestorOf appDirPath path = true).
Proof.
  intros Hup Hfile appDirPath. subst appDirPath.
  apply route_segments_staysBelow in Hup.
  destruct (join_normal_form [projectPath; appDir config])
    as (isAbsolute & trailingSeparator & comps & Happ & Hres).
  rewrite Happ, directoryOf_assemble by exact Hres.
  split.
  - intros resolution. rewrite resolveRouteToFile_eq, routeDirOf_descend, Happ. cbv zeta.
    assert (Hcand : forall ext, ext = "ts" \/ ext = "tsx" ->
      isAncestorOf (assemble isAbsolute false comps)
        (Spec.definitionFile config
           (descend (assemble isAbsolute trailingSeparator comps)
              (escapedSegments (parseRouteSegments route))) ext) = true).
    { intros ext Hext.
      destruct (definition_name_staysBelow _ ext Hfile Hext) as [Hstays Hkept].
      unfold Spec.definitionFile.
      destruct (escapedSegments (parseRouteSegments route)) as [|s more] eqn:Hsegs.
      - cbn [descend fold_left].
        rewrite join_assemble_staysBelow by assumption.
        apply below_isAncestorOf; [exact Hres | rewrite Hkept; discriminate|].
        apply Forall_forall. now apply isComponent_staysBelow.
      - rewrite descend_assemble by (assumption || discriminate).
        rewrite join_assemble_staysBelow;
          [|now apply resolved_kept_all | exact Hstays].
        rewrite <- app_assoc.
        apply below_isAncestorOf; [exact Hres | rewrite Hkept |].
        + intros H. apply app_eq_nil in H as [_ H]. discriminate.
        + apply Forall_app. split.
          * apply Forall_forall. intros c Hc. apply in_flat_map in Hc as (seg & Hseg & Hc).
            rewrite forallb_forall in Hup.
            exact (isComponent_staysBelow seg (Hup seg Hseg) c Hc).
          * apply Forall_forall. now apply isComponent_staysBelow. }
    destruct (fileExists sys _); [|destruct (fileExists sys _)];
      intros [= <-]; cbn [filePath]; apply Hcand; auto.
  - intros fuel path. unfold findRouteTypeWithGroups. rewrite Happ. intros H.
    apply searchDir_sound in H; [|apply route_segments_truthy].
    destruct (depthFirst_below sys config _ _ _ Hfile H isAbsolute trailingSeparator
                comps path eq_refl Hres Hup eq_refl) as (extra & Hne & Hextra & ->).
    now apply below_isAncestorOf.
Qed.

Lemma X11_results_stay_under_the_app_directory_witness :
  isAncestorOf "/project/src/app" "/project/src/app/(auth)/login/routeType.ts" = true.
Proof.
  apply (proj2 (X11_results_stay_under_the_app_directory Scenario.authLogin "/login"
                  "/project" DEFAULT_CONFIG eq_refl eq_refl) 3).
  vm_compute. reflexivity.
Defined.

(** X12.  [findTokenAtPosition] finds nothing exactly when the root does not
    contain the position.  Otherwise the token it finds contains the
    position and has no child that does, and the chain of its parents leads
    from the root down to it through the first child containing the
    position at every level, each of them containing the position. *)
Theorem X12_token_is_the_end_of_the_first_child_descent
    (sourceFile : SourceFile) (position : Z) :
  (findTokenAtPosition sourceFile position = None
   <-> contains position (sourceRoot sourceFile) = false)
  /\ (forall token parents,
        findTokenAtPosition sourceFile position = Some (token, parents) ->
        contains position token = true
        /\ firstChildAt position token = None
        /\ descendsTo position token parents
        /\ last (token :: parents) token = sourceRoot sourceFile
        /\ Forall (fun ancestor => contains position ancestor = true) parents).
Proof.
  split; [apply find_none|].
  unfold findTokenAtPosition. intros token parents Hfind.
  destruct (find_descent _ _ _ _ _ Hfind)
    as (ancestors & -> & Hdesc & Hlast & Htoken & Hinner & Hall).
  rewrite app_nil_r. auto.
Qed.

(** X13.  A detected route string is the one under the cursor, inside a
    [$path] call: the position lies within [start, end), the span starts at
    [start], ends at [end] and is not empty, the route begins with a slash,
    and some ancestor of the literal is a call of [$path] or of a member
    named [$path] whose range contains the position. *)
Theorem X13_detection_is_at_the_position_and_inside_a_path_call
    (sourceFile : SourceFile) (position : Z) (info : RouteStringInfo) :
  detectRouteString sourceFile position = Some info ->
  (start info <= position < end_ info)%Z
  /\ spanStart (span info) = start info
  /\ (spanStart (span info) + spanLength (span info))%Z = end_ info
  /\ (0 < spanLength (span info))%Z
  /\ Js.startsWith "/" (route info) = true
  /\ exists token parents call,
       findTokenAtPosition sourceFile position = Some (token, parents)
       /\ In call parents
       /\ isPathCall call = true
       /\ contains position call = true.
Proof.
  intros Hdetect.
  destruct (detect_covers _ _ _ Hdetect) as (Hat & Hstart & Hend).
  destruct (detect_inv _ _ _ Hdetect)
    as (range & text & parents & Hfind & _ & Hcall & Hslash & ->).
  pose proof Hfind as Hchain. unfold findTokenAtPosition in Hchain.
  destruct (find_descent _ _ _ _ _ Hchain) as (ancestors & Heq & _ & _ & _ & _ & Hall).
  rewrite app_nil_r in Heq. subst ancestors.
  cbn [start end_ span spanStart spanLength route] in *.
  repeat split; try lia; try assumption.
  rewrite isWithinPathCall_existsb in Hcall. cbn [existsb isPathCall orb] in Hcall.
  apply existsb_exists in Hcall as (call & Hin & Hpath).
  exists (StringLiteral range text), parents, call. repeat split; try assumption.
  rewrite Forall_forall in Hall. now apply Hall.
Qed.

Lemma X13_detection_is_at_the_position_and_inside_a_path_call_witness :
  (15 <= 20 < 28)%Z
  /\ 15%Z = 15%Z
  /\ (15 + 13)%Z = 28%Z
  /\ (0 < 13)%Z
  /\ Js.startsWith "/" "/users/[id]" = true
  /\ exists token parents call,
       findTokenAtPosition Example.pathCallFile 20 = Some (token, parents)
       /\ In call parents
       /\ isPathCall call = true
       /\ contains 20 call = true.
Proof.
  apply (X13_detection_is_at_the_position_and_inside_a_path_call
           Example.pathCallFile 20
           {| route := "/users/[id]"; start := 15; end_ := 28;
              span := {| spanStart := 15; spanLength := 13 |} |}).
  vm_compute. reflexivity.
Defined.

(** X14.  The configuration [create] works with.  [routeTypeFileName] and
    [debug] are those of [resolveConfig].  A configured non-empty [appDir]
    is used as given, whatever the file system holds.  Otherwise [src/app]
    is used when it is a directory of the project, else [app] when that is
    one, else the resolved value: the default [src/app], or the empty string
    when [appDir] was configured as the empty string.  So [appDir] ends up
    empty exactly when it was configured empty and neither directory
    exists. *)
Theorem X14_app_directory_in_force (sys : System) (info : Plugin.PluginCreateInfo) :
  let configured := Config.optional (Plugin.config info) PluginConfig.appDir in
  let inProject := fun dir =>
    directoryExists sys (Path.join [Plugin.getCurrentDirectory info; dir]) in
  let config := Plugin.createConfig sys info in
  routeTypeFileName config
  = routeTypeFileName (Config.resolveConfig (Plugin.config info))
  /\ debug config = debug (Config.resolveConfig (Plugin.config info))
  /\ (forall given, configured = Some given -> Js.truthy given = true ->
      appDir config = given)
  /\ (Plugin.appDirUnset (Plugin.config info) = true ->
      (inProject "src/app" = true -> appDir config = "src/app")
      /\ (inProject "src/app" = false -> inProject "app" = true ->
          appDir config = "app")
      /\ (inProject "src/app" = false -> inProject "app" = false ->
          appDir config = match configured with Some _ => "" | None => "src/app" end))
  /\ (Js.truthy (appDir config) = false <->
      configured = Some "" /\ inProject "src/app" = false /\ inProject "app" = false).
Proof.
  cbv zeta.
  assert (Happ : appDir (Config.resolveConfig (Plugin.config info))
                 = match Config.optional (Plugin.config info) PluginConfig.appDir with
                   | Some given => given
                   | None => "src/app"
                   end).
  { unfold Config.resolveConfig. cbn [appDir Config.nullish].
    now destruct (Config.optional (Plugin.config info) PluginConfig.appDir). }
  unfold Plugin.createConfig, Plugin.appDirUnset, Config.detectAppDir.
  cbn [Config.firstDirectory].
  destruct (Config.optional (Plugin.config info) PluginConfig.appDir) as [given|].
  - destruct (Js.truthy given) eqn:Htruthy; cbn [negb].
    + split; [reflexivity|]. split; [reflexivity|]. split; [|split].
      * intros g [= <-] _. exact Happ.
      * discriminate.
      * rewrite Happ. split; [congruence|]. intros ([= ->] & _). discriminate.
    + destruct given; [clear Htruthy | discriminate Htruthy].
      destruct (directoryExists sys (Path.join [_; "src/app"])) eqn:Hsrc;
        [|destruct (directoryExists sys (Path.join [_; "app"])) eqn:Happ'];
        cbn [Js.truthy appDir routeTypeFileName debug]; rewrite ?Happ;
        (split; [reflexivity|]); (split; [reflexivity|]);
        (split; [intros g [= <-] Hg; discriminate Hg|]);
        (split; [intros _; repeat split; intros; congruence|]);
        cbn [Js.truthy];
        (split; [intros; try discriminate; auto | intros (_ & ? & ?); congruence]).
  - cbn [negb].
    destruct (directoryExists sys (Path.join [_; "src/app"])) eqn:Hsrc;
      [|destruct (directoryExists sys (Path.join [_; "app"])) eqn:Happ'];
      cbn [Js.truthy appDir routeTypeFileName debug]; rewrite ?Happ;
      (split; [reflexivity|]); (split; [reflexivity|]);
      (split; [intros g Hg; discriminate Hg|]);
      (split; [intros _; repeat split; intros; congruence|]);
      (split; [intros Hg; discriminate Hg | intros (Hg & _); discriminate Hg]).
Qed.

(** X15.  [findRouteExportPosition] answers 0 for a file none of whose
    top-level statements exports a variable named [Route], and otherwise the
    start of the last such name: the last [Route] declaration of the last
    exporting variable statement that has one. *)
Theorem X15_last_exported_Route_wins
    (program : Plugin.Program) (filePath : string) (statements : list Plugin.Statement) :
  Plugin.getStatements program filePath = Some statements ->
  (existsb exportsRoute statements = false ->
   Plugin.findRouteExportPosition program filePath = 0%Z)
  /\ (forall before modifiers earlier id later after,
        statements
        = (before ++ Plugin.VariableStatement modifiers
                       (earlier ++ Plugin.BindingIdentifier id :: later) :: after)%list ->
        Plugin.hasExport modifiers = true ->
        idText id = "Route" ->
        existsb namesRoute later = false ->
        existsb exportsRoute after = false ->
        Plugin.findRouteExportPosition program filePath = rangeStart (idRange id)).
Proof.
  intros Hfile. unfold Plugin.findRouteExportPosition. rewrite Hfile. split.
  - apply visit_none.
  - intros before modifiers earlier id later after -> Hexport Hname Hlater Hafter.
    rewrite fold_left_app. cbn [fold_left Plugin.visitStatement]. rewrite Hexport.
    rewrite visit_none by exact Hafter.
    rewrite declarationLoop_app.
    change (Plugin.declarationLoop ?p (Plugin.BindingIdentifier id :: later))
      with (Plugin.declarationLoop
              (Plugin.declarationLoop p [Plugin.BindingIdentifier id]) later).
    rewrite declarationLoop_none by exact Hlater.
    cbn. apply String.eqb_eq in Hname. now rewrite Hname.
Qed.

Lemma X15_last_exported_Route_wins_witness :
  Plugin.findRouteExportPosition Fixture.program
    "/project/src/app/users/[id]/routeType.ts" = 39%Z.
Proof.
  refine (proj2 (X15_last_exported_Route_wins Fixture.program
                   "/project/src/app/users/[id]/routeType.ts"
                   Fixture.routeTypeStatements eq_refl)
            [Plugin.OtherStatement] (Some [Plugin.ExportKeyword]) []
            (Example.ident 39 44 "Route") [] [Plugin.OtherStatement]
            eq_refl eq_refl eq_refl eq_refl eq_refl).
Defined.

(** X16.  When [getRouteDefinition] answers with a definition, the detector
    found a route string at the position, the bound span is that string's
    span and contains the position, and the one definition is named [Route]
    in a target file that [fileExists] reports as existing: the file of the
    direct resolution when that exists, and otherwise the file found by the
    grouping search. *)
Theorem X16_route_definition_names_an_existing_file
    (fuel : nat) (sys : System) (info : Plugin.PluginCreateInfo)
    (config : ResolvedConfig) (fileName : string) (position : Z)
    (answer : Plugin.DefinitionInfoAndBoundSpan) :
  Plugin.getRouteDefinition fuel sys info config fileName position
  = Normal (Some answer) ->
  exists program routeInfo target,
    routeStringAt info fileName position = Some (program, routeInfo)
    /\ answer = routeDefinitionAt program routeInfo target
    /\ (spanStart (Plugin.boundSpan answer) <= position
        < spanStart (Plugin.boundSpan answer) + spanLength (Plugin.boundSpan answer))%Z
    /\ fileExists sys target = true
    /\ (resolveRouteToFile sys (route routeInfo) (Plugin.getCurrentDirectory info) config
        = Some {| filePath := target; exists_ := true |}
        \/ (Plugin.notExisting
              (resolveRouteToFile sys (route routeInfo)
                 (Plugin.getCurrentDirectory info) config) = true
            /\ findRouteTypeWithGroups fuel sys (route routeInfo)
                 (Plugin.getCurrentDirectory info) config = Normal (Some target))).
Proof.
  intros Hanswer.
  destruct (routeStringAt info fileName position) as [[program routeInfo]|] eqn:Hat;
    [|rewrite getRouteDefinition_no_route in Hanswer by exact Hat; discriminate].
  rewrite (getRouteDefinition_route _ _ _ _ _ _ _ _ Hat) in Hanswer. cbv zeta in Hanswer.
  exists program, routeInfo.
  assert (Hspan : (spanStart (span routeInfo) <= position
                   < spanStart (span routeInfo) + spanLength (span routeInfo))%Z).
  { destruct (routeStringAt_detect _ _ _ _ _ Hat) as (sourceFile & _ & _ & Hdetect).
    destruct (TokenFacts.detect_covers _ _ _ Hdetect) as (Hpos & Hstart & Hend). lia. }
  destruct (resolveRouteToFile sys (route routeInfo) (Plugin.getCurrentDirectory info)
              config) as [[target [|]]|] eqn:Hdirect.
  - injection Hanswer as <-. exists target.
    split; [reflexivity|]. split; [reflexivity|]. split; [exact Hspan|].
    split; [|now left].
    rewrite resolveRouteToFile_eq in Hdirect. cbv zeta in Hdirect.
    destruct (fileExists sys (Spec.definitionFile config _ "ts")) eqn:Hts;
      [|destruct (fileExists sys (Spec.definitionFile config _ "tsx")) eqn:Htsx];
      injection Hdirect as <-; assumption || discriminate.
  - destruct (findRouteTypeWithGroups fuel sys _ _ config) as [[groupPath|]| |] eqn:Hgroup;
      try discriminate.
    injection Hanswer as <-. exists groupPath.
    split; [reflexivity|]. split; [reflexivity|]. split; [exact Hspan|].
    split; [|right; split; reflexivity].
    now apply (search_result_exists _ _ _ _ _ _ Hgroup).
  - destruct (findRouteTypeWithGroups fuel sys _ _ config) as [[groupPath|]| |] eqn:Hgroup;
      try discriminate.
    injection Hanswer as <-. exists groupPath.
    split; [reflexivity|]. split; [reflexivity|]. split; [exact Hspan|].
    split; [|right; split; reflexivity].
    now apply (search_result_exists _ _ _ _ _ _ Hgroup).
Qed.

Lemma X16_route_definition_names_an_existing_file_witness :
  exists program routeInfo target,
    routeStringAt (Fixture.info None) "/project/src/example.ts" 20
    = Some (program, routeInfo)
    /\ routeDefinitionAt Fixture.program
         {| route := "/users/[id]"; start := 15; end_ := 28;
            span := {| spanStart := 15; spanLength := 13 |} |}
         "/project/src/app/users/[id]/routeType.ts"
       = routeDefinitionAt program routeInfo target
    /\ (15 <= 20 < 15 + 13)%Z
    /\ fileExists Fixture.basicApp target = true
    /\ (resolveRouteToFile Fixture.basicApp (route routeInfo) "/project" DEFAULT_CONFIG
        = Some {| filePath := target; exists_ := true |}
        \/ (Plugin.notExisting
              (resolveRouteToFile Fixture.basicApp (route routeInfo) "/project"
                 DEFAULT_CONFIG) = true
            /\ findRouteTypeWithGroups 0 Fixture.basicApp (route routeInfo) "/project"
                 DEFAULT_CONFIG = Normal (Some target))).
Proof.
  apply (X16_route_definition_names_an_existing_file 0 Fixture.basicApp
           (Fixture.info None) DEFAULT_CONFIG "/project/src/example.ts" 20).
  vm_compute. reflexivity.
Defined.

(** X17.  The proxy changes nothing outside route strings.  The route
    detection lets no exception out; where the detector finds no route
    string, and wherever [getRouteDefinition] has no definition, the proxy
    answers what the original language service answers; and the proxy
    raises only when the original service does. *)
Theorem X17_proxy_is_the_original_service_outside_route_strings
    (fuel : nat) (sys : System) (info : Plugin.PluginCreateInfo)
    (config : ResolvedConfig) (fileName : string) (position : Z) :
  Plugin.getRouteDefinition fuel sys info config fileName position <> Throws
  /\ (routeStringAt info fileName position = None ->
      Plugin.proxyGetDefinitionAndBoundSpan fuel sys info config fileName position
      = originalAnswer info fileName position)
  /\ (Plugin.getRouteDefinition fuel sys info config fileName position = Normal None ->
      Plugin.proxyGetDefinitionAndBoundSpan fuel sys info config fileName position
      = originalAnswer info fileName position)
  /\ (Plugin.proxyGetDefinitionAndBoundSpan fuel sys info config fileName position
      = Throws ->
      originalAnswer info fileName position = Throws).
Proof.
  pose proof (getRouteDefinition_never_throws fuel sys info config fileName position)
    as Hno.
  split; [exact Hno|]. unfold Plugin.proxyGetDefinitionAndBoundSpan. cbv zeta.
  fold (originalAnswer info fileName position). split; [|split].
  - intros Hat. now rewrite getRouteDefinition_no_route.
  - now intros ->.
  - destruct (Plugin.getRouteDefinition fuel sys info config fileName position)
      as [[answer|]| |]; try discriminate; auto; now contradiction Hno.
Qed.

Lemma X17_proxy_is_the_original_service_outside_route_strings_witness :
  Plugin.proxyGetDefinitionAndBoundSpan 0 Fixture.basicApp (Fixture.info None)
    DEFAULT_CONFIG "/project/src/example.ts" 3
  = originalAnswer (Fixture.info None) "/project/src/example.ts" 3.
Proof.
  refine (proj1 (proj2 (X17_proxy_is_the_original_service_outside_route_strings 0
                          Fixture.basicApp (Fixture.info None) DEFAULT_CONFIG
                          "/project/src/example.ts" 3)) _).
  vm_compute. reflexivity.
Defined.

(** X18.  At a detected route string the direct resolution comes first: when
    it names an existing file, [getRouteDefinition] answers with that file
    for every fuel, without any grouping search.  When it does not, the
    answer follows the grouping search: its file when it finds one, none when
    it finds none. *)
Theorem X18_direct_resolution_comes_first
    (sys : System) (info : Plugin.PluginCreateInfo) (config : ResolvedConfig)
    (fileName : string) (position : Z)
    (program : Plugin.Program) (routeInfo : RouteStringInfo) :
  routeStringAt info fileName position = Some (program, routeInfo) ->
  let direct :=
    resolveRouteToFile sys (route routeInfo) (Plugin.getCurrentDirectory info) config in
  let search := fun fuel =>
    findRouteTypeWithGroups fuel sys (route routeInfo) (Plugin.getCurrentDirectory info)
      config in
  (forall target,
     direct = Some {| filePath := target; exists_ := true |} ->
     forall fuel,
       Plugin.getRouteDefinition fuel sys info config fileName position
       = Normal (Some (routeDefinitionAt program routeInfo target)))
  /\ (forall fuel target,
        Plugin.notExisting direct = true ->
        search fuel = Normal (Some target) ->
        Plugin.getRouteDefinition fuel sys info config fileName position
        = Normal (Some (routeDefinitionAt program routeInfo target)))
  /\ (forall fuel,
        Plugin.notExisting direct = true ->
        search fuel = Normal None ->
        Plugin.getRouteDefinition fuel sys info config fileName position = Normal None).
Proof.
  intros Hat direct search. subst direct search. repeat split.
  - intros target Hdirect fuel.
    rewrite (getRouteDefinition_route _ _ _ _ _ _ _ _ Hat). cbv zeta.
    now rewrite Hdirect.
  - intros fuel target Hnot Hsearch.
    rewrite (getRouteDefinition_route _ _ _ _ _ _ _ _ Hat). cbv zeta.
    rewrite Hsearch.
    destruct (resolveRouteToFile sys _ _ config) as [[first [|]]|];
      [discriminate Hnot | reflexivity | reflexivity].
  - intros fuel Hnot Hsearch.
    rewrite (getRouteDefinition_route _ _ _ _ _ _ _ _ Hat). cbv zeta.
    rewrite Hsearch.
    destruct (resolveRouteToFile sys _ _ config) as [[first [|]]|];
      [discriminate Hnot | reflexivity | reflexivity].
Qed.

Lemma X18_direct_resolution_comes_first_witness :
  Plugin.getRouteDefinition 0 Fixture.basicApp (Fixture.info None) DEFAULT_CONFIG
    "/project/src/example.ts" 20
  = Normal (Some (routeDefinitionAt Fixture.program
                    {| route := "/users/[id]"; start := 15; end_ := 28;
                       span := {| spanStart := 15; spanLength := 13 |} |}
                    "/project/src/app/users/[id]/routeType.ts")).
Proof.
  refine (proj1 (X18_direct_resolution_comes_first Fixture.basicApp (Fixture.info None)
                   DEFAULT_CONFIG "/project/src/example.ts" 20 Fixture.program
                   {| route := "/users/[id]"; start := 15; end_ := 28;
                      span := {| spanStart := 15; spanLength := 13 |} |} _)
            "/project/src/app/users/[id]/routeType.ts" _ 0%nat).
  - vm_compute. reflexivity.
  - vm_compute. reflexivity.
Defined.

(** X19.  The fuel is a bound, not an input: once the proxy answers with
    some fuel it gives the same answer with any larger fuel, and on a tree
    whose grouping directories nest to a bounded depth it does answer from
    some fuel on. *)
Theorem X19_the_answer_does_not_depend_on_the_fuel
    (sys : System) (info : Plugin.PluginCreateInfo) (config : ResolvedConfig)
    (fileName : string) (position : Z) :
  (forall fuel fuel',
     (fuel <= fuel')%nat ->
     Plugin.proxyGetDefinitionAndBoundSpan fuel sys info config fileName position
     <> OutOfFuel ->
     Plugin.proxyGetDefinitionAndBoundSpan fuel' sys info config fileName position
     = Plugin.proxyGetDefinitionAndBoundSpan fuel sys info config fileName position)
  /\ (forall rank bound,
        groupsNestWithin sys rank bound ->
        exists enough answer,
          answer <> OutOfFuel
          /\ forall fuel,
               (enough <= fuel)%nat ->
               Plugin.proxyGetDefinitionAndBoundSpan fuel sys info config fileName
                 position = answer).
Proof.
  split; [intros fuel fuel'; apply proxy_more_fuel|].
  intros rank bound Hnest.
  assert (Hsome : exists enough,
            Plugin.proxyGetDefinitionAndBoundSpan enough sys info config fileName
              position <> OutOfFuel).
  { unfold Plugin.proxyGetDefinitionAndBoundSpan. cbv zeta.
    destruct (routeStringAt info fileName position) as [[program routeInfo]|] eqn:Hat.
    - set (segments := escapedSegments (parseRouteSegments (route routeInfo))).
      set (dir := Path.join [Plugin.getCurrentDirectory info; appDir config]).
      destruct (ResolverFacts.searchDir_total sys rank bound config Hnest
                  (S (length segments * S bound + rank dir)) dir segments)
        as [result Hresult]; [lia|].
      exists (S (length segments * S bound + rank dir)).
      rewrite (getRouteDefinition_route _ _ _ _ _ _ _ _ Hat). cbv zeta.
      unfold findRouteTypeWithGroups. fold segments dir. rewrite Hresult.
      destruct (resolveRouteToFile sys _ _ config) as [[target [|]]|];
        try destruct result;
        try destruct (Plugin.getDefinitionAndBoundSpan (Plugin.languageService info)
                        fileName position);
        discriminate.
    - exists 0%nat. rewrite getRouteDefinition_no_route by exact Hat.
      destruct (Plugin.getDefinitionAndBoundSpan _ fileName position); discriminate. }
  destruct Hsome as [enough Henough].
  exists enough. eexists. split; [exact Henough|].
  intros fuel Hle. now apply proxy_more_fuel.
Qed.

Lemma X19_the_answer_does_not_depend_on_the_fuel_witness :
  exists enough answer,
    answer <> OutOfFuel
    /\ forall fuel,
         (enough <= fuel)%nat ->
         Plugin.proxyGetDefinitionAndBoundSpan fuel Scenario.unreadableGroup
           (Fixture.info None) DEFAULT_CONFIG "/project/src/example.ts" 20 = answer.
Proof.
  exact (proj2 (X19_the_answer_does_not_depend_on_the_fuel Scenario.unreadableGroup
                  (Fixture.info None) DEFAULT_CONFIG "/project/src/example.ts" 20)
           Scenario.unreadableGroupRank 1%nat unreadableGroup_nests).
Defined.

(** X20.  What ends the search on a tree of grouping directories without
    end.  Where every listing starts with a grouping directory and no
    directory has a subdirectory named by the first segment, the recursion
    reaches every limit set on the depth of its calls; and on an engine
    that raises when its limit is reached, the error is caught by the
    [try] around the grouping loop, so that [searchDir] returns null: the
    search ends, and ends only, by an exhausted stack that the [catch]
    swallows.  A search that stays below the limit gives the same result
    with and without it. *)
Theorem X20_endless_groups_end_in_a_swallowed_stack_overflow
    (sys : System) (config : ResolvedConfig) (head : string) (rest : list string) :
  endlessGroups sys head ->
  Js.truthy head = true ->
  (forall fuel dir, searchDir fuel sys dir (head :: rest) config = OutOfFuel)
  /\ (forall limit dir,
        searchDirOnStack (S limit) sys dir (head :: rest) config = Normal None)
  /\ (forall limit dir segments result,
        searchDir limit sys dir segments config = Normal result ->
        searchDirOnStack limit sys dir segments config = Normal result).
Proof.
  intros [Hdirs Hlists] Hhead. split; [|split].
  3: { intros limit dir segments result Hresult.
       destruct (searchDirOnStack_extends sys config limit dir segments) as [H|H];
         congruence. }
  - intros fuel. induction fuel as [|fuel IH]; intros dir; [reflexivity|].
    cbn [searchDir]. unfold searchBody. rewrite Hhead. cbn [negb].
    rewrite Hdirs. unfold groupSearch.
    destruct (Hlists dir) as (entry & more & name & -> & Hname & Hgroup).
    cbn [groupLoop]. now rewrite Hname, Hgroup, IH.
  - intros limit. induction limit as [|limit IH]; intros dir;
      cbn [searchDirOnStack]; unfold searchBody; rewrite Hhead; cbn [negb];
      rewrite Hdirs; apply groupSearch_none; intros d.
    + now right.
    + left. apply IH.
Qed.

Lemma X20_endless_groups_end_in_a_swallowed_stack_overflow_witness :
  searchDir 1000 Fixture.selfListing "/project/src/app" ["users"] DEFAULT_CONFIG
  = OutOfFuel
  /\ searchDirOnStack 1000 Fixture.selfListing "/project/src/app" ["users"]
       DEFAULT_CONFIG
     = Normal None.
Proof.
  assert (Hendless : endlessGroups Fixture.selfListing "users").
  { split; [reflexivity|]. intros dir. now exists "(loop)/", [], "(loop)". }
  destruct (X20_endless_groups_end_in_a_swallowed_stack_overflow Fixture.selfListing
              DEFAULT_CONFIG "users" [] Hendless eq_refl) as (Hdeep & Hnull & _).
  split; [exact (Hdeep 1000%nat "/project/src/app")|].
  exact (Hnull 999%nat "/project/src/app").
Defined.

(** X21.  In a syntax tree whose children lie inside their parent's range
    and do not overlap, as a parser builds it, the detection does not depend
    on where in the literal the position is: a route string detected at one
    position is detected, with the same result, at every position from its
    opening quote to its closing quote. *)
Theorem X21_detection_is_the_same_all_over_the_literal
    (sourceFile : SourceFile) (position position' : Z) (info : RouteStringInfo) :
  tidyTree (sourceRoot sourceFile) = true ->
  detectRouteString sourceFile position = Some info ->
  (start info <= position' < end_ info)%Z ->
  detectRouteString sourceFile position' = Some info.
Proof.
  intros Htidy Hdetect Hrange.
  destruct (detect_inv _ _ _ Hdetect)
    as (range & text & parents & Hfind & Hprop & Hcall & Hslash & ->).
  cbn [start end_] in Hrange.
  assert (Htoken : contains position' (StringLiteral range text) = true).
  { unfold contains, getStart, getEnd. cbn [rangeOf].
    apply andb_true_iff. split; [apply Z.leb_le | apply Z.ltb_lt]; lia. }
  unfold findTokenAtPosition in Hfind.
  destruct (find_same_token position position' _ _ _ _ Htidy Hfind eq_refl Htoken)
    as [_ Hfind'].
  unfold detectRouteString, findTokenAtPosition. rewrite Hfind'.
  rewrite Hprop, Hcall, Hslash. reflexivity.
Qed.

Lemma X21_detection_is_the_same_all_over_the_literal_witness :
  detectRouteString Example.pathCallFile 27
  = Some {| route := "/users/[id]"; start := 15; end_ := 28;
            span := {| spanStart := 15; spanLength := 13 |} |}.
Proof.
  apply (X21_detection_is_the_same_all_over_the_literal Example.pathCallFile 20 27).
  - vm_compute. reflexivity.
  - vm_compute. reflexivity.
  - cbn. lia.
Defined.
